(** * PDF-TO-EPUB: the resumable conversion pipeline, embedded and verified

    A shallow embedding of the pure and state-passing parts of
    [src/App.tsx], [src/services/geminiService.ts] and
    [src/services/epubService.ts].

    Conventions.
    - JavaScript numbers that the code uses as counters (page numbers, chunk
      indices, byte values, delays in ms) are [Z]; they stay far below 2^53,
      where double arithmetic on integers is exact.
    - JavaScript strings are [string] (sequences of 8-bit code units).
    - [localStorage] is a [gmap string string].
    - Typed arrays are [list Z] with stdpp's lookup and insert: a write past
      the end of a typed array is dropped by JavaScript, and so is stdpp's
      insert out of range.
    - The outside world (the chat service, [Math.random], pdf.js, the canvas
      encoder, [JSON.parse] and [JSON.stringify], the DOM parser and
      serializer, JSZip's [folder] and [generateAsync]) is a record
      [Environment] that every effectful function takes; the DOM serializer
      is an argument of the part of the packager that fills the archive.
    - An [async] function is a function from the world to an outcome, the new
      world and the events it emitted; [localStorage.setItem] always succeeds
      (the capacity of the store is not modelled). *)

From Stdlib Require Import ZArith Lia Bool Ascii String.
From stdpp Require Import base tactics option list list_numbers gmap strings pretty.

Set Warnings "-register-all".
Local Open Scope string_scope.
Local Open Scope list_scope.
Local Open Scope Z_scope.

(** * Part I: the embedding *)

(** ** JavaScript strings: the [String.prototype] methods the code calls *)

Module JsString.

(** One code unit of [toLowerCase]; only the ASCII letters are mapped. *)
Definition lower_ascii (c : ascii) : ascii :=
  let n := N_of_ascii c in
  if ((65 <=? n) && (n <=? 90))%N then ascii_of_N (n + 32) else c.

(** [s.toLowerCase()] *)
Fixpoint toLowerCase (s : string) : string :=
  match s with
  | EmptyString => EmptyString
  | String c s' => String (lower_ascii c) (toLowerCase s')
  end.

(** [s.startsWith(prefix)] *)
Fixpoint startsWith (s prefix : string) {struct prefix} : bool :=
  match prefix, s with
  | EmptyString, _ => true
  | String _ _, EmptyString => false
  | String p prefix', String c s' =>
      if Ascii.eqb p c then startsWith s' prefix' else false
  end.

(** [s.includes(needle)] *)
Fixpoint includes (s needle : string) : bool :=
  startsWith s needle
  || match s with
     | EmptyString => false
     | String _ s' => includes s' needle
     end.

(** [s.split(sep)] for a one-character separator; never the empty list. *)
Fixpoint split (sep : ascii) (s : string) : list string :=
  match s with
  | EmptyString => [EmptyString]
  | String c s' =>
      if Ascii.eqb c sep then EmptyString :: split sep s'
      else match split sep s' with
           | [] => [String c EmptyString]
           | p :: ps => String c p :: ps
           end
  end.

(** The characters matched by [\s] and removed by [trim], among the 8-bit
    code units: TAB, LF, VT, FF, CR, SPACE and NBSP. *)
Definition is_space (c : ascii) : bool :=
  let n := N_of_ascii c in
  (((9 <=? n) && (n <=? 13)) || (n =? 32) || (n =? 160))%N.

(** The characters that [.] of a regular expression does not match. *)
Definition is_line_terminator (c : ascii) : bool :=
  let n := N_of_ascii c in ((n =? 10) || (n =? 13))%N.

Fixpoint trimStart (s : string) : string :=
  match s with
  | EmptyString => EmptyString
  | String c s' => if is_space c then trimStart s' else s
  end.

Fixpoint trimEnd (s : string) : string :=
  match s with
  | EmptyString => EmptyString
  | String c s' =>
      match trimEnd s' with
      | EmptyString => if is_space c then EmptyString else String c EmptyString
      | t => String c t
      end
  end.

(** [s.trim()] *)
Definition trim (s : string) : string := trimEnd (trimStart s).

(** Drops the first [n] code units. *)
Fixpoint drop_chars (n : nat) (s : string) : string :=
  match n, s with
  | O, _ => s
  | S n', String _ s' => drop_chars n' s'
  | S _, EmptyString => EmptyString
  end.

(** [s.replace(/^```json\s*/, '')] *)
Definition strip_opening_fence (s : string) : string :=
  if startsWith s "```json" then trimStart (drop_chars 7 s) else s.

(** [Some r] when [s] is [r] followed by three backticks at its very end. *)
Fixpoint before_closing_fence (s : string) : option string :=
  match s with
  | EmptyString => None
  | String c s' =>
      if String.eqb s "```" then Some EmptyString
      else String c <$> before_closing_fence s'
  end.

(** [s.replace(/\s*```$/, '')]: the leftmost match takes the final fence
    together with all white space in front of it. *)
Definition strip_closing_fence (s : string) : string :=
  match before_closing_fence s with
  | Some r => trimEnd r
  | None => s
  end.

(** The capture of [(.*?);] tried right after a colon: the text up to the
    first semicolon, provided no line terminator comes before it. *)
Fixpoint lazy_until_semicolon (s : string) : option string :=
  match s with
  | EmptyString => None
  | String c s' =>
      if Ascii.eqb c ";" then Some EmptyString
      else if is_line_terminator c then None
      else String c <$> lazy_until_semicolon s'
  end.

(** [header.match(/:(.*?);/)]: [Some m] is a match whose group 1 is [m],
    [None] is [null].  The leftmost colon from which the pattern can be
    completed wins. *)
Fixpoint match_colon_semicolon (s : string) : option string :=
  match s with
  | EmptyString => None
  | String c s' =>
      if Ascii.eqb c ":" then
        match lazy_until_semicolon s' with
        | Some m => Some m
        | None => match_colon_semicolon s'
        end
      else match_colon_semicolon s'
  end.

End JsString.

(** ** JSON values as [JSON.parse] returns them, and JavaScript truthiness *)

Module Json.

(** A parsed JSON document.  [JNum] carries integer-valued numbers, the only
    ones the program writes ([currentChunk], [numPages]); an object is the
    list of its own properties. *)
Inductive json : Type :=
| JNull
| JBool (b : bool)
| JNum (n : Z)
| JStr (s : string)
| JArr (items : list json)
| JObj (props : list (string * json)).

(** The result of reading a property: a JSON value or [undefined]. *)
Inductive js_value : Type :=
| Undefined
| Val (v : json).

(** ToBoolean on a JSON value: [null], [false], [0] and the empty string are
    falsy; every array and every object is truthy, the empty ones too. *)
Definition truthy_json (v : json) : bool :=
  match v with
  | JNull => false
  | JBool b => b
  | JNum n => negb (n =? 0)
  | JStr s => negb (String.eqb s EmptyString)
  | JArr _ => true
  | JObj _ => true
  end.

Definition truthy (v : js_value) : bool :=
  match v with
  | Undefined => false
  | Val j => truthy_json j
  end.

Fixpoint own_property (props : list (string * json)) (k : string) : js_value :=
  match props with
  | [] => Undefined
  | (k', v) :: rest => if String.eqb k' k then Val v else own_property rest k
  end.

(** [v.k] for a property name [k] that no prototype defines (the names the
    program reads are [currentChunk], [chatHistory] and [htmlContent]).
    [None] is the TypeError raised by a property read on [null]. *)
Definition get_property (v : json) (k : string) : option js_value :=
  match v with
  | JNull => None
  | JObj props => Some (own_property props k)
  | _ => Some Undefined
  end.

(** What [JSON.parse] does with a text: a value or a SyntaxError. *)
Inductive parse_result : Type :=
| Parsed (v : json)
| SyntaxError (message : string).

End Json.

(** ** Page-range chunking ([handleConvert], App.tsx 12, 154-166) *)

Module Chunking.

(** [const CHUNK_SIZE = 5] *)
Definition CHUNK_SIZE : Z := 5.

(** [Math.ceil(a / b)] for integers [a] and [b > 0]: the least integer
    that is not below the exact quotient. *)
Definition Math_ceil_div (a b : Z) : Z := - ((- a) / b).

(** [const numChunks = Math.ceil(numPages / CHUNK_SIZE)] *)
Definition numChunks (numPages : Z) : Z := Math_ceil_div numPages CHUNK_SIZE.

(** [const startPage = i * CHUNK_SIZE + 1] *)
Definition startPage (i : Z) : Z := i * CHUNK_SIZE + 1.

(** [const endPage = Math.min((i + 1) * CHUNK_SIZE, numPages)] *)
Definition endPage (numPages i : Z) : Z := Z.min ((i + 1) * CHUNK_SIZE) numPages.

(** The page numbers visited by
    [for (let pageNum = startPage; pageNum <= endPage; pageNum++)]. *)
Definition chunk_pages (numPages i : Z) : list Z :=
  seqZ (startPage i) (endPage numPages i - startPage i + 1).

(** The chunk indices visited by
    [for (let i = resumeFromChunk; i < numChunks; i++)]. *)
Definition chunk_indices (resumeFromChunk numPages : Z) : list Z :=
  seqZ resumeFromChunk (numChunks numPages - resumeFromChunk).

(** All pages of a fresh run, in the order in which they are extracted. *)
Definition all_pages (numPages : Z) : list Z :=
  concat (chunk_pages numPages <$> chunk_indices 0 numPages).

End Chunking.

(** ** The archive packager ([src/services/epubService.ts]) *)

Module EpubService.

(** The document tree built by [DOMParser]: text nodes and elements with
    lower-case tag names and attributes in source order. *)
Inductive node : Type :=
| TextNode (text : string)
| Element (tag : string) (attrs : list (string * string)) (children : list node).

Definition nl : string := String "010" EmptyString.
Definition quot : string := String "034" EmptyString.

(** A double-quoted attribute value. *)
Definition q (s : string) : string := quot +:+ s +:+ quot.

(** [createContainerXml()] *)
Definition createContainerXml : string :=
  "<?xml version=" +:+ q "1.0" +:+ " encoding=" +:+ q "UTF-8" +:+ "?>" +:+ nl
  +:+ "<container version=" +:+ q "1.0" +:+ " xmlns=" +:+ q "urn:oasis:names:tc:opendocument:xmlns:container" +:+ ">" +:+ nl
  +:+ "  <rootfiles>" +:+ nl
  +:+ "    <rootfile full-path=" +:+ q "OEBPS/content.opf" +:+ " media-type=" +:+ q "application/oebps-package+xml" +:+ "/>" +:+ nl
  +:+ "  </rootfiles>" +:+ nl
  +:+ "</container>".

(** [createContentOpf(title, fileManifest)] *)
Definition createContentOpf (title fileManifest : string) : string :=
  "<?xml version=" +:+ q "1.0" +:+ " encoding=" +:+ q "UTF-8" +:+ "?>" +:+ nl
  +:+ "<package xmlns=" +:+ q "http://www.idpf.org/2007/opf" +:+ " unique-identifier=" +:+ q "pub-id" +:+ " version=" +:+ q "2.0" +:+ ">" +:+ nl
  +:+ "  <metadata xmlns:dc=" +:+ q "http://purl.org/dc/elements/1.1/" +:+ " xmlns:opf=" +:+ q "http://www.idpf.org/2007/opf" +:+ ">" +:+ nl
  +:+ "    <dc:title>" +:+ title +:+ "</dc:title>" +:+ nl
  +:+ "    <dc:language>en</dc:language>" +:+ nl
  +:+ "  </metadata>" +:+ nl
  +:+ "  <manifest>" +:+ nl
  +:+ "    <item id=" +:+ q "content" +:+ " href=" +:+ q "content.xhtml" +:+ " media-type=" +:+ q "application/xhtml+xml" +:+ "/>" +:+ nl
  +:+ "    <item id=" +:+ q "ncx" +:+ " href=" +:+ q "toc.ncx" +:+ " media-type=" +:+ q "application/x-dtbncx+xml" +:+ "/>" +:+ nl
  +:+ "    <item id=" +:+ q "css" +:+ " href=" +:+ q "style.css" +:+ " media-type=" +:+ q "text/css" +:+ "/>" +:+ nl
  +:+ "    " +:+ fileManifest +:+ nl
  +:+ "  </manifest>" +:+ nl
  +:+ "  <spine toc=" +:+ q "ncx" +:+ ">" +:+ nl
  +:+ "    <itemref idref=" +:+ q "content" +:+ "/>" +:+ nl
  +:+ "  </spine>" +:+ nl
  +:+ "</package>".

(** [createTocNcx(title, navPoints)] *)
Definition createTocNcx (title navPoints : string) : string :=
  "<?xml version=" +:+ q "1.0" +:+ " encoding=" +:+ q "UTF-8" +:+ "?>" +:+ nl
  +:+ "<!DOCTYPE ncx PUBLIC " +:+ q "-//NISO//DTD ncx 2005-1//EN" +:+ " " +:+ q "http://www.daisy.org/z3986/2005/ncx-2005-1.dtd" +:+ ">" +:+ nl
  +:+ "<ncx xmlns=" +:+ q "http://www.daisy.org/z3986/2005/ncx/" +:+ " version=" +:+ q "2005-1" +:+ ">" +:+ nl
  +:+ "  <head>" +:+ nl
  +:+ "    <meta name=" +:+ q "dtb:uid" +:+ " content=" +:+ q EmptyString +:+ "/>" +:+ nl
  +:+ "    <meta name=" +:+ q "dtb:depth" +:+ " content=" +:+ q "1" +:+ "/>" +:+ nl
  +:+ "    <meta name=" +:+ q "dtb:totalPageCount" +:+ " content=" +:+ q "0" +:+ "/>" +:+ nl
  +:+ "    <meta name=" +:+ q "dtb:maxPageNumber" +:+ " content=" +:+ q "0" +:+ "/>" +:+ nl
  +:+ "  </head>" +:+ nl
  +:+ "  <docTitle>" +:+ nl
  +:+ "    <text>" +:+ title +:+ "</text>" +:+ nl
  +:+ "  </docTitle>" +:+ nl
  +:+ "  <navMap>" +:+ nl
  +:+ "    " +:+ navPoints +:+ nl
  +:+ "  </navMap>" +:+ nl
  +:+ "</ncx>".

(** [createCss()] *)
Definition createCss : string :=
  "body {" +:+ nl
  +:+ "  font-family: serif;" +:+ nl
  +:+ "  line-height: 1.6;" +:+ nl
  +:+ "  padding: 1em;" +:+ nl
  +:+ "}" +:+ nl
  +:+ "h1, h2, h3, h4, h5, h6 {" +:+ nl
  +:+ "  margin-top: 1.5em;" +:+ nl
  +:+ "  margin-bottom: 0.5em;" +:+ nl
  +:+ "  line-height: 1.2;" +:+ nl
  +:+ "}" +:+ nl
  +:+ "img {" +:+ nl
  +:+ "  max-width: 100%;" +:+ nl
  +:+ "  display: block;" +:+ nl
  +:+ "  margin: 1em auto;" +:+ nl
  +:+ "}" +:+ nl
  +:+ "nav ol {" +:+ nl
  +:+ "  list-style-type: none;" +:+ nl
  +:+ "  padding-left: 0;" +:+ nl
  +:+ "}" +:+ nl
  +:+ "nav li {" +:+ nl
  +:+ "  margin-bottom: 0.5em;" +:+ nl
  +:+ "}".

(** [el.getAttribute(name)]; [None] is [null]. *)
Fixpoint getAttribute (attrs : list (string * string)) (name : string)
  : option string :=
  match attrs with
  | [] => None
  | (k, v) :: rest => if String.eqb k name then Some v else getAttribute rest name
  end.

(** [el.setAttribute(name, value)] *)
Fixpoint setAttribute (attrs : list (string * string)) (name value : string)
  : list (string * string) :=
  match attrs with
  | [] => [(name, value)]
  | (k, v) :: rest =>
      if String.eqb k name then (k, value) :: rest
      else (k, v) :: setAttribute rest name value
  end.

(** [node.textContent] *)
Fixpoint textContent (n : node) : string :=
  match n with
  | TextNode text => text
  | Element _ _ children => String.concat EmptyString (List.map textContent children)
  end.

(** [doc.querySelector(tag)]: the first element with that tag in document
    order. *)
Fixpoint querySelector (tag : string) (n : node) : option node :=
  match n with
  | TextNode _ => None
  | Element t _ children =>
      if String.eqb t tag then Some n
      else
        (fix first (cs : list node) : option node :=
           match cs with
           | [] => None
           | c :: cs' =>
               match querySelector tag c with
               | Some r => Some r
               | None => first cs'
               end
           end) children
  end.

(** [doc.querySelectorAll('img')], in document order. *)
Fixpoint querySelectorAll_img (n : node) : list node :=
  match n with
  | TextNode _ => []
  | Element t _ children =>
      (if String.eqb t "img" then [n] else [])
      ++ List.concat (List.map querySelectorAll_img children)
  end.

(** How much of the ancestor chain [nav], [ol], [li] has been seen on the
    way down (0 to 3), after entering an element with tag [tag]. *)
Definition descend (seen : nat) (tag : string) : nat :=
  match seen with
  | 0%nat => if String.eqb tag "nav" then 1%nat else 0%nat
  | 1%nat => if String.eqb tag "ol" then 2%nat else 1%nat
  | 2%nat => if String.eqb tag "li" then 3%nat else 2%nat
  | _ => seen
  end.

(** The [a] elements below [n] that have an [li] ancestor inside an [ol]
    inside a [nav], given what was [seen] above [n]. *)
Fixpoint select_toc_links (seen : nat) (n : node) : list node :=
  match n with
  | TextNode _ => []
  | Element t _ children =>
      (if (seen =? 3)%nat && String.eqb t "a" then [n] else [])
      ++ List.concat (List.map (select_toc_links (descend seen t)) children)
  end.

(** [doc.querySelectorAll('nav ol li a')] *)
Definition querySelectorAll_toc (doc : node) : list node :=
  select_toc_links 0 doc.

Definition src_of (n : node) : option string :=
  match n with
  | TextNode _ => None
  | Element _ attrs _ => getAttribute attrs "src"
  end.

(** One file of the JSZip object. *)
Record zip_entry : Type := {
  entry_name : string;
  entry_data : string;
  entry_dir : bool;
  entry_compression : option string;
  entry_base64 : bool
}.

Definition has_entry (name : string) (zip : list zip_entry) : bool :=
  existsb (λ e, String.eqb (entry_name e) name) zip.

(** [this.files[name] = object]: a new name goes last, a known name keeps
    its place. *)
Definition zip_put (e : zip_entry) (zip : list zip_entry) : list zip_entry :=
  if has_entry (entry_name e) zip then
    (λ e', if String.eqb (entry_name e') (entry_name e) then e else e') <$> zip
  else zip ++ [e].

(** [folderAdd]: the directory entry, unless it is there already.  JSZip
    gives every directory entry empty data and the compression [STORE]. *)
Definition zip_folder (name : string) (zip : list zip_entry) : list zip_entry :=
  if has_entry name zip then zip
  else zip ++ [{| entry_name := name; entry_data := EmptyString;
                  entry_dir := true; entry_compression := Some "STORE";
                  entry_base64 := false |}].

(** [zip.file(name, data, options)] inside the folder [folder] (with its
    final slash; empty for the root), which JSZip creates when missing.
    The data is never empty where the packager calls it (JSZip would store
    an empty file with [STORE]). *)
Definition zip_file (folder name data : string) (compression : option string)
    (base64 : bool) (zip : list zip_entry) : list zip_entry :=
  zip_put {| entry_name := folder +:+ name; entry_data := data;
             entry_dir := false; entry_compression := compression;
             entry_base64 := base64 |}
    (if String.eqb folder EmptyString then zip else zip_folder folder zip).

(** The variables of the image loop. *)
Record packing : Type := {
  imageCounter : Z;
  imageManifestItems : list string;
  zip : list zip_entry
}.

(** [mimeType.split('/')[1] || 'jpeg'] *)
Definition extension_of (mimeType : string) : string :=
  match JsString.split "/" mimeType !! 1%nat with
  | Some ext => if String.eqb ext EmptyString then "jpeg" else ext
  | None => "jpeg"
  end.

(** The decision of the loop body: [Some (mimeType, base64Data)] when both
    [if]s are passed. *)
Definition data_uri (src : option string) : option (string * string) :=
  match src with
  | None => None
  | Some src =>
      if negb (String.eqb src EmptyString) && JsString.startsWith src "data:" then
        let parts := JsString.split "," src in
        match JsString.match_colon_semicolon (default EmptyString (parts !! 0%nat)),
              parts !! 1%nat with
        | Some mimeType, Some base64Data =>
            if String.eqb base64Data EmptyString then None
            else Some (mimeType, base64Data)
        | _, _ => None
        end
      else None
  end.

Definition image_filename (imageCounter : Z) (mimeType : string) : string :=
  "image" +:+ pretty imageCounter +:+ "." +:+ extension_of mimeType.

Definition manifest_item (imageCounter : Z) (filename mimeType : string) : string :=
  "<item id=" +:+ q ("img" +:+ pretty imageCounter) +:+ " href=" +:+ q ("images/" +:+ filename) +:+ " media-type=" +:+ q mimeType +:+ "/>".

(** The body of [for (const img of images)] for an image whose [src]
    attribute is [src]: the value written back by [setAttribute], if any,
    and the variables afterwards. *)
Definition image_step (src : option string) (st : packing)
  : option string * packing :=
  match data_uri src with
  | Some (mimeType, base64Data) =>
      let filename := image_filename (imageCounter st) mimeType in
      (Some ("images/" +:+ filename),
       {| imageCounter := imageCounter st + 1;
          imageManifestItems :=
            imageManifestItems st
            ++ [manifest_item (imageCounter st) filename mimeType];
          zip := zip_file "OEBPS/images/" filename base64Data None true (zip st) |})
  | None => (None, st)
  end.

(** The image loop over the [src] attributes of the selected elements. *)
Fixpoint image_loop (srcs : list (option string)) (st : packing)
  : list (option string) * packing :=
  match srcs with
  | [] => ([], st)
  | src :: rest =>
      let '(new_src, st1) := image_step src st in
      let '(new_srcs, st2) := image_loop rest st1 in
      (new_src :: new_srcs, st2)
  end.

(** The same loop seen on the tree: each [img] element, in document order,
    gets its [src] rewritten in place. *)
Fixpoint rewrite_images (n : node) (st : packing) : node * packing :=
  match n with
  | TextNode _ => (n, st)
  | Element t attrs children =>
      let '(attrs1, st1) :=
        if String.eqb t "img" then
          match image_step (getAttribute attrs "src") st with
          | (Some new_src, st') => (setAttribute attrs "src" new_src, st')
          | (None, st') => (attrs, st')
          end
        else (attrs, st) in
      let '(children1, st2) :=
        (fix each (cs : list node) (st : packing) : list node * packing :=
           match cs with
           | [] => ([], st)
           | c :: cs' =>
               let '(c1, st') := rewrite_images c st in
               let '(cs1, st'') := each cs' st' in
               (c1 :: cs1, st'')
           end) children st1 in
      (Element t attrs1 children1, st2)
  end.

(** [head.appendChild(link)] on the first [head] element, if there is one;
    the flag tells whether it was found. *)
Fixpoint append_to_head (link : node) (n : node) : node * bool :=
  match n with
  | TextNode _ => (n, false)
  | Element t attrs children =>
      if String.eqb t "head" then (Element t attrs (children ++ [link]), true)
      else
        let '(children1, found) :=
          (fix first (cs : list node) : list node * bool :=
             match cs with
             | [] => ([], false)
             | c :: cs' =>
                 match append_to_head link c with
                 | (c1, true) => (c1 :: cs', true)
                 | (c1, false) =>
                     let '(cs1, found) := first cs' in (c :: cs1, found)
                 end
             end) children in
        (Element t attrs children1, found)
  end.

Definition stylesheet_link : node :=
  Element "link"
    [("rel", "stylesheet"); ("type", "text/css"); ("href", "style.css")] [].

(** [link.getAttribute('href') || ''] *)
Definition link_href (link : node) : string :=
  match link with
  | Element _ attrs _ => default EmptyString (getAttribute attrs "href")
  | TextNode _ => EmptyString
  end.

(** The template pushed for the link at position [index]. *)
Definition navPoint_template (index : nat) (text href : string) : string :=
  "<navPoint id=" +:+ q ("navpoint-" +:+ pretty (Z.of_nat index + 1)) +:+ " playOrder=" +:+ q (pretty (Z.of_nat index + 1)) +:+ ">" +:+ nl
    +:+ "      <navLabel><text>" +:+ text +:+ "</text></navLabel>" +:+ nl
    +:+ "      <content src=" +:+ q ("content.xhtml" +:+ href) +:+ "/>" +:+ nl
    +:+ "    </navPoint>".

(** One [navPoints.push(...)] of the [forEach] over the TOC links. *)
Definition navPoint (index : nat) (link : node) : string :=
  navPoint_template index (textContent link) (link_href link).

(** [doc.querySelector('title')?.textContent || title] *)
Definition bookTitle (doc : node) (title : string) : string :=
  match querySelector "title" doc with
  | Some el => if String.eqb (textContent el) EmptyString then title else textContent el
  | None => title
  end.

(** The archive after steps 1 and 2 and the two [folder] calls. *)
Definition zip_skeleton : list zip_entry :=
  zip_folder "OEBPS/images/"
    (zip_folder "OEBPS/"
       (zip_file "META-INF/" "container.xml" createContainerXml None false
          (zip_file EmptyString "mimetype" "application/epub+zip" (Some "STORE") false
             []))).

(** The state of the image loop when it ends. *)
Definition images_result (doc : node) : node * packing :=
  rewrite_images doc
    {| imageCounter := 0; imageManifestItems := []; zip := zip_skeleton |}.

(** The document after the image loop and [head.appendChild(link)]. *)
Definition final_document (doc : node) : node :=
  (append_to_head stylesheet_link (images_result doc).1).1.

(** [navPoints] after the [forEach]. *)
Definition navPoints (doc : node) : list string :=
  imap navPoint (querySelectorAll_toc (final_document doc)).

(** The wrapper written as [content.xhtml]. *)
Definition finalHtmlString (innerHTML : node → string) (doc : node) : string :=
  "<?xml version=" +:+ q "1.0" +:+ " encoding=" +:+ q "UTF-8" +:+ "?>" +:+ nl
  +:+ "<!DOCTYPE html PUBLIC " +:+ q "-//W3C//DTD XHTML 1.1//EN" +:+ " " +:+ q "http://www.w3.org/TR/xhtml11/DTD/xhtml11.dtd" +:+ ">" +:+ nl
  +:+ "<html xmlns=" +:+ q "http://www.w3.org/1999/xhtml" +:+ ">" +:+ nl
  +:+ innerHTML doc +:+ nl
  +:+ "</html>".

(** [generateEpub(htmlContent, title)], from the parsed document on: the
    files of the JSZip object in the order in which [generateAsync] writes
    them.  [innerHTML] is the serializer of the DOM.  The call as a whole,
    with the parser, the guards and the outcome of [generateAsync], is
    [App.generateEpub_promise]. *)
Definition generateEpub (innerHTML : node → string) (doc : node)
    (title : string) : list zip_entry :=
  let bookTitle := bookTitle doc title in
  let st := (images_result doc).2 in
  let zip := zip_file "OEBPS/" "style.css" createCss None false (zip st) in
  let tocNcxContent :=
    createTocNcx bookTitle (String.concat nl (navPoints doc)) in
  let zip := zip_file "OEBPS/" "toc.ncx" tocNcxContent None false zip in
  let zip :=
    zip_file "OEBPS/" "content.xhtml"
      (finalHtmlString innerHTML (final_document doc)) None false zip in
  let contentOpfContent :=
    createContentOpf bookTitle (String.concat nl (imageManifestItems st)) in
  zip_file "OEBPS/" "content.opf" contentOpfContent None false zip.

End EpubService.

(** ** The world the program runs in *)

Module World.
Import Json.

(** A thrown JavaScript value, seen through the operations the handlers
    apply to it. *)
Record js_error : Type := {
  err_is_object : bool;   (* typeof err === 'object' *)
  err_json : string;      (* JSON.stringify(err) *)
  err_string : string;    (* String(err) *)
  err_is_Error : bool;    (* err instanceof Error *)
  err_message : string    (* err.message *)
}.

(** [new Error(message)]: an [Error] has no enumerable own property. *)
Definition new_Error (message : string) : js_error :=
  {| err_is_object := true;
     err_json := "{}";
     err_string := "Error: " +:+ message;
     err_is_Error := true;
     err_message := message |}.

(** [{ mimeType, data }] *)
Record image : Type := {
  mimeType : string;
  data : string
}.

(** One part of a chat message. *)
Inductive part : Type :=
| TextPart (text : string)
| InlineData (mimeType data : string).

(** [SendMessageParameters]: the parts of the message, and whether the
    structured-output configuration ([responseMimeType] and
    [responseSchema]) is attached. *)
Record SendMessageParameters : Type := {
  message : list part;
  structured_output : bool
}.

(** [GenerateContentResponse], through its [text] getter. *)
Record GenerateContentResponse : Type := {
  response_text : option string
}.

(** One turn of the chat history. *)
Inductive Content : Type :=
| UserContent (parts : list part)
| ModelContent (response : GenerateContentResponse).

(** The persisted session record. *)
Record session_data : Type := {
  currentChunk : Z;
  numPages : Z;
  chatHistory : list Content;
  allImages : list image
}.

(** The image object kept by pdf.js for a [paintImageXObject] operator. *)
Record pdf_image : Type := {
  img_width : Z;
  img_height : Z;
  img_data : list Z
}.

(** What [await page.commonObjs.get(imageName)] does. *)
Inductive image_lookup : Type :=
| LookupThrows (err : js_error)
| LookupFalsy
| LookupFound (img : pdf_image).

(** One entry of [operatorList.fnArray]; for a paint operator, the outcome
    of the lookup and whether [canvas.getContext('2d')] returns a context. *)
Inductive pdf_op : Type :=
| OtherOp
| PaintImageXObject (lookup : image_lookup) (has_context : bool).

(** A page: its text items joined by line feeds, and its operator list. *)
Record pdf_page : Type := {
  pageText : string;
  fnArray : list pdf_op
}.

(** The outcome of one [chat.sendMessage] call. *)
Inductive attempt_outcome : Type :=
| Replied (response : GenerateContentResponse)
| Rejected (err : js_error).

(** Everything the program asks of its surroundings.  The chat service and
    [Math.random] are scripts indexed by the number of earlier calls. *)
Record Environment : Type := {
  service : nat → attempt_outcome;
  random_source : nat → Z;
  JSON_parse : string → parse_result;
  JSON_stringify : session_data → string;
  FINAL_PROMPT_INSTRUCTIONS : string;
  undefined_trim_message : string;
  pdf_numPages : js_error + Z;
  pdf_getPage : Z → js_error + pdf_page;
  canvas_png_base64 : Z → Z → list Z → string;
  createImageData_error : js_error;
  window_confirm : bool;
  (* parser.parseFromString(htmlContent, 'text/html') *)
  DOMParser_parseFromString : json → EpubService.node;
  (* doc.documentElement.innerHTML *)
  innerHTML : EpubService.node → string;
  (* whether folder(name) returns a folder object *)
  jszip_folder : string → bool;
  (* the error with which generateAsync rejects for these files, if it does *)
  jszip_generateAsync : list EpubService.zip_entry → option js_error
}.

(** Observable effects, in the order in which they happen. *)
Inductive event : Type :=
| EvChatCreate (history : list Content)
| EvSendMessage (m : SendMessageParameters)
| EvSetTimeout (ms : Z)
| EvSetItem (key : string) (s : session_data)
| EvRemoveItem (key : string).

(** The mutable state: [localStorage], the history held by the [Chat]
    object, and how many calls the two scripts have answered. *)
Record world : Type := {
  w_store : gmap string string;
  w_history : list Content;
  w_sent : nat;
  w_random : nat
}.

(** An [async] function body either returns or throws. *)
Inductive outcome (A : Type) : Type :=
| Returned (a : A)
| Thrown (err : js_error).
Global Arguments Returned {A} a.
Global Arguments Thrown {A} err.

(** A computation: from a world to an outcome, the new world and the events
    it emitted. *)
Definition M (A : Type) : Type := world → outcome A * world * list event.

Definition ret {A} (a : A) : M A := λ w, (Returned a, w, []).

Definition throw {A} (err : js_error) : M A := λ w, (Thrown err, w, []).

Definition bind {A B} (m : M A) (k : A → M B) : M B :=
  λ w, match m w with
       | (Returned a, w1, t1) =>
           match k a w1 with
           | (r, w2, t2) => (r, w2, t1 ++ t2)
           end
       | (Thrown err, w1, t1) => (Thrown err, w1, t1)
       end.

(** [try { body } catch (err) { handler }] *)
Definition try_catch {A} (body : M A) (handler : js_error → M A) : M A :=
  λ w, match body w with
       | (Returned a, w1, t1) => (Returned a, w1, t1)
       | (Thrown err, w1, t1) =>
           match handler err w1 with
           | (r, w2, t2) => (r, w2, t1 ++ t2)
           end
       end.

Definition emit (e : event) : M unit := λ w, (Returned tt, w, [e]).

End World.

Declare Scope js_scope.
Delimit Scope js_scope with js.
Notation "'let*' x := m 'in' k" := (World.bind m (λ x, k))
  (at level 10, x name, m at level 100, k at level 200) : js_scope.
Notation "m ;;; k" := (World.bind m (λ _, k))
  (at level 100, k at level 200, right associativity) : js_scope.

(** ** The conversation client ([src/services/geminiService.ts]) *)

Module GeminiService.
Import Json World.
Local Open Scope js_scope.

(** [typeof err === 'object' ? JSON.stringify(err) : String(err)] *)
Definition error_text (err : js_error) : string :=
  if err_is_object err then err_json err else err_string err.

(** [(...).toLowerCase()] *)
Definition errorString (err : js_error) : string :=
  JsString.toLowerCase (error_text err).

(** [errorString.includes("daily limit") || errorString.includes("quota exceeded")] *)
Definition is_quota_error (err : js_error) : bool :=
  JsString.includes (errorString err) "daily limit"
  || JsString.includes (errorString err) "quota exceeded".

(** [const isRetriableError = ...] *)
Definition isRetriableError (err : js_error) : bool :=
  JsString.includes (errorString err) "429"
  || JsString.includes (errorString err) "resource_exhausted"
  || JsString.includes (errorString err) "500"
  || JsString.includes (errorString err) "503"
  || JsString.includes (errorString err) "unknown"
  || JsString.includes (errorString err) "rpc failed".

Definition MAX_RETRIES : Z := 7.
Definition INITIAL_DELAY_MS : Z := 3000.

(** [chat.sendMessage(message)]: the next line of the service script; a
    reply extends the history by the user turn and the model turn. *)
Definition chat_sendMessage (E : Environment) (m : SendMessageParameters)
  : M GenerateContentResponse :=
  λ w,
    match service E (w_sent w) with
    | Replied r =>
        (Returned r,
         {| w_store := w_store w;
            w_history := w_history w ++ [UserContent (message m); ModelContent r];
            w_sent := S (w_sent w);
            w_random := w_random w |},
         [EvSendMessage m])
    | Rejected err =>
        (Thrown err,
         {| w_store := w_store w;
            w_history := w_history w;
            w_sent := S (w_sent w);
            w_random := w_random w |},
         [EvSendMessage m])
    end.

(** [await new Promise(resolve => setTimeout(resolve, ms))] *)
Definition sleep (ms : Z) : M unit := emit (EvSetTimeout ms).

(** [Math.floor(Math.random() * 1000)]: some integer from 0 to 999. *)
Definition random_below_1000 (E : Environment) : M Z :=
  λ w, (Returned (random_source E (w_random w) `mod` 1000),
        {| w_store := w_store w;
           w_history := w_history w;
           w_sent := w_sent w;
           w_random := S (w_random w) |},
        []).

(** The [for] loop of [sendMessageWithRetry], entered with [attempt] and
    [delay] and with [left] iterations to go before [attempt] reaches
    [MAX_RETRIES]; leaving the loop reaches the final [throw]. *)
Fixpoint retry_loop (E : Environment) (m : SendMessageParameters)
    (left : nat) (attempt delay : Z) : M GenerateContentResponse :=
  match left with
  | O => throw (new_Error "Exceeded maximum retries for sending message.")
  | S left' =>
      try_catch (chat_sendMessage E m) (λ err,
        if is_quota_error err then throw err
        else if isRetriableError err && (attempt <? MAX_RETRIES - 1) then
          sleep delay ;;;
          let* jitter := random_below_1000 E in
          retry_loop E m left' (attempt + 1) (delay * 2 + jitter)
        else throw err)
  end.

Definition sendMessageWithRetry (E : Environment) (m : SendMessageParameters)
  : M GenerateContentResponse :=
  retry_loop E m (Z.to_nat MAX_RETRIES) 0 INITIAL_DELAY_MS.

(** [ai.chats.create({ model, config, history: history || [] })] *)
Definition startEpubConversionChat (history : option (list Content)) : M unit :=
  λ w, (Returned tt,
        {| w_store := w_store w;
           w_history := default [] history;
           w_sent := w_sent w;
           w_random := w_random w |},
        [EvChatCreate (default [] history)]).

(** [chat.getHistory()] *)
Definition chat_getHistory : M (list Content) :=
  λ w, (Returned (w_history w), w, []).

Definition chunk_message (text : string) (images : list image)
    (startPage endPage : Z) : SendMessageParameters :=
  {| message :=
       TextPart ("Here is the content for pages " +:+ pretty startPage +:+ "-"
                 +:+ pretty endPage
                 +:+ ". Please process it and wait for the next chunk. PDF Content for this chunk is below:"
                 +:+ String "010" (String "010" text))
       :: ((λ im, InlineData (World.mimeType im) (World.data im)) <$> images);
     structured_output := false |}.

Definition sendPdfChunkToChat (E : Environment) (text : string)
    (images : list image) (startPage endPage : Z) : M unit :=
  sendMessageWithRetry E (chunk_message text images startPage endPage) ;;;
  ret tt.

Definition finalPrompt (E : Environment) : string :=
  "I have now sent you all the chunks of the PDF. Please generate the complete HTML document based on all the content provided so far. Follow these instructions carefully:"
  +:+ String "010" (String "010" (FINAL_PROMPT_INSTRUCTIONS E)).

Definition final_message (E : Environment) : SendMessageParameters :=
  {| message := [TextPart (finalPrompt E)]; structured_output := true |}.

(** The [try] block of [finishEpubConversionChat] after the response has
    arrived.  [result.htmlContent] is returned as it is. *)
Definition read_htmlContent (E : Environment) (response : GenerateContentResponse)
  : M json :=
  match response_text response with
  | None => throw (new_Error (undefined_trim_message E))
  | Some text =>
      let jsonStr := JsString.trim text in
      let cleanedJsonStr :=
        JsString.strip_closing_fence (JsString.strip_opening_fence jsonStr) in
      match JSON_parse E cleanedJsonStr with
      | SyntaxError msg => throw (new_Error msg)
      | Parsed result =>
          if truthy_json result then
            match get_property result "htmlContent" with
            | Some (Val html) =>
                if truthy_json html then ret html
                else throw (new_Error "API response did not contain 'htmlContent'.")
            | _ => throw (new_Error "API response did not contain 'htmlContent'.")
            end
          else throw (new_Error "API response did not contain 'htmlContent'.")
      end
  end.

Definition finishEpubConversionChat (E : Environment) : M json :=
  try_catch
    (let* response := sendMessageWithRetry E (final_message E) in
     read_htmlContent E response)
    (λ err,
       let errorMessage :=
         if err_is_Error err then err_message err
         else "An unknown error occurred." in
       throw (new_Error ("Failed to convert PDF to HTML. " +:+ errorMessage))).

End GeminiService.

(** ** The orchestrator ([src/App.tsx]) *)

Module App.
Import Json World GeminiService.
Local Open Scope js_scope.

Definition CHUNK_SIZE : Z := Chunking.CHUNK_SIZE.

(** [const THROTTLE_MS = 1500] *)
Definition THROTTLE_MS : Z := 1500.

(** The selected [File], as far as the program looks at it. *)
Record File : Type := {
  file_name : string;
  file_size : Z
}.

(** [`epub-session-${file.name}-${file.size}`] *)
Definition sessionKey (file : File) : string :=
  "epub-session-" +:+ file_name file +:+ "-" +:+ pretty (file_size file).

(** *** The session-load effect (App.tsx 46-69) *)

(** The [try] block: [Some parsed] when [setResumableSession(parsed)] is
    reached, [None] when an exception reaches the [catch] ([JSON.parse]
    fails, a property of [null] is read, or "Invalid session data"). *)
Definition try_load_session (E : Environment) (savedSession : string)
  : option json :=
  match JSON_parse E savedSession with
  | SyntaxError _ => None
  | Parsed parsed =>
      match get_property parsed "currentChunk" with
      | None => None
      | Some currentChunk =>
          if truthy currentChunk then
            match get_property parsed "chatHistory" with
            | None => None
            | Some chatHistory =>
                if truthy chatHistory then Some parsed else None
            end
          else None
      end
  end.

(** The effect run when [file] changes: the new [localStorage] and the new
    [resumableSession] state. *)
Definition session_load_effect (E : Environment) (file : option File)
    (localStorage : gmap string string) : gmap string string * option json :=
  match file with
  | None => (localStorage, None)
  | Some f =>
      match localStorage !! sessionKey f with
      | None => (localStorage, None)
      | Some savedSession =>
          if String.eqb savedSession EmptyString then (localStorage, None)
          else
            match try_load_session E savedSession with
            | Some parsed => (localStorage, Some parsed)
            | None => (delete (sessionKey f) localStorage, None)
            end
      end
  end.

(** *** Image normalization (App.tsx 186-230) *)

(** The conversion applied by a store into a [Uint8ClampedArray];
    [None] is [undefined], which is stored as 0. *)
Definition ToUint8Clamp (v : option Z) : Z :=
  match v with
  | None => 0
  | Some n => Z.max 0 (Z.min 255 n)
  end.

(** [array[k] = v] on a [Uint8ClampedArray]: dropped when [k] is out of
    range. *)
Definition typed_store (array : list Z) (k : nat) (v : option Z) : list Z :=
  <[k := ToUint8Clamp v]> array.

(** [ctx.createImageData(w, h)]: throws when a dimension is zero, otherwise
    a zeroed buffer of [|w| * |h| * 4] bytes. *)
Definition createImageData (E : Environment) (w h : Z) : js_error + list Z :=
  if (w =? 0) || (h =? 0) then inl (createImageData_error E)
  else inr (replicate (Z.to_nat (Z.abs w * Z.abs h * 4)) 0).

(** [for (let l = 0; l < img.data.length; l += 3)] with [k] running along;
    [fuel] bounds the number of iterations. *)
Fixpoint rgb_loop (fuel : nat) (src : list Z) (l k : nat) (dst : list Z)
  : list Z :=
  match fuel with
  | O => dst
  | S fuel' =>
      if (l <? length src)%nat then
        let dst := typed_store dst k (src !! l) in
        let dst := typed_store dst (k + 1) (src !! (l + 1)%nat) in
        let dst := typed_store dst (k + 2) (src !! (l + 2)%nat) in
        let dst := typed_store dst (k + 3) (Some 255) in
        rgb_loop fuel' src (l + 3) (k + 4) dst
      else dst
  end.

(** [for (let l = 0; l < img.data.length; l++)] of the fallback branch. *)
Fixpoint gray_loop (fuel : nat) (src : list Z) (l k : nat) (dst : list Z)
  : list Z :=
  match fuel with
  | O => dst
  | S fuel' =>
      if (l <? length src)%nat then
        let dst := typed_store dst k (src !! l) in
        let dst := typed_store dst (k + 1) (src !! l) in
        let dst := typed_store dst (k + 2) (src !! l) in
        let dst := typed_store dst (k + 3) (Some 255) in
        gray_loop fuel' src (l + 1) (k + 4) dst
      else dst
  end.

(** [target.set(source)]: a RangeError ([None]) when the source is longer
    than the target. *)
Definition typed_set (target source : list Z) : option (list Z) :=
  if (length source <=? length target)%nat then
    Some (((λ v, ToUint8Clamp (Some v)) <$> source) ++ drop (length source) target)
  else None.

(** The three branches that fill [imageData.data]. *)
Definition normalize_pixels (img : pdf_image) (imageData : list Z)
  : option (list Z) :=
  let len := Z.of_nat (length (img_data img)) in
  if len =? img_width img * img_height img * 3 then
    Some (rgb_loop (length (img_data img)) (img_data img) 0 0 imageData)
  else if len =? img_width img * img_height img * 4 then
    typed_set imageData (img_data img)
  else
    Some (gray_loop (length (img_data img)) (img_data img) 0 0 imageData).

(** The body of the [try] around one painted image: [inl] when something
    throws, [inr None] when [img] or [ctx] is missing, [inr (Some o)] when
    the object [o] is pushed. *)
Definition paint_image_try (E : Environment) (lookup : image_lookup)
    (has_context : bool) : js_error + option image :=
  match lookup with
  | LookupThrows err => inl err
  | LookupFalsy => inr None
  | LookupFound img =>
      if has_context then
        match createImageData E (img_width img) (img_height img) with
        | inl err => inl err
        | inr imageData =>
            match normalize_pixels img imageData with
            | None => inl (new_Error "offset is out of bounds")
            | Some rgba =>
                inr (Some {| mimeType := "image/png";
                             data := canvas_png_base64 E (img_width img)
                                       (img_height img) rgba |})
            end
        end
      else inr None
  end.

(** The state of the page loops: [chunkText], [chunkImages], [allImages]. *)
Record extraction : Type := {
  chunkText : string;
  chunkImages : list image;
  allImagesNow : list image
}.

(** One iteration of [for (let j = 0; j < fns.length; j++)]; the [catch]
    only logs. *)
Definition process_op (E : Environment) (st : extraction) (op : pdf_op)
  : extraction :=
  match op with
  | OtherOp => st
  | PaintImageXObject lookup has_context =>
      match paint_image_try E lookup has_context with
      | inr (Some imageDataObj) =>
          let allImages := allImagesNow st ++ [imageDataObj] in
          {| chunkText :=
               chunkText st +:+ String "010" "[IMAGE_"
               +:+ pretty (Z.of_nat (length allImages) - 1) +:+ "]"
               +:+ String "010" EmptyString;
             chunkImages := chunkImages st ++ [imageDataObj];
             allImagesNow := allImages |}
      | inr None => st
      | inl _ => st
      end
  end.

Definition lift {A} (r : js_error + A) : M A :=
  match r with
  | inl err => throw err
  | inr a => ret a
  end.

(** The body of [for (let pageNum = startPage; ...)] for one page. *)
Definition process_page (E : Environment) (st : extraction) (pageNum : Z)
  : M extraction :=
  let* page := lift (pdf_getPage E pageNum) in
  let st1 :=
    {| chunkText :=
         chunkText st +:+ String "010" (String "010" "--- PAGE ")
         +:+ pretty pageNum +:+ " ---" +:+ String "010" (String "010" EmptyString)
         +:+ pageText page;
       chunkImages := chunkImages st;
       allImagesNow := allImagesNow st |} in
  ret (foldl (process_op E) st1 (fnArray page)).

Fixpoint process_pages (E : Environment) (st : extraction) (pages : list Z)
  : M extraction :=
  match pages with
  | [] => ret st
  | pageNum :: rest =>
      let* st' := process_page E st pageNum in
      process_pages E st' rest
  end.

(** *** [handleConvert] (App.tsx 101-297) *)

(** [localStorage.setItem(key, JSON.stringify(data))] *)
Definition localStorage_setItem (E : Environment) (key : string)
    (data : session_data) : M unit :=
  λ w, (Returned tt,
        {| w_store := <[key := JSON_stringify E data]> (w_store w);
           w_history := w_history w;
           w_sent := w_sent w;
           w_random := w_random w |},
        [EvSetItem key data]).

(** [localStorage.removeItem(key)] *)
Definition localStorage_removeItem (key : string) : M unit :=
  λ w, (Returned tt,
        {| w_store := delete key (w_store w);
           w_history := w_history w;
           w_sent := w_sent w;
           w_random := w_random w |},
        [EvRemoveItem key]).

(** The fields of [resumableSession] that [handleConvert] reads. *)
Record resumable : Type := {
  resume_currentChunk : Z;
  resume_chatHistory : list Content;
  resume_allImages : option (list image)
}.

(** The body of [for (let i = resumeFromChunk; i < numChunks; i++)] for
    chunk [i]; it returns the image sequence as it stands afterwards. *)
Definition process_chunk (E : Environment) (key : string) (numPages i : Z)
    (allImages : list image) : M (list image) :=
  let startPage := i * CHUNK_SIZE + 1 in
  let endPage := Z.min ((i + 1) * CHUNK_SIZE) numPages in
  let* ex :=
    process_pages E
      {| chunkText := EmptyString; chunkImages := []; allImagesNow := allImages |}
      (seqZ startPage (endPage - startPage + 1)) in
  let* historyForSave := chat_getHistory in
  localStorage_setItem E key
    {| currentChunk := i;
       numPages := numPages;
       chatHistory := historyForSave;
       allImages := allImagesNow ex |} ;;;
  sendPdfChunkToChat E (chunkText ex) (chunkImages ex) startPage endPage ;;;
  let* historyAfterSuccess := chat_getHistory in
  localStorage_setItem E key
    {| currentChunk := i + 1;
       numPages := numPages;
       chatHistory := historyAfterSuccess;
       allImages := allImagesNow ex |} ;;;
  sleep THROTTLE_MS ;;;
  ret (allImagesNow ex).

(** The chunk loop with [left] iterations to go. *)
Fixpoint chunk_loop (E : Environment) (key : string) (numPages : Z)
    (left : nat) (i : Z) (allImages : list image) : M (list image) :=
  match left with
  | O => ret allImages
  | S left' =>
      let* allImages' := process_chunk E key numPages i allImages in
      chunk_loop E key numPages left' (i + 1) allImages'
  end.

(** [shouldResume] after the confirmation dialog. *)
Definition shouldResume (E : Environment) (resumableSession : option resumable)
    (isRetriableError forceNew : bool) : bool :=
  let shouldResume := bool_decide (is_Some resumableSession) && negb forceNew in
  if shouldResume && negb isRetriableError then
    if negb (window_confirm E) then false else shouldResume
  else shouldResume.

(** [file.name.replace(/\.pdf$/i, '')] *)
Fixpoint remove_pdf_suffix (name : string) : string :=
  match name with
  | EmptyString => EmptyString
  | String c rest =>
      if String.eqb (JsString.toLowerCase name) ".pdf" then EmptyString
      else String c (remove_pdf_suffix rest)
  end.

(** [await generateEpub(htmlContent, title)] (epubService.ts 70-157): the
    markup is parsed, the two [throw]s guard the folders, the files are
    added as [EpubService.generateEpub] has them, and [generateAsync]
    resolves with the archive of these files or rejects. *)
Definition generateEpub_promise (E : Environment) (htmlContent : json)
    (title : string) : M (list EpubService.zip_entry) :=
  let doc := DOMParser_parseFromString E htmlContent in
  if negb (jszip_folder E "OEBPS") then
    throw (new_Error "Could not create OEBPS folder.")
  else if negb (jszip_folder E "images") then
    throw (new_Error "Could not create images folder.")
  else
    let files := EpubService.generateEpub (innerHTML E) doc title in
    match jszip_generateAsync E files with
    | Some err => throw err
    | None => ret files
    end.

(** The [try] block of [handleConvert] for a selected file.  Progress and
    message setters are left out; it returns the archive given to
    [setEpubBlob]. *)
Definition handleConvert_try (E : Environment) (file : File)
    (resumableSession : option resumable) (isRetriableError forceNew : bool)
  : M (list EpubService.zip_entry) :=
  let key := sessionKey file in
  let* numPages := lift (pdf_numPages E) in
  let* start :=
    match resumableSession with
    | Some session =>
        if shouldResume E resumableSession isRetriableError forceNew then
          startEpubConversionChat (Some (resume_chatHistory session)) ;;;
          ret (resume_currentChunk session, default [] (resume_allImages session))
        else
          localStorage_removeItem key ;;;
          startEpubConversionChat None ;;;
          ret (0, [])
    | None =>
        localStorage_removeItem key ;;;
        startEpubConversionChat None ;;;
        ret (0, [])
    end in
  let resumeFromChunk := start.1 in
  let numChunks := Chunking.Math_ceil_div numPages CHUNK_SIZE in
  chunk_loop E key numPages (Z.to_nat (numChunks - resumeFromChunk))
    resumeFromChunk start.2 ;;;
  let* generatedHtml := finishEpubConversionChat E in
  let* epub := generateEpub_promise E generatedHtml
                 (remove_pdf_suffix (file_name file)) in
  localStorage_removeItem key ;;;
  ret epub.

End App.

(** ** Observations on traces, used to state the properties *)

Module Observe.
Import Json World.

(** The messages handed to [chat.sendMessage], one per attempt. *)
Definition sends (t : list event) : list SendMessageParameters :=
  omap (λ e, match e with EvSendMessage m => Some m | _ => None end) t.

(** The delays waited, in order. *)
Definition timeouts (t : list event) : list Z :=
  omap (λ e, match e with EvSetTimeout ms => Some ms | _ => None end) t.

(** The session records written by [localStorage.setItem], in order. *)
Definition snapshots (t : list event) : list session_data :=
  omap (λ e, match e with EvSetItem _ s => Some s | _ => None end) t.

(** The keys removed by [localStorage.removeItem], in order. *)
Definition removals (t : list event) : list string :=
  omap (λ e, match e with EvRemoveItem k => Some k | _ => None end) t.

(** The delays of [n] consecutive retries that start with [delay], when
    [r] calls of [Math.random] have been made before. *)
Fixpoint backoff (E : Environment) (r n : nat) (delay : Z) : list Z :=
  match n with
  | O => []
  | S n' =>
      delay :: backoff E (S r) n' (delay * 2 + random_source E r `mod` 1000)
  end.

(** Attempts of one message separated by the given delays. *)
Definition retry_trace (m : SendMessageParameters) (delays : list Z)
  : list event :=
  concat ((λ d, [EvSendMessage m; EvSetTimeout d]) <$> delays)
  ++ [EvSendMessage m].

(** The world after [sent] failed attempts and [random] jitter draws. *)
Definition after_attempts (w : world) (sent random : nat) : world :=
  {| w_store := w_store w;
     w_history := w_history w;
     w_sent := (w_sent w + sent)%nat;
     w_random := (w_random w + random)%nat |}.

(** The [k]-th call of the service fails with an error that the retry loop
    classifies as retriable (and not as a quota error). *)
Definition retriable_failure (E : Environment) (k : nat) : Prop :=
  ∃ err, service E k = Rejected err
         ∧ GeminiService.is_quota_error err = false
         ∧ GeminiService.isRetriableError err = true.

(** The [src] attributes of the [img] elements, in document order. *)
Definition srcs_of (n : EpubService.node) : list (option string) :=
  EpubService.src_of <$> EpubService.querySelectorAll_img n.

(** The [src] attribute of an image after the loop body. *)
Definition src_after (old new : option string) : option string :=
  match new with
  | Some v => Some v
  | None => old
  end.

(** The [src] attributes of the images below a list of siblings. *)
Definition srcs_of_list (cs : list EpubService.node) : list (option string) :=
  concat (srcs_of <$> cs).

(** The walk of [rewrite_images] over a list of siblings. *)
Fixpoint rewrite_children (cs : list EpubService.node)
    (st : EpubService.packing)
  : list EpubService.node * EpubService.packing :=
  match cs with
  | [] => ([], st)
  | c :: cs' =>
      let '(c1, st') := EpubService.rewrite_images c st in
      let '(cs1, st'') := rewrite_children cs' st' in
      (c1 :: cs1, st'')
  end.

(** The walk of [append_to_head] over a list of siblings. *)
Definition append_in_children (link : EpubService.node)
  : list EpubService.node → list EpubService.node * bool :=
  fix first (cs : list EpubService.node) : list EpubService.node * bool :=
    match cs with
    | [] => ([], false)
    | c :: cs' =>
        match EpubService.append_to_head link c with
        | (c1, true) => (c1 :: cs', true)
        | (c1, false) =>
            let '(cs1, found) := first cs' in (c :: cs1, found)
        end
    end.

(** The TOC links below a list of siblings. *)
Definition toc_links_of_list (seen : nat) (cs : list EpubService.node)
  : list EpubService.node :=
  concat (EpubService.select_toc_links seen <$> cs).

(** [src.split(',')[0]] and [src.split(',')[1]]. *)
Definition header_of (src : string) : string :=
  default EmptyString (JsString.split "," src !! 0%nat).

Definition payload_of (src : string) : option string :=
  JsString.split "," src !! 1%nat.

(** An image that the packager must leave alone: no [src], a [src] that is
    empty or does not start with [data:], no match of the mime pattern in
    the header, or no payload after the first comma. *)
Definition not_inline (src : option string) : Prop :=
  match src with
  | None => True
  | Some s =>
      s = EmptyString
      ∨ JsString.startsWith s "data:" = false
      ∨ JsString.match_colon_semicolon (header_of s) = None
      ∨ payload_of s = None
      ∨ payload_of s = Some EmptyString
  end.

(** The image files and manifest items produced for the inline images
    [(mimeType, base64Data)], numbered from [k]. *)
Fixpoint add_image_files (k : Z) (inline : list (string * string))
    (zip : list EpubService.zip_entry) : list EpubService.zip_entry :=
  match inline with
  | [] => zip
  | (mimeType, base64Data) :: rest =>
      add_image_files (k + 1) rest
        (EpubService.zip_file "OEBPS/images/"
           (EpubService.image_filename k mimeType) base64Data None true zip)
  end.

Fixpoint manifest_items (k : Z) (inline : list (string * string)) : list string :=
  match inline with
  | [] => []
  | (mimeType, _) :: rest =>
      EpubService.manifest_item k (EpubService.image_filename k mimeType) mimeType
      :: manifest_items (k + 1) rest
  end.

(** What a navigation entry shows of a TOC link: its text and its [href]. *)
Definition link_view (a : EpubService.node) : string * string :=
  (EpubService.textContent a, EpubService.link_href a).

(** The files of the archive that lie in the images folder. *)
Definition image_files (zip : list EpubService.zip_entry)
  : list EpubService.zip_entry :=
  filter (λ e, JsString.startsWith (EpubService.entry_name e) "OEBPS/images/"
               && negb (EpubService.entry_dir e) = true) zip.

(** A value that fits one channel of a pixel. *)
Definition is_byte (v : Z) : Prop := 0 ≤ v ≤ 255.

(** The number of pixels of the canvas made for an image. *)
Definition pixel_count (img : pdf_image) : nat :=
  Z.to_nat (Z.abs (img_width img) * Z.abs (img_height img)).

(** The text handed to [JSON.parse] by [finishEpubConversionChat]. *)
Definition cleaned (text : string) : string :=
  JsString.strip_closing_fence
    (JsString.strip_opening_fence (JsString.trim text)).

(** [result.htmlContent] for the response, [Undefined] when the response has
    no text, the text is not JSON, or the value has no such property. *)
Definition htmlContent_of (E : Environment) (response : GenerateContentResponse)
  : js_value :=
  match response_text response with
  | None => Undefined
  | Some text =>
      match JSON_parse E (cleaned text) with
      | SyntaxError _ => Undefined
      | Parsed result => default Undefined (get_property result "htmlContent")
      end
  end.

(** The shape the spec asks of the response: an [htmlContent] field that
    is a string. *)
Definition is_string_field (v : js_value) : bool :=
  match v with
  | Val (JStr _) => true
  | _ => false
  end.

End Observe.

(** ** Concrete inputs, used by the examples *)

Module Samples.
Import Json World.

Definition q (s : string) : string := EpubService.q s.

(** An [ApiError] of the SDK for an overloaded service. *)
Definition error_503 : js_error :=
  {| err_is_object := true;
     err_json := "{" +:+ q "name" +:+ ":" +:+ q "ApiError" +:+ ","
                 +:+ q "status" +:+ ":503}";
     err_string := "ApiError: The model is overloaded.";
     err_is_Error := true;
     err_message := "The model is overloaded." |}.

(** A thrown string that reports the exhausted daily quota. *)
Definition error_quota : js_error :=
  {| err_is_object := false;
     err_json := q "429 Quota exceeded: daily limit reached";
     err_string := "429 Quota exceeded: daily limit reached";
     err_is_Error := false;
     err_message := EmptyString |}.

Definition html_number_text : string := "{" +:+ q "htmlContent" +:+ ":1}".

(** A parser that knows the texts used below. *)
Definition parse_samples (s : string) : parse_result :=
  if String.eqb s html_number_text then Parsed (JObj [("htmlContent", JNum 1)])
  else if String.eqb s "{}" then Parsed (JObj [])
  else if String.eqb s "session@0"
  then Parsed (JObj [("currentChunk", JNum 0); ("numPages", JNum 12);
                     ("chatHistory", JArr []); ("allImages", JArr [])])
  else SyntaxError "Unexpected token".

Definition env_with (svc : nat → attempt_outcome) : Environment :=
  {| service := svc;
     random_source := λ k, Z.of_nat k * 377 + 123;
     JSON_parse := parse_samples;
     JSON_stringify := λ s, "session@" +:+ pretty (currentChunk s);
     FINAL_PROMPT_INSTRUCTIONS := "**Instructions:**";
     undefined_trim_message := "Cannot read properties of undefined";
     pdf_numPages := inr 12;
     pdf_getPage := λ n, inr {| pageText := "text of page " +:+ pretty n;
                                fnArray := [] |};
     canvas_png_base64 := λ _ _ _, "iVBORw0KGgo=";
     createImageData_error := new_Error "The source width is 0.";
     window_confirm := true;
     DOMParser_parseFromString := λ _,
       EpubService.Element "html" []
         [EpubService.Element "head" [] []; EpubService.Element "body" [] []];
     innerHTML := λ _, "<head></head><body></body>";
     jszip_folder := λ _, true;
     jszip_generateAsync := λ _, None |}.

Definition env_always_503 : Environment := env_with (λ _, Rejected error_503).

Definition env_quota : Environment := env_with (λ _, Rejected error_quota).

Definition env_html_number : Environment :=
  env_with (λ _, Replied {| response_text := Some html_number_text |}).

Definition env_html_missing : Environment :=
  env_with (λ _, Replied {| response_text := Some "{}" |}).

Definition env_accepting : Environment :=
  env_with (λ _, Replied {| response_text := Some EmptyString |}).


Definition toc_link (href text : string) : EpubService.node :=
  EpubService.Element "a" [("href", href)] [EpubService.TextNode text].

(** A generated document with three TOC links and exactly two images, both
    inline PNG images. *)
Definition sample_book : EpubService.node :=
  EpubService.Element "html" []
    [EpubService.Element "head" []
       [EpubService.Element "title" [] [EpubService.TextNode "A Book"]];
     EpubService.Element "body" []
       [EpubService.Element "nav" []
          [EpubService.Element "ol" []
             [EpubService.Element "li" [] [toc_link "#one" "One"];
              EpubService.Element "li" [] [toc_link "#two" "Two"];
              EpubService.Element "li" [] [toc_link "#three" "Three"]]];
        EpubService.Element "h1" [("id", "one")] [EpubService.TextNode "One"];
        EpubService.Element "img" [("src", "data:image/png;base64,AAAA")] [];
        EpubService.Element "h1" [("id", "two")] [EpubService.TextNode "Two"];
        EpubService.Element "img" [("src", "data:image/png;base64,BBBB")] [];
        EpubService.Element "h1" [("id", "three")]
          [EpubService.TextNode "Three"]]].

Definition world0 : world :=
  {| w_store := ∅; w_history := []; w_sent := 0; w_random := 0 |}.

Definition hello : SendMessageParameters :=
  {| message := [TextPart "hello"]; structured_output := false |}.

End Samples.

(** ** Predicates on texts, used to state the properties *)

Module Text.

(** The decimal digits. *)
Definition is_digit (c : ascii) : bool :=
  let n := N_of_ascii c in ((48 <=? n) && (n <=? 57))%N.

Fixpoint all_digits (s : string) : bool :=
  match s with
  | EmptyString => true
  | String c s' => is_digit c && all_digits s'
  end.

Fixpoint has_char (c : ascii) (s : string) : bool :=
  match s with
  | EmptyString => false
  | String c' s' => Ascii.eqb c' c || has_char c s'
  end.

(** Only white space, as [\s] and [trim] see it. *)
Fixpoint all_space (s : string) : bool :=
  match s with
  | EmptyString => true
  | String c s' => JsString.is_space c && all_space s'
  end.



(** The placeholder that the extraction writes into the chunk text for the
    image at index [k] of the image sequence: ["\n[IMAGE_k]\n"]. *)
Definition image_placeholder (k : nat) : string :=
  String "010" "[IMAGE_" +:+ pretty (Z.of_nat k) +:+ "]"
  +:+ String "010" EmptyString.

End Text.

(** ** The elapsed-time display ([formatElapsedTime], App.tsx 25-30) *)

Module Display.

(** [s.padStart(2, '0')] *)
Definition padStart2 (s : string) : string :=
  match s with
  | EmptyString => "00"
  | String c EmptyString => String "0" s
  | _ => s
  end.

(** [formatElapsedTime(ms)] for the whole number of milliseconds
    [Date.now() - startTime]; [Math.floor] of a quotient is [Z.div] and [%]
    is the remainder with the sign of the dividend, [Z.rem]. *)
Definition formatElapsedTime (ms : Z) : string :=
  let totalSeconds := ms / 1000 in
  let minutes := padStart2 (pretty (totalSeconds / 60)) in
  let seconds := padStart2 (pretty (Z.rem totalSeconds 60)) in
  minutes +:+ ":" +:+ seconds.

End Display.

(** ** The handlers around the conversion (App.tsx 92-105, 276-297) *)

Module Handlers.
Import Json World GeminiService App.
Local Open Scope js_scope.

(** What the handler leaves in the component state: the error banner, the
    flag behind the Retry button, and the finished conversion. *)
Record ui_state : Type := {
  ui_error : string;
  ui_isRetriableError : bool;
  ui_epub : option (list EpubService.zip_entry)
}.

(** The [catch] block of [handleConvert] for a thrown value other than
    [null] and [undefined]: the text given to [setError] and whether
    [setIsRetriableError(true)] is called.  [err.message || 'Unknown error']
    takes the fallback for a missing and for an empty message alike. *)
Definition error_banner (err : js_error) : string * bool :=
  let errorString := errorString err in
  if JsString.includes errorString "daily limit"
     || JsString.includes errorString "quota exceeded" then
    ("Daily API quota exceeded. Your progress has been saved. Please try resuming the conversion again tomorrow.",
     false)
  else if JsString.includes errorString "429"
          || JsString.includes errorString "resource_exhausted" then
    ("API Rate Limit Exceeded. Your progress has been saved. Please wait a few minutes before resuming the conversion.",
     false)
  else if JsString.includes errorString "500"
          || JsString.includes errorString "503"
          || JsString.includes errorString "unknown"
          || JsString.includes errorString "rpc failed" then
    ("A temporary network or server error occurred. Your progress has been saved. Please try resuming the conversion in a moment.",
     true)
  else
    ("An error occurred: "
     +:+ (if String.eqb (err_message err) EmptyString then "Unknown error"
          else err_message err),
     false).

(** [handleConvert(forceNew)], called in a render whose state is [ui]:
    without a file only the error is set; with one, the [try] block runs and
    the [catch] turns a thrown value into the banner.  Nothing is ever
    thrown to the caller. *)
Definition handleConvert (E : Environment) (file : option File)
    (resumableSession : option resumable) (ui : ui_state) (forceNew : bool)
    (w : world) : ui_state * world * list event :=
  match file with
  | None =>
      ({| ui_error := "Please select a PDF file first.";
          ui_isRetriableError := ui_isRetriableError ui;
          ui_epub := ui_epub ui |}, w, [])
  | Some f =>
      match handleConvert_try E f resumableSession (ui_isRetriableError ui)
              forceNew w with
      | (Returned epub, w', t) =>
          ({| ui_error := EmptyString; ui_isRetriableError := false;
              ui_epub := Some epub |}, w', t)
      | (Thrown err, w', t) =>
          ({| ui_error := (error_banner err).1;
              ui_isRetriableError := (error_banner err).2;
              ui_epub := None |}, w', t)
      end
  end.

(** [handleStartOver()]: the closure of [handleConvert] it calls still sees
    the [resumableSession] and [isRetriableError] of the current render. *)
Definition handleStartOver (E : Environment) (file : option File)
    (resumableSession : option resumable) (ui : ui_state)
    (w : world) : option ui_state * world * list event :=
  match file with
  | None => (None, w, [])
  | Some f =>
      match localStorage_removeItem (sessionKey f) w with
      | (_, w1, t1) =>
          match handleConvert E file resumableSession ui true w1 with
          | (ui', w2, t2) => (Some ui', w2, t1 ++ t2)
          end
      end
  end.

End Handlers.

(** ** The archive as a list, used to state the properties *)

Module Archive.
Import EpubService.

(** The entry of [jszip.file('mimetype', ..., { compression: 'STORE' })]. *)
Definition mimetype_entry : zip_entry :=
  {| entry_name := "mimetype"; entry_data := "application/epub+zip";
     entry_dir := false; entry_compression := Some "STORE";
     entry_base64 := false |}.

(** A directory entry. *)
Definition dir_entry (name : string) : zip_entry :=
  {| entry_name := name; entry_data := EmptyString; entry_dir := true;
     entry_compression := Some "STORE"; entry_base64 := false |}.

(** A text file added without options. *)
Definition text_entry (name data : string) : zip_entry :=
  {| entry_name := name; entry_data := data; entry_dir := false;
     entry_compression := None; entry_base64 := false |}.

(** The image file of the inline image number [k]. *)
Definition image_entry (k : Z) (mimeType base64Data : string) : zip_entry :=
  {| entry_name := "OEBPS/images/" +:+ image_filename k mimeType;
     entry_data := base64Data; entry_dir := false;
     entry_compression := None; entry_base64 := true |}.

(** The image files of the inline images, numbered from [k]. *)
Fixpoint image_entries (k : Z) (inline : list (string * string))
  : list zip_entry :=
  match inline with
  | [] => []
  | (mimeType, base64Data) :: rest =>
      image_entry k mimeType base64Data :: image_entries (k + 1) rest
  end.

End Archive.

(** ** The invariant of the extraction loops *)

Module Alignment.
Import App.

(** Since the extraction state [st0], the image sequence and the images of
    the chunk have grown by the same images, and each of them has its
    placeholder in the text. *)
Definition aligned (st0 st : extraction) : Prop :=
  ∃ new,
    allImagesNow st = allImagesNow st0 ++ new
    ∧ chunkImages st = chunkImages st0 ++ new
    ∧ ∀ k, (length (allImagesNow st0) ≤ k < length (allImagesNow st))%nat →
           JsString.includes (chunkText st) (Text.image_placeholder k) = true.

End Alignment.

(** ** More concrete inputs, used by the examples *)

Module MoreSamples.
Import Json World.

(** A document of two pages that each paint one 1x1 RGB image. *)
Definition env_painting : Environment :=
  {| service := λ _, Replied {| response_text := Some EmptyString |};
     random_source := λ k, Z.of_nat k * 377 + 123;
     JSON_parse := Samples.parse_samples;
     JSON_stringify := λ s, "session@" +:+ pretty (currentChunk s);
     FINAL_PROMPT_INSTRUCTIONS := "**Instructions:**";
     undefined_trim_message := "Cannot read properties of undefined";
     pdf_numPages := inr 2;
     pdf_getPage := λ n,
       inr {| pageText := "text of page " +:+ pretty n;
              fnArray :=
                [OtherOp;
                 PaintImageXObject
                   (LookupFound {| img_width := 1; img_height := 1;
                                   img_data := [10; 20; 30] |}) true] |};
     canvas_png_base64 := λ _ _ _, "iVBORw0KGgo=";
     createImageData_error := new_Error "The source width is 0.";
     window_confirm := true;
     DOMParser_parseFromString := λ _,
       EpubService.Element "html" []
         [EpubService.Element "head" [] []; EpubService.Element "body" [] []];
     innerHTML := λ _, "<head></head><body></body>";
     jszip_folder := λ _, true;
     jszip_generateAsync := λ _, None |}.

(** An [ApiError] as the client library throws it when the daily quota is
    exhausted: the message reports the quota, and the enumerable properties,
    which are all that [JSON.stringify] shows, are [name] and [status]. *)
Definition error_quota_object : js_error :=
  {| err_is_object := true;
     err_json := "{" +:+ Samples.q "name" +:+ ":" +:+ Samples.q "ApiError" +:+ ","
                 +:+ Samples.q "status" +:+ ":429}";
     err_string := "ApiError: You exceeded your current quota: daily limit reached.";
     err_is_Error := true;
     err_message := "You exceeded your current quota: daily limit reached." |}.

Definition env_quota_object : Environment :=
  Samples.env_with (λ _, Rejected error_quota_object).


(** An image kept from an earlier run. *)
Definition earlier_image : image :=
  {| mimeType := "image/png"; data := "AAAA" |}.

End MoreSamples.

(** * Part II: properties *)

(** ** Chunking *)

Lemma numChunks_bounds P :
  (Chunking.numChunks P - 1) * Chunking.CHUNK_SIZE < P ≤ Chunking.numChunks P * Chunking.CHUNK_SIZE.
Proof.
  unfold Chunking.numChunks, Chunking.Math_ceil_div, Chunking.CHUNK_SIZE.
  pose proof (Z.div_mod (- P) 5 ltac:(lia)).
  pose proof (Z.mod_pos_bound (- P) 5 ltac:(lia)). lia.
Qed.

Lemma numChunks_pos P : 1 ≤ P → 1 ≤ Chunking.numChunks P.
Proof. pose proof (numChunks_bounds P). unfold Chunking.CHUNK_SIZE in *. lia. Qed.

Lemma chunk_pages_prefix P (n : nat) :
  Z.of_nat n ≤ Chunking.numChunks P →
  concat (Chunking.chunk_pages P <$> seqZ 0 (Z.of_nat n))
  = seqZ 1 (Z.min (Z.of_nat n * Chunking.CHUNK_SIZE) P).
Proof.
  pose proof (numChunks_bounds P) as HB. unfold Chunking.CHUNK_SIZE in *.
  induction n as [|n IH]; intros Hn.
  - simpl. rewrite seqZ_nil; [reflexivity | lia].
  - rewrite seqZ_S, fmap_app, concat_app, IH by lia. simpl.
    rewrite app_nil_r. unfold Chunking.chunk_pages, Chunking.startPage, Chunking.endPage, Chunking.CHUNK_SIZE.
    rewrite Z.add_0_l.
    replace (Z.min (Z.of_nat n * 5) P) with (Z.of_nat n * 5) by lia.
    replace (Z.min (Z.of_nat (S n) * 5) P)
      with (Z.of_nat n * 5 + (Z.min ((Z.of_nat n + 1) * 5) P - (Z.of_nat n * 5 + 1) + 1))
      by lia.
    rewrite (seqZ_app 1) by lia.
    do 2 f_equal; lia.
Qed.

(** C2. For every page count [P >= 1] (chunk size 5): the number of chunks
    is the ceiling of [P/5]; chunk [i] covers the pages from [5i+1] to
    [min(5(i+1), P)]; every chunk is non-empty; consecutive chunks are
    contiguous; and the chunks, taken in order, enumerate exactly the pages
    [1..P], each page once. *)
Theorem chunks_partition_pages (P : Z) :
  1 ≤ P →
  let n := Chunking.numChunks P in
  (n - 1) * 5 < P ≤ n * 5
  ∧ (∀ i, 0 ≤ i < n →
       Chunking.chunk_pages P i
       = seqZ (i * 5 + 1) (Z.min ((i + 1) * 5) P - (i * 5 + 1) + 1)
       ∧ i * 5 + 1 ≤ Z.min ((i + 1) * 5) P
       ∧ Chunking.chunk_pages P i ≠ [])
  ∧ (∀ i, 0 ≤ i → i + 1 < n →
       Chunking.startPage (i + 1) = Chunking.endPage P i + 1)
  ∧ Chunking.startPage 0 = 1
  ∧ Chunking.endPage P (n - 1) = P
  ∧ Chunking.all_pages P = seqZ 1 P
  ∧ NoDup (Chunking.all_pages P)
  ∧ (∀ p, p ∈ Chunking.all_pages P ↔ 1 ≤ p ≤ P).
Proof.
  intros HP n.
  pose proof (numChunks_bounds P) as HB.
  pose proof (numChunks_pos P HP) as Hn.
  fold n in HB, Hn. unfold Chunking.CHUNK_SIZE in HB.
  assert (Hall : Chunking.all_pages P = seqZ 1 P).
  { unfold Chunking.all_pages, Chunking.chunk_indices.
    fold n. rewrite Z.sub_0_r.
    rewrite <- (Z2Nat.id n) by lia.
    rewrite chunk_pages_prefix by (fold n; lia).
    f_equal. unfold Chunking.CHUNK_SIZE. lia. }
  split; [exact HB|].
  split.
  { intros i Hi. split; [reflexivity|].
    assert (i * 5 + 1 ≤ Z.min ((i + 1) * 5) P) as Hle by lia.
    split; [exact Hle|].
    unfold Chunking.chunk_pages, Chunking.startPage, Chunking.endPage,
      Chunking.CHUNK_SIZE.
    rewrite seqZ_cons by lia. discriminate. }
  split.
  { intros i Hi0 Hi.
    unfold Chunking.startPage, Chunking.endPage, Chunking.CHUNK_SIZE. lia. }
  split; [reflexivity|].
  split.
  { unfold Chunking.endPage, Chunking.CHUNK_SIZE. lia. }
  split; [exact Hall|].
  rewrite Hall. split; [apply NoDup_seqZ|].
  intros p. rewrite elem_of_seqZ. lia.
Qed.

Lemma chunks_partition_pages_witness :
  1 ≤ 12 ∧ Chunking.numChunks 12 = 3
  ∧ Chunking.all_pages 12 = seqZ 1 12.
Proof.
  split; [lia|]. split; [reflexivity|].
  exact (proj1 (proj2 (proj2 (proj2 (proj2 (proj2
           (chunks_partition_pages 12 ltac:(lia)))))))).
Defined.

(** ** The retrying send *)

Section Retry.
Import Json World GeminiService Observe.
Variable E : Environment.
Variable m : SendMessageParameters.

Lemma sends_app t1 t2 : sends (t1 ++ t2) = sends t1 ++ sends t2.
Proof. apply omap_app. Qed.

Lemma timeouts_app t1 t2 : timeouts (t1 ++ t2) = timeouts t1 ++ timeouts t2.
Proof. apply omap_app. Qed.

Lemma snapshots_app t1 t2 : snapshots (t1 ++ t2) = snapshots t1 ++ snapshots t2.
Proof. apply omap_app. Qed.

Lemma removals_app t1 t2 : removals (t1 ++ t2) = removals t1 ++ removals t2.
Proof. apply omap_app. Qed.

Lemma sends_retry_trace ds :
  sends (retry_trace m ds) = replicate (S (length ds)) m.
Proof.
  unfold retry_trace. rewrite sends_app, replicate_S_end. f_equal.
  induction ds as [|d ds IH]; [reflexivity|].
  rewrite fmap_cons, concat_cons, sends_app, IH. reflexivity.
Qed.

Lemma timeouts_retry_trace ds : timeouts (retry_trace m ds) = ds.
Proof.
  unfold retry_trace. rewrite timeouts_app, app_nil_r.
  induction ds as [|d ds IH]; [reflexivity|].
  rewrite fmap_cons, concat_cons, timeouts_app, IH. reflexivity.
Qed.

Lemma snapshots_retry_trace ds : snapshots (retry_trace m ds) = [].
Proof.
  unfold retry_trace. rewrite snapshots_app, app_nil_r.
  induction ds as [|d ds IH]; [reflexivity|].
  rewrite fmap_cons, concat_cons, snapshots_app, IH. reflexivity.
Qed.

Lemma removals_retry_trace ds : removals (retry_trace m ds) = [].
Proof.
  unfold retry_trace. rewrite removals_app, app_nil_r.
  induction ds as [|d ds IH]; [reflexivity|].
  rewrite fmap_cons, concat_cons, removals_app, IH. reflexivity.
Qed.

Lemma length_backoff r n d : length (backoff E r n d) = n.
Proof. revert r d. induction n as [|n IH]; intros; simpl; [|rewrite IH]; reflexivity. Qed.

(** Consecutive delays: doubling plus a jitter below 1000. *)
Lemma backoff_step n : ∀ r d k x y,
  backoff E r n d !! k = Some x →
  backoff E r n d !! S k = Some y →
  y = x * 2 + random_source E (r + k) `mod` 1000.
Proof.
  induction n as [|n IH]; intros r d k x y Hx Hy; [discriminate|].
  destruct k as [|k]; simpl in *.
  - destruct n; simpl in *; [discriminate|].
    injection Hx as <-. injection Hy as <-. now rewrite Nat.add_0_r.
  - rewrite (IH _ _ _ _ _ Hx Hy). do 3 f_equal. lia.
Qed.

(** The delays never fall below the first one. *)
Lemma backoff_lower_bound n : ∀ r d k x,
  0 < d → backoff E r n d !! k = Some x → d ≤ x.
Proof.
  induction n as [|n IH]; intros r d k x Hd Hx; [discriminate|].
  destruct k as [|k]; simpl in Hx.
  - injection Hx as <-. lia.
  - pose proof (Z.mod_pos_bound (random_source E r) 1000 ltac:(lia)).
    apply IH in Hx; lia.
Qed.

Lemma retry_loop_exhausts : ∀ left attempt delay w,
  attempt = MAX_RETRIES - Z.of_nat (S left) →
  (∀ k, (k ≤ left)%nat → retriable_failure E (w_sent w + k)%nat) →
  ∃ last,
    service E (w_sent w + left) = Rejected last
    ∧ retry_loop E m (S left) attempt delay w
      = (Thrown last, after_attempts w (S left) left,
         retry_trace m (backoff E (w_random w) left delay)).
Proof.
  induction left as [|left IH]; intros attempt delay w Hatt Hfail.
  - destruct (Hfail 0%nat ltac:(lia)) as (err & Hs & Hq & Hr).
    rewrite Nat.add_0_r in *. exists err. split; [exact Hs|].
    subst attempt. simpl. unfold try_catch, chat_sendMessage.
    rewrite Hs, Hq, Hr. simpl. unfold after_attempts.
    repeat f_equal; lia.
  - destruct (Hfail 0%nat ltac:(lia)) as (err & Hs & Hq & Hr).
    rewrite Nat.add_0_r in Hs.
    set (w1 := {| w_store := w_store w; w_history := w_history w;
                  w_sent := S (w_sent w); w_random := S (w_random w) |}).
    destruct (IH (attempt + 1)
                (delay * 2 + random_source E (w_random w) `mod` 1000) w1)
      as (last & Hlast & Hrun).
    { subst attempt. unfold MAX_RETRIES. lia. }
    { intros k Hk. simpl.
      replace (S (w_sent w + k)) with (w_sent w + S k)%nat by lia.
      apply Hfail. lia. }
    exists last. split.
    { simpl in Hlast. now replace (w_sent w + S left)%nat
        with (S (w_sent w + left)) by lia. }
    change (retry_loop E m (S (S left)) attempt delay w)
      with (try_catch (chat_sendMessage E m) (λ err,
              if is_quota_error err then throw err
              else if isRetriableError err && (attempt <? MAX_RETRIES - 1) then
                bind (sleep delay) (λ _,
                  bind (random_below_1000 E) (λ jitter,
                    retry_loop E m (S left) (attempt + 1) (delay * 2 + jitter)))
              else throw err) w).
    unfold try_catch, chat_sendMessage. rewrite Hs, Hq, Hr.
    replace (attempt <? MAX_RETRIES - 1) with true
      by (symmetry; apply Z.ltb_lt; subst attempt; unfold MAX_RETRIES; lia).
    cbn [andb]. unfold bind, sleep, emit, random_below_1000.
    cbn [w_store w_history w_sent w_random].
    fold w1. rewrite Hrun. unfold after_attempts, w1. simpl.
    repeat f_equal; lia.
Qed.

(** Whatever the service does, the loop makes at most [left] attempts. *)
Lemma retry_loop_attempts_bounded : ∀ left attempt delay w,
  (length (sends (retry_loop E m left attempt delay w).2) ≤ left)%nat.
Proof.
  induction left as [|left IH]; intros attempt delay w; [simpl; lia|].
  change (retry_loop E m (S left) attempt delay w)
    with (try_catch (chat_sendMessage E m) (λ err,
            if is_quota_error err then throw err
            else if isRetriableError err && (attempt <? MAX_RETRIES - 1) then
              bind (sleep delay) (λ _,
                bind (random_below_1000 E) (λ jitter,
                  retry_loop E m left (attempt + 1) (delay * 2 + jitter)))
            else throw err) w).
  unfold try_catch, chat_sendMessage.
  destruct (service E (w_sent w)) as [r|err]; [simpl; lia|].
  destruct (is_quota_error err); [simpl; lia|].
  destruct (isRetriableError err && (attempt <? MAX_RETRIES - 1)); [|simpl; lia].
  unfold bind, sleep, emit, random_below_1000.
  cbn [w_store w_history w_sent w_random].
  match goal with |- context [retry_loop E m left ?a ?d ?w'] =>
    specialize (IH a d w'); destruct (retry_loop E m left a d w') as [[r1 w2] t2]
  end.
  simpl in *. lia.
Qed.

End Retry.

(** C4. When every attempt fails with an error classified as retriable:
    at most 7 attempts are made (in fact for any behaviour of the service),
    here exactly 7; the waits are 6 delays starting at 3000 ms, each next one
    being [previous * 2 + jitter] with [0 <= jitter < 1000], hence at least
    twice the previous and never smaller; and the error thrown to the caller
    is the one of the 7th attempt. *)
Theorem retry_backoff_until_exhausted (E : World.Environment)
    (m : World.SendMessageParameters) (w : World.world) :
  (∀ k, (k < 7)%nat → Observe.retriable_failure E (World.w_sent w + k)%nat) →
  (∀ E' w', (length (Observe.sends
               (GeminiService.sendMessageWithRetry E' m w').2) ≤ 7)%nat)
  ∧ ∃ last w1 t,
      GeminiService.sendMessageWithRetry E m w = (World.Thrown last, w1, t)
      ∧ World.service E (World.w_sent w + 6) = World.Rejected last
      ∧ Observe.sends t = replicate 7 m
      ∧ World.w_sent w1 = (World.w_sent w + 7)%nat
      ∧ length (Observe.timeouts t) = 6%nat
      ∧ Observe.timeouts t !! 0%nat = Some 3000
      ∧ (∀ k x y, Observe.timeouts t !! k = Some x →
                  Observe.timeouts t !! S k = Some y →
                  ∃ jitter, 0 ≤ jitter < 1000 ∧ y = x * 2 + jitter
                            ∧ 2 * x ≤ y ∧ x ≤ y)
      ∧ t = Observe.retry_trace m (Observe.timeouts t).
Proof.
  intros Hfail. split.
  { intros E' w'. apply retry_loop_attempts_bounded. }
  destruct (retry_loop_exhausts E m 6 0 GeminiService.INITIAL_DELAY_MS w
              eq_refl) as (last & Hlast & Hrun).
  { intros k Hk. apply Hfail. lia. }
  exists last, (Observe.after_attempts w 7 6),
    (Observe.retry_trace m
       (Observe.backoff E (World.w_random w) 6 GeminiService.INITIAL_DELAY_MS)).
  unfold GeminiService.sendMessageWithRetry.
  change (Z.to_nat GeminiService.MAX_RETRIES) with 7%nat.
  rewrite timeouts_retry_trace, sends_retry_trace, length_backoff.
  split; [exact Hrun|]. split; [exact Hlast|].
  split; [reflexivity|]. split; [reflexivity|]. split; [reflexivity|].
  split; [reflexivity|]. split; [|reflexivity].
  intros k x y Hx Hy.
  assert (3000 ≤ x) as Hpos.
  { apply (backoff_lower_bound E 6 (World.w_random w) 3000 k x); [lia|exact Hx]. }
  exists (World.random_source E (World.w_random w + k) `mod` 1000).
  pose proof (Z.mod_pos_bound (World.random_source E (World.w_random w + k))
                1000 ltac:(lia)) as Hj.
  rewrite (backoff_step E _ _ _ _ _ _ Hx Hy). lia.
Qed.

Lemma retry_backoff_until_exhausted_witness :
  ∃ t, (GeminiService.sendMessageWithRetry Samples.env_always_503
          Samples.hello Samples.world0).2 = t
       ∧ Observe.sends t = replicate 7 Samples.hello
       ∧ Observe.timeouts t !! 0%nat = Some 3000.
Proof.
  destruct (retry_backoff_until_exhausted Samples.env_always_503
              Samples.hello Samples.world0)
    as [_ (last & w1 & t & Hrun & _ & Hsends & _ & _ & Hfirst & _)].
  { intros k _. exists Samples.error_503.
    split; [reflexivity|]. split; vm_compute; reflexivity. }
  exists t. rewrite Hrun. split; [reflexivity|]. split; assumption.
Defined.

(** ** Text classification *)

Section Strings.
Import JsString.

Lemma startsWith_app p s : startsWith (p +:+ s) p = true.
Proof.
  induction p as [|c p IH]; simpl; [reflexivity|].
  now rewrite Ascii.eqb_refl.
Qed.

Lemma startsWith_inv p : ∀ s, startsWith s p = true → ∃ b, s = p +:+ b.
Proof.
  induction p as [|c p IH]; intros s H; simpl in *.
  - now exists s.
  - destruct s as [|c' s]; [discriminate|].
    destruct (Ascii.eqb_spec c c') as [->|]; [|discriminate].
    destruct (IH _ H) as [b ->]. now exists b.
Qed.

Lemma includes_intro n a : ∀ b, includes (a +:+ n +:+ b) n = true.
Proof.
  induction a as [|c a IH]; intros b.
  - change (EmptyString +:+ n +:+ b) with (n +:+ b).
    destruct (n +:+ b) eqn:Hnb; simpl; rewrite <- ?Hnb;
      now rewrite startsWith_app.
  - simpl. rewrite IH. apply orb_true_r.
Qed.

Lemma includes_inv n : ∀ s, includes s n = true → ∃ a b, s = a +:+ n +:+ b.
Proof.
  induction s as [|c s IH]; intros H.
  - simpl in H. rewrite orb_false_r in H.
    destruct (startsWith_inv _ _ H) as [b ->]. now exists EmptyString, b.
  - simpl in H. apply orb_true_iff in H as [H|H].
    + destruct (startsWith_inv n (String c s) H) as [b ->].
      now exists EmptyString, b.
    + destruct (IH H) as (a & b & ->). now exists (String c a), b.
Qed.

Lemma toLowerCase_app a b :
  toLowerCase (a +:+ b) = toLowerCase a +:+ toLowerCase b.
Proof. induction a as [|c a IH]; simpl; [reflexivity|now rewrite IH]. Qed.

(** Lower-casing the haystack keeps every occurrence of a lower-case needle. *)
Lemma includes_toLowerCase s n :
  toLowerCase n = n → includes s n = true → includes (toLowerCase s) n = true.
Proof.
  intros Hn H. destruct (includes_inv _ _ H) as (a & b & ->).
  rewrite !toLowerCase_app, Hn. apply includes_intro.
Qed.

End Strings.

(** The quota check where it fires: an error whose text, as the check
    reads it ([JSON.stringify(err)] for an object, [String(err)] otherwise),
    contains 'daily limit' or 'quota exceeded' is classified as a quota
    error, and the retrying send makes exactly one attempt for it: the same
    error is thrown at once, with no wait and no jitter draw, at whatever
    attempt of the loop it occurs. *)
Theorem quota_error_never_retried (E : World.Environment)
    (m : World.SendMessageParameters) (w : World.world) (err : World.js_error) :
  World.service E (World.w_sent w) = World.Rejected err →
  JsString.includes (GeminiService.error_text err) "daily limit" = true
  ∨ JsString.includes (GeminiService.error_text err) "quota exceeded" = true →
  GeminiService.is_quota_error err = true
  ∧ GeminiService.sendMessageWithRetry E m w
    = (World.Thrown err, Observe.after_attempts w 1 0, [World.EvSendMessage m])
  ∧ ∀ left attempt delay,
      GeminiService.retry_loop E m (S left) attempt delay w
      = (World.Thrown err, Observe.after_attempts w 1 0, [World.EvSendMessage m]).
Proof.
  intros Hs Htext.
  assert (Hq : GeminiService.is_quota_error err = true).
  { unfold GeminiService.is_quota_error, GeminiService.errorString.
    apply orb_true_iff.
    destruct Htext as [H|H]; [left|right];
      (apply includes_toLowerCase; [reflexivity|exact H]). }
  assert (Hloop : ∀ left attempt delay,
      GeminiService.retry_loop E m (S left) attempt delay w
      = (World.Thrown err, Observe.after_attempts w 1 0, [World.EvSendMessage m])).
  { intros left attempt delay. simpl.
    unfold World.try_catch, GeminiService.chat_sendMessage.
    rewrite Hs, Hq. simpl. unfold Observe.after_attempts.
    rewrite Nat.add_1_r, Nat.add_0_r. reflexivity. }
  split; [exact Hq|]. split; [|exact Hloop].
  apply Hloop.
Qed.

Lemma quota_error_never_retried_witness :
  Observe.sends (GeminiService.sendMessageWithRetry Samples.env_quota
                   Samples.hello Samples.world0).2 = [Samples.hello]
  ∧ Observe.timeouts (GeminiService.sendMessageWithRetry Samples.env_quota
                        Samples.hello Samples.world0).2 = [].
Proof.
  destruct (quota_error_never_retried Samples.env_quota Samples.hello
              Samples.world0 Samples.error_quota) as (_ & Hrun & _).
  - reflexivity.
  - left. vm_compute. reflexivity.
  - rewrite Hrun. split; reflexivity.
Defined.

(** C5, the code at the failing input.  The check reads an object through
    [JSON.stringify], which does not show the message of an [Error].  An
    error object that reports the exhausted quota in its message only, and
    whose JSON text shows the status 429, is therefore not classified as a
    quota error but as retriable: when the service keeps answering with it,
    the retrying send makes all seven attempts and waits six times before it
    throws the error, whatever the message says. *)
Theorem quota_error_object_is_retried (E : World.Environment)
    (m : World.SendMessageParameters) (w : World.world) (err : World.js_error) :
  World.err_is_object err = true →
  JsString.includes (JsString.toLowerCase (World.err_json err)) "daily limit"
  = false →
  JsString.includes (JsString.toLowerCase (World.err_json err)) "quota exceeded"
  = false →
  JsString.includes (JsString.toLowerCase (World.err_json err)) "429" = true →
  (∀ k, (k ≤ 6)%nat →
        World.service E (World.w_sent w + k) = World.Rejected err) →
  GeminiService.is_quota_error err = false
  ∧ GeminiService.sendMessageWithRetry E m w
    = (World.Thrown err, Observe.after_attempts w 7 6,
       Observe.retry_trace m
         (Observe.backoff E (World.w_random w) 6
            GeminiService.INITIAL_DELAY_MS))
  ∧ Observe.sends (GeminiService.sendMessageWithRetry E m w).2
    = replicate 7 m
  ∧ length (Observe.timeouts (GeminiService.sendMessageWithRetry E m w).2)
    = 6%nat.
Proof.
  intros Hobj Hdaily Hquota H429 Hservice.
  assert (Hq : GeminiService.is_quota_error err = false).
  { unfold GeminiService.is_quota_error, GeminiService.errorString,
      GeminiService.error_text. rewrite Hobj, Hdaily, Hquota. reflexivity. }
  assert (Hr : GeminiService.isRetriableError err = true).
  { unfold GeminiService.isRetriableError, GeminiService.errorString,
      GeminiService.error_text. rewrite Hobj, H429. reflexivity. }
  destruct (retry_loop_exhausts E m 6 0 GeminiService.INITIAL_DELAY_MS w)
    as (last & Hlast & Hrun).
  { reflexivity. }
  { intros k Hk. exists err. auto. }
  rewrite (Hservice 6%nat) in Hlast by lia. injection Hlast as <-.
  split; [exact Hq|].
  unfold GeminiService.sendMessageWithRetry.
  change (Z.to_nat GeminiService.MAX_RETRIES) with 7%nat. rewrite Hrun.
  split; [reflexivity|]. cbn [snd].
  rewrite sends_retry_trace, timeouts_retry_trace, !length_backoff.
  split; reflexivity.
Qed.

Lemma quota_error_object_is_retried_witness :
  JsString.includes
    (JsString.toLowerCase (World.err_message MoreSamples.error_quota_object))
    "daily limit" = true
  ∧ GeminiService.is_quota_error MoreSamples.error_quota_object = false
  ∧ Observe.sends
      (GeminiService.sendMessageWithRetry MoreSamples.env_quota_object
         Samples.hello Samples.world0).2
    = replicate 7 Samples.hello
  ∧ length (Observe.timeouts
              (GeminiService.sendMessageWithRetry MoreSamples.env_quota_object
                 Samples.hello Samples.world0).2) = 6%nat.
Proof.
  destruct (quota_error_object_is_retried MoreSamples.env_quota_object
              Samples.hello Samples.world0 MoreSamples.error_quota_object)
    as (Hq & _ & Hsends & Hwaits).
  - reflexivity.
  - vm_compute. reflexivity.
  - vm_compute. reflexivity.
  - vm_compute. reflexivity.
  - intros k _. reflexivity.
  - split; [vm_compute; reflexivity|]. split; [exact Hq|].
    split; [exact Hsends|exact Hwaits].
Defined.

(** ** Finalization *)

Section Finalize.
Import Json World GeminiService Observe.
Variable E : Environment.

Lemma read_htmlContent_missing response w1 :
  truthy (htmlContent_of E response) = false →
  ∃ reason, read_htmlContent E response w1 = (Thrown (new_Error reason), w1, []).
Proof.
  unfold htmlContent_of, read_htmlContent, cleaned.
  destruct (response_text response) as [text|]; [|intros _; eexists; reflexivity].
  destruct (JSON_parse E _) as [result|msg]; [|intros _; eexists; reflexivity].
  destruct (truthy_json result); [|intros _; eexists; reflexivity].
  destruct (get_property result "htmlContent") as [[|html]|]; simpl;
    try (intros _; eexists; reflexivity).
  intros ->. eexists; reflexivity.
Qed.

Lemma read_htmlContent_present response w1 html :
  htmlContent_of E response = Val html → truthy_json html = true →
  read_htmlContent E response w1 = (Returned html, w1, []).
Proof.
  unfold htmlContent_of, read_htmlContent, cleaned.
  destruct (response_text response) as [text|]; [|discriminate].
  destruct (JSON_parse E _) as [result|msg]; [|discriminate].
  destruct result; simpl; try discriminate.
  destruct (own_property props "htmlContent"); [discriminate|].
  intros [= ->] ->. reflexivity.
Qed.

End Finalize.

(** C6 (as the code has it).  Once the final response has arrived: if it has
    no text, is not JSON, or its parsed value has no [htmlContent] or a falsy
    one (null, false, 0 or the empty string), finalize throws "Failed to
    convert PDF to HTML. ..." in the very state and after the very events in
    which the response arrived, so no further attempt is made; if
    [htmlContent] is present and truthy it is returned as it is, whether or
    not it is a string. *)
Theorem finalize_missing_html_is_fatal (E : World.Environment)
    (w w1 : World.world) (response : World.GenerateContentResponse)
    (t1 : list World.event) :
  GeminiService.sendMessageWithRetry E (GeminiService.final_message E) w
  = (World.Returned response, w1, t1) →
  (Json.truthy (Observe.htmlContent_of E response) = false →
   ∃ reason,
     GeminiService.finishEpubConversionChat E w
     = (World.Thrown
          (World.new_Error ("Failed to convert PDF to HTML. " +:+ reason)),
        w1, t1))
  ∧ (∀ html,
       Observe.htmlContent_of E response = Json.Val html →
       Json.truthy_json html = true →
       GeminiService.finishEpubConversionChat E w
       = (World.Returned html, w1, t1)).
Proof.
  intros Hsend. unfold GeminiService.finishEpubConversionChat.
  unfold World.try_catch, World.bind. rewrite Hsend. split.
  - intros Hmissing.
    destruct (read_htmlContent_missing E response w1 Hmissing) as [reason ->].
    exists reason. simpl. now rewrite !app_nil_r.
  - intros html Hhtml Htruthy.
    rewrite (read_htmlContent_present E response w1 html Hhtml Htruthy).
    now rewrite app_nil_r.
Qed.

Lemma finalize_missing_html_is_fatal_witness :
  ∃ reason,
    (GeminiService.finishEpubConversionChat Samples.env_html_missing
       Samples.world0).1.1
    = World.Thrown
        (World.new_Error ("Failed to convert PDF to HTML. " +:+ reason))
    ∧ Observe.sends
        (GeminiService.finishEpubConversionChat Samples.env_html_missing
           Samples.world0).2
      = [GeminiService.final_message Samples.env_html_missing].
Proof.
  destruct (finalize_missing_html_is_fatal Samples.env_html_missing
              Samples.world0
              (GeminiService.sendMessageWithRetry Samples.env_html_missing
                 (GeminiService.final_message Samples.env_html_missing)
                 Samples.world0).1.2
              {| World.response_text := Some "{}" |}
              (GeminiService.sendMessageWithRetry Samples.env_html_missing
                 (GeminiService.final_message Samples.env_html_missing)
                 Samples.world0).2) as [Hfatal _].
  - vm_compute. reflexivity.
  - destruct Hfatal as [reason Hrun].
    + vm_compute. reflexivity.
    + exists reason. rewrite Hrun. split; reflexivity.
Defined.

(** C6, counterexample to the claim as stated: a response whose
    [htmlContent] is the number 1 has no [htmlContent] string field, and
    finalize returns that number instead of failing. *)
Lemma finalize_returns_non_string_field :
  World.service Samples.env_html_number 0
  = World.Replied {| World.response_text := Some Samples.html_number_text |}
  ∧ World.JSON_parse Samples.env_html_number
      (Observe.cleaned Samples.html_number_text)
    = Json.Parsed (Json.JObj [("htmlContent", Json.JNum 1)])
  ∧ Observe.is_string_field
      (Observe.htmlContent_of Samples.env_html_number
         {| World.response_text := Some Samples.html_number_text |}) = false
  ∧ (GeminiService.finishEpubConversionChat Samples.env_html_number
       Samples.world0).1.1 = World.Returned (Json.JNum 1)
  ∧ Observe.sends
      (GeminiService.finishEpubConversionChat Samples.env_html_number
         Samples.world0).2
    = [GeminiService.final_message Samples.env_html_number].
Proof. repeat split; vm_compute; reflexivity. Qed.

(** ** The chunk loop *)

Section Orchestrator.
Import Json World GeminiService App Observe.
Variable E : Environment.

(** Page extraction touches neither the store nor the chat and emits no
    event. *)
Lemma process_pages_pure pages : ∀ st w,
  ∃ r, process_pages E st pages w = (r, w, []).
Proof.
  induction pages as [|p pages IH]; intros st w; simpl.
  - eexists; reflexivity.
  - unfold bind, process_page, lift.
    destruct (pdf_getPage E p) as [err|page]; simpl.
    + eexists; reflexivity.
    + match goal with |- context [process_pages E ?st' pages w] =>
        destruct (IH st' w) as [r ->] end.
      eexists; reflexivity.
Qed.

Lemma process_op_extends st op :
  allImagesNow st `prefix_of` allImagesNow (process_op E st op).
Proof.
  destruct op as [|lookup ctx]; simpl; [reflexivity|].
  destruct (paint_image_try E lookup ctx) as [err|[img|]]; simpl;
    [reflexivity| |reflexivity].
  now apply prefix_app_r.
Qed.

Lemma process_ops_extend ops : ∀ st,
  allImagesNow st `prefix_of` allImagesNow (foldl (process_op E) st ops).
Proof.
  induction ops as [|op ops IH]; intros st; simpl; [reflexivity|].
  etransitivity; [apply process_op_extends|apply IH].
Qed.

(** Extraction only ever appends to the global image sequence. *)
Lemma process_pages_extend pages : ∀ st w ex w' t,
  process_pages E st pages w = (Returned ex, w', t) →
  allImagesNow st `prefix_of` allImagesNow ex.
Proof.
  induction pages as [|p pages IH]; intros st w ex w' t; simpl.
  - intros [= <- _ _]. reflexivity.
  - unfold bind, process_page, lift.
    destruct (pdf_getPage E p) as [err|page]; simpl; [discriminate|].
    match goal with |- context [process_pages E ?st1 pages w] =>
      destruct (process_pages E st1 pages w) as [[r w2] t2] eqn:Hrest;
      pose proof (process_ops_extend (fnArray page)
                    {| chunkText := chunkText st +:+
                         String "010" (String "010" "--- PAGE ")
                         +:+ pretty p +:+ " ---"
                         +:+ String "010" (String "010" EmptyString)
                         +:+ pageText page;
                       chunkImages := chunkImages st;
                       allImagesNow := allImagesNow st |}) as Hext
    end.
    destruct r as [ex'|err]; intros [= <- _ _].
    etransitivity; [exact Hext|]. eapply IH. exact Hrest.
Qed.

(** The retry loop emits attempts of its message separated by waits, and
    never touches the store. *)
Lemma retry_loop_shape m : ∀ left attempt delay w,
  MAX_RETRIES - 1 ≤ attempt + Z.of_nat left →
  ∃ r w' ds,
    retry_loop E m (S left) attempt delay w = (r, w', retry_trace m ds)
    ∧ (length ds ≤ left)%nat
    ∧ w_store w' = w_store w
    ∧ match r with
      | Returned response =>
          w_history w' = w_history w ++ [UserContent (message m);
                                         ModelContent response]
      | Thrown _ => w_history w' = w_history w
      end.
Proof.
  induction left as [|left IH]; intros attempt delay w Hatt.
  - simpl. unfold try_catch, chat_sendMessage.
    destruct (service E (w_sent w)) as [r|err].
    { eexists _, _, []. repeat split; simpl; solve [reflexivity|lia]. }
    replace (attempt <? MAX_RETRIES - 1) with false
      by (symmetry; apply Z.ltb_ge; lia).
    rewrite andb_false_r.
    destruct (is_quota_error err);
      eexists _, _, []; repeat split; simpl; solve [reflexivity|lia].
  - change (retry_loop E m (S (S left)) attempt delay w)
      with (try_catch (chat_sendMessage E m) (λ err,
              if is_quota_error err then throw err
              else if isRetriableError err && (attempt <? MAX_RETRIES - 1) then
                bind (sleep delay) (λ _,
                  bind (random_below_1000 E) (λ jitter,
                    retry_loop E m (S left) (attempt + 1) (delay * 2 + jitter)))
              else throw err) w).
    unfold try_catch, chat_sendMessage.
    destruct (service E (w_sent w)) as [r|err].
    { eexists _, _, []. repeat split; simpl; solve [reflexivity|lia]. }
    destruct (is_quota_error err).
    { eexists _, _, []. repeat split; simpl; solve [reflexivity|lia]. }
    destruct (isRetriableError err && (attempt <? MAX_RETRIES - 1)).
    2:{ eexists _, _, []. repeat split; simpl; solve [reflexivity|lia]. }
    unfold bind, sleep, emit, random_below_1000.
    cbn [w_store w_history w_sent w_random].
    match goal with |- context [retry_loop E m (S left) ?a ?d ?w1] =>
      destruct (IH a d w1 ltac:(lia)) as (r & w' & ds & -> & Hlen & Hstore & Hhist)
    end.
    exists r, w', (delay :: ds). simpl in *.
    repeat split; [lia|exact Hstore|exact Hhist].
Qed.

(** [sendMessageWithRetry]: between one and seven attempts of the same
    message, separated by waits. *)
Lemma sendMessageWithRetry_shape m w :
  ∃ r w' ds,
    sendMessageWithRetry E m w = (r, w', retry_trace m ds)
    ∧ (length ds ≤ 6)%nat
    ∧ w_store w' = w_store w
    ∧ match r with
      | Returned response =>
          w_history w' = w_history w ++ [UserContent (message m);
                                         ModelContent response]
      | Thrown _ => w_history w' = w_history w
      end.
Proof.
  unfold sendMessageWithRetry. change (Z.to_nat MAX_RETRIES) with 7%nat.
  apply retry_loop_shape. unfold MAX_RETRIES. lia.
Qed.

(** The outcome of the loop body for chunk [i], whatever the world does:
    nothing at all when a page cannot be read; the first snapshot and the
    attempts when the submission fails; both snapshots around the attempts,
    then the throttle, when it succeeds. *)
Lemma process_chunk_shape key P i imgs w :
  (∃ err, process_chunk E key P i imgs w = (Thrown err, w, []))
  ∨ ∃ ex ds w1,
      process_pages E
        {| chunkText := EmptyString; chunkImages := []; allImagesNow := imgs |}
        (Chunking.chunk_pages P i) w = (Returned ex, w, [])
      ∧ (length ds ≤ 6)%nat
      ∧ let msg := chunk_message (chunkText ex) (chunkImages ex)
                     (Chunking.startPage i) (Chunking.endPage P i) in
        let s1 := {| currentChunk := i; numPages := P;
                     chatHistory := w_history w;
                     allImages := allImagesNow ex |} in
        (∃ err,
           process_chunk E key P i imgs w
           = (Thrown err, w1, EvSetItem key s1 :: retry_trace msg ds)
           ∧ w_history w1 = w_history w
           ∧ w_store w1 = <[key := JSON_stringify E s1]> (w_store w))
        ∨ (∃ response,
             let s2 := {| currentChunk := i + 1; numPages := P;
                          chatHistory :=
                            w_history w ++ [UserContent (message msg);
                                            ModelContent response];
                          allImages := allImagesNow ex |} in
             process_chunk E key P i imgs w
             = (Returned (allImagesNow ex), w1,
                EvSetItem key s1 :: retry_trace msg ds
                ++ [EvSetItem key s2; EvSetTimeout THROTTLE_MS])
             ∧ w_history w1 = chatHistory s2
             ∧ w_store w1
               = <[key := JSON_stringify E s2]>
                   (<[key := JSON_stringify E s1]> (w_store w))).
Proof.
  remember (process_chunk E key P i imgs w) as run eqn:Hrun.
  unfold process_chunk in Hrun.
  change (seqZ (i * CHUNK_SIZE + 1)
            (Z.min ((i + 1) * CHUNK_SIZE) P - (i * CHUNK_SIZE + 1) + 1))
    with (Chunking.chunk_pages P i) in Hrun.
  change (i * CHUNK_SIZE + 1) with (Chunking.startPage i) in Hrun.
  change (Z.min ((i + 1) * CHUNK_SIZE) P) with (Chunking.endPage P i) in Hrun.
  unfold bind at 1 in Hrun.
  destruct (process_pages_pure (Chunking.chunk_pages P i)
              {| chunkText := EmptyString; chunkImages := [];
                 allImagesNow := imgs |} w) as [r Hpages].
  rewrite Hpages in Hrun |- *.
  destruct r as [ex|err]; [|left; exists err; exact Hrun].
  right.
  unfold bind, chat_getHistory, localStorage_setItem, sendPdfChunkToChat, bind
    in Hrun.
  cbn [w_store w_history w_sent w_random] in Hrun.
  match type of Hrun with context [sendMessageWithRetry E ?msg ?w0] =>
    destruct (sendMessageWithRetry_shape msg w0)
      as (r & w1 & ds & Hsend & Hlen & Hstore & Hhist);
    rewrite Hsend in Hrun
  end.
  cbn [w_store w_history w_sent w_random] in Hhist, Hstore.
  destruct r as [response|err].
  - unfold ret, sleep, emit in Hrun. cbn in Hrun.
    rewrite Hhist, Hstore in Hrun. rewrite !app_nil_r in Hrun.
    eexists ex, ds, _. split; [reflexivity|]. split; [exact Hlen|].
    right. exists response. cbn zeta.
    split; [exact Hrun|split; reflexivity].
  - exists ex, ds, w1. split; [reflexivity|]. split; [exact Hlen|].
    left. exists err. split; [exact Hrun|split; [exact Hhist|exact Hstore]].
Qed.

(** The events of one iteration and the record left in the store, by
    outcome. *)
Lemma process_chunk_events key P i imgs w :
  match process_chunk E key P i imgs w with
  | (Returned _, w', t) =>
      ∃ s1 s2 msg ds,
        t = EvSetItem key s1 :: retry_trace msg ds
            ++ [EvSetItem key s2; EvSetTimeout THROTTLE_MS]
        ∧ currentChunk s1 = i ∧ currentChunk s2 = i + 1
        ∧ snapshots t = [s1; s2]
        ∧ w_store w' !! key = Some (JSON_stringify E s2)
  | (Thrown _, w', t) =>
      (t = [] ∧ w' = w)
      ∨ ∃ s1 msg ds,
          t = EvSetItem key s1 :: retry_trace msg ds
          ∧ currentChunk s1 = i ∧ snapshots t = [s1]
          ∧ w_store w' !! key = Some (JSON_stringify E s1)
  end.
Proof.
  destruct (process_chunk_shape key P i imgs w)
    as [[err ->]|(ex & ds & w1 & _ & _ &
                  [(err & -> & _ & Hst)|(response & -> & _ & Hst)])].
  - now left.
  - right. eexists _, _, ds. split; [reflexivity|]. split; [reflexivity|].
    split; [|rewrite Hst; apply lookup_insert_eq].
    change (EvSetItem key ?s :: ?t) with ([EvSetItem key s] ++ t).
    rewrite snapshots_app, snapshots_retry_trace. reflexivity.
  - eexists _, _, _, ds. split; [reflexivity|]. split; [reflexivity|].
    split; [reflexivity|].
    split; [|rewrite Hst; apply lookup_insert_eq].
    change (EvSetItem key ?s :: ?t) with ([EvSetItem key s] ++ t).
    rewrite !snapshots_app, snapshots_retry_trace. reflexivity.
Qed.

(** The chunk values written by a run of the loop that starts at [i0] with
    [left] iterations to go. *)
Lemma chunk_loop_snapshots key P : ∀ left i0 imgs w,
  currentChunk <$> snapshots (chunk_loop E key P left i0 imgs w).2
    `prefix_of` concat ((λ i, [i; i + 1]) <$> seqZ i0 (Z.of_nat left))
  ∧ ∀ r, (chunk_loop E key P left i0 imgs w).1.1 = Returned r →
         currentChunk <$> snapshots (chunk_loop E key P left i0 imgs w).2
         = concat ((λ i, [i; i + 1]) <$> seqZ i0 (Z.of_nat left)).
Proof.
  induction left as [|left IH]; intros i0 imgs w.
  - simpl. split; [reflexivity|]. intros; reflexivity.
  - rewrite seqZ_cons by lia. rewrite fmap_cons, concat_cons.
    replace (Z.pred (Z.of_nat (S left))) with (Z.of_nat left) by lia.
    change (Z.succ i0) with (i0 + 1).
    change (chunk_loop E key P (S left) i0 imgs w)
      with (bind (process_chunk E key P i0 imgs)
              (λ imgs', chunk_loop E key P left (i0 + 1) imgs') w).
    unfold bind.
    pose proof (process_chunk_events key P i0 imgs w) as Hev.
    destruct (process_chunk E key P i0 imgs w) as [[[imgs'|err] w1] t1].
    + destruct Hev as (s1 & s2 & msg & ds & _ & H1 & H2 & Hsnap & _).
      destruct (IH (i0 + 1) imgs' w1) as [Hpre Heq].
      destruct (chunk_loop E key P left (i0 + 1) imgs' w1) as [[r w2] t2].
      simpl in *. rewrite snapshots_app, fmap_app, Hsnap. simpl.
      rewrite H1, H2. split.
      * now do 2 apply prefix_cons.
      * intros r' ->. now rewrite (Heq _ eq_refl).
    + simpl. split; [|discriminate].
      destruct Hev as [[-> _]|(s1 & msg & ds & _ & H1 & -> & _)]; simpl.
      * apply prefix_nil.
      * rewrite H1. apply prefix_cons, prefix_nil.
Qed.

(** What a run of the loop from chunk [i0] submits and records: only
    messages of chunks from [i0] on, only snapshots that extend the image
    sequence and the history it started with, and no removal. *)
Lemma chunk_loop_from key P : ∀ left i0 imgs w,
  (∀ m, m ∈ sends (chunk_loop E key P left i0 imgs w).2 →
     ∃ i ex imgs' w0,
       i0 ≤ i < i0 + Z.of_nat left
       ∧ process_pages E
           {| chunkText := EmptyString; chunkImages := [];
              allImagesNow := imgs' |}
           (Chunking.chunk_pages P i) w0 = (Returned ex, w0, [])
       ∧ m = chunk_message (chunkText ex) (chunkImages ex)
               (Chunking.startPage i) (Chunking.endPage P i))
  ∧ (∀ s, s ∈ snapshots (chunk_loop E key P left i0 imgs w).2 →
       i0 ≤ currentChunk s
       ∧ imgs `prefix_of` allImages s
       ∧ w_history w `prefix_of` chatHistory s)
  ∧ removals (chunk_loop E key P left i0 imgs w).2 = []
  ∧ ∀ r, (chunk_loop E key P left i0 imgs w).1.1 = Returned r →
         imgs `prefix_of` r.
Proof.
  induction left as [|left IH]; intros i0 imgs w.
  - simpl. split; [intros m Hm; inversion Hm|].
    split; [intros s' Hs; inversion Hs|]. split; [reflexivity|].
    intros r [= <-]. reflexivity.
  - change (chunk_loop E key P (S left) i0 imgs w)
      with (bind (process_chunk E key P i0 imgs)
              (λ imgs', chunk_loop E key P left (i0 + 1) imgs') w).
    unfold bind.
    destruct (process_chunk_shape key P i0 imgs w)
      as [[err ->]|(ex & ds & w1 & Hpages & _ &
                    [(err & -> & _ & _)|(response & -> & Hhist & _)])].
    + simpl. split; [intros m Hm; inversion Hm|].
      split; [intros s' Hs; inversion Hs|]. split; [reflexivity|discriminate].
    + pose proof (process_pages_extend _ _ _ _ _ _ Hpages) as Hext.
      simpl in Hext. cbn [fst snd].
      change (EvSetItem key ?s :: ?t) with ([EvSetItem key s] ++ t).
      rewrite sends_app, snapshots_app, removals_app, sends_retry_trace,
        snapshots_retry_trace, removals_retry_trace. simpl.
      split; [|split; [|split; [reflexivity|discriminate]]].
      * intros m Hm. apply elem_of_cons in Hm as [->|Hm].
        2:{ apply elem_of_replicate in Hm as [-> _].
            exists i0, ex, imgs, w. split; [lia|]. split; [exact Hpages|reflexivity]. }
        exists i0, ex, imgs, w. split; [lia|]. split; [exact Hpages|reflexivity].
      * intros s' Hs. apply list_elem_of_singleton in Hs as ->. simpl.
        split; [lia|]. split; [exact Hext|reflexivity].
    + pose proof (process_pages_extend _ _ _ _ _ _ Hpages) as Hext.
      simpl in Hext, Hhist.
      destruct (IH (i0 + 1) (allImagesNow ex) w1) as (Hsends & Hsnaps & Hrem & Hret).
      destruct (chunk_loop E key P left (i0 + 1) (allImagesNow ex) w1)
        as [[r w2] t2].
      cbn [fst snd] in *.
      change (EvSetItem key ?s :: ?t) with ([EvSetItem key s] ++ t).
      rewrite !sends_app, !snapshots_app, !removals_app, sends_retry_trace,
        snapshots_retry_trace, removals_retry_trace, Hrem. simpl.
      split; [|split; [|split; [reflexivity|]]].
      * intros m Hm. apply elem_of_cons in Hm as [->|Hm].
        { exists i0, ex, imgs, w. split; [lia|]. split; [exact Hpages|reflexivity]. }
        apply elem_of_app in Hm as [Hm|Hm].
        { rewrite app_nil_r in Hm. apply elem_of_replicate in Hm as [-> _].
          exists i0, ex, imgs, w. split; [lia|]. split; [exact Hpages|reflexivity]. }
        destruct (Hsends m Hm) as (i & ex' & imgs' & w0 & Hi & Hp & ->).
        exists i, ex', imgs', w0. split; [lia|]. split; [exact Hp|reflexivity].
      * intros s' Hs. apply elem_of_cons in Hs as [->|Hs].
        { simpl. split; [lia|]. split; [exact Hext|reflexivity]. }
        apply elem_of_cons in Hs as [->|Hs].
        { simpl. split; [lia|]. split; [exact Hext|]. now apply prefix_app_r. }
        destruct (Hsnaps s' Hs) as (Hc & Hi & Hh).
        split; [lia|]. split; [etransitivity; eassumption|].
        etransitivity; [|exact Hh]. rewrite Hhist. now apply prefix_app_r.
      * intros r' ->. etransitivity; [exact Hext|]. now apply Hret.
Qed.

Lemma read_htmlContent_pure response w1 :
  ∃ r, read_htmlContent E response w1 = (r, w1, []).
Proof.
  unfold read_htmlContent.
  destruct (response_text response) as [text|]; [|eexists; reflexivity].
  destruct (JSON_parse E _) as [result|msg]; [|eexists; reflexivity].
  destruct (truthy_json result); [|eexists; reflexivity].
  destruct (get_property result "htmlContent") as [[|html]|];
    try (eexists; reflexivity).
  destruct (truthy_json html); eexists; reflexivity.
Qed.

(** Finalization sends the final prompt only and writes nothing. *)
Lemma finish_events w :
  ∃ ds, (finishEpubConversionChat E w).2 = retry_trace (final_message E) ds.
Proof.
  unfold finishEpubConversionChat, try_catch, bind.
  destruct (sendMessageWithRetry_shape (final_message E) w)
    as (r & w1 & ds & -> & _).
  exists ds. destruct r as [response|err]; simpl.
  - destruct (read_htmlContent_pure response w1) as [r ->].
    destruct r; simpl; now rewrite ?app_nil_r.
  - now rewrite app_nil_r.
Qed.

(** Packaging touches neither the store nor the chat and emits no event. *)
Lemma generateEpub_promise_pure html title w :
  generateEpub_promise E html title w
  = ((generateEpub_promise E html title w).1.1, w, []).
Proof.
  unfold generateEpub_promise.
  destruct (negb (jszip_folder E "OEBPS")); [reflexivity|].
  destruct (negb (jszip_folder E "images")); [reflexivity|].
  destruct (jszip_generateAsync E _); reflexivity.
Qed.

(** [handleConvert] on the resume path, step by step. *)
Lemma handleConvert_try_resumed file session isRetriable forceNew w P :
  shouldResume E (Some session) isRetriable forceNew = true →
  pdf_numPages E = inr P →
  handleConvert_try E file (Some session) isRetriable forceNew w
  = match chunk_loop E (sessionKey file) P
            (Z.to_nat (Chunking.numChunks P - resume_currentChunk session))
            (resume_currentChunk session)
            (default [] (resume_allImages session))
            {| w_store := w_store w;
               w_history := resume_chatHistory session;
               w_sent := w_sent w;
               w_random := w_random w |} with
    | (Returned imgs, w1, t1) =>
        match finishEpubConversionChat E w1 with
        | (Returned html, w2, t2) =>
            match (generateEpub_promise E html
                     (remove_pdf_suffix (file_name file)) w2).1.1 with
            | Returned epub =>
                (Returned epub,
                 {| w_store := delete (sessionKey file) (w_store w2);
                    w_history := w_history w2;
                    w_sent := w_sent w2;
                    w_random := w_random w2 |},
                 EvChatCreate (resume_chatHistory session)
                 :: t1 ++ t2 ++ [EvRemoveItem (sessionKey file)])
            | Thrown err =>
                (Thrown err, w2,
                 EvChatCreate (resume_chatHistory session) :: t1 ++ t2)
            end
        | (Thrown err, w2, t2) =>
            (Thrown err, w2,
             EvChatCreate (resume_chatHistory session) :: t1 ++ t2)
        end
    | (Thrown err, w1, t1) =>
        (Thrown err, w1, EvChatCreate (resume_chatHistory session) :: t1)
    end.
Proof.
  intros Hresume HP. unfold handleConvert_try. rewrite Hresume, HP.
  unfold lift, bind, startEpubConversionChat, ret, localStorage_removeItem.
  cbn [default fst snd]. unfold Chunking.numChunks.
  change CHUNK_SIZE with Chunking.CHUNK_SIZE.
  destruct (chunk_loop _ _ _ _ _ _ _) as [[[imgs|err] w1] t1]; [|reflexivity].
  destruct (finishEpubConversionChat E w1) as [[[html|err] w2] t2];
    [|cbn; rewrite ?app_nil_r; reflexivity].
  rewrite (generateEpub_promise_pure html _ w2).
  destruct (generateEpub_promise E html _ w2).1.1 as [epub|err];
    cbn; rewrite ?app_nil_r; reflexivity.
Qed.

End Orchestrator.

(** C3. For every chunk index [i] that the loop processes: when the
    submission succeeds, exactly two snapshots are written, the first with
    [currentChunk = i] before the first attempt and the second with
    [currentChunk = i + 1] after the successful one, and all that happens
    between the two writes are the attempts of this chunk's message and the
    waits of the retry policy, and the store then holds the second snapshot;
    when the iteration fails, either nothing was written (a page could not be
    read) or only the first snapshot was, and the store holds it.  Over
    the whole loop the chunk values written are [i0, i0+1, i0+1, i0+2, ...]
    in this order, cut short where an iteration fails. *)
Theorem snapshots_bracket_each_submission (E : World.Environment)
    (key : string) (P : Z) :
  (∀ i imgs w,
     match App.process_chunk E key P i imgs w with
     | (World.Returned _, w', t) =>
         ∃ s1 s2 msg ds,
           t = World.EvSetItem key s1 :: Observe.retry_trace msg ds
               ++ [World.EvSetItem key s2; World.EvSetTimeout App.THROTTLE_MS]
           ∧ World.currentChunk s1 = i ∧ World.currentChunk s2 = i + 1
           ∧ Observe.snapshots t = [s1; s2]
           ∧ World.w_store w' !! key = Some (World.JSON_stringify E s2)
     | (World.Thrown _, w', t) =>
         (t = [] ∧ w' = w)
         ∨ ∃ s1 msg ds,
             t = World.EvSetItem key s1 :: Observe.retry_trace msg ds
             ∧ World.currentChunk s1 = i ∧ Observe.snapshots t = [s1]
             ∧ World.w_store w' !! key = Some (World.JSON_stringify E s1)
     end)
  ∧ (∀ left i0 imgs w,
       World.currentChunk
         <$> Observe.snapshots (App.chunk_loop E key P left i0 imgs w).2
       `prefix_of` concat ((λ i, [i; i + 1]) <$> seqZ i0 (Z.of_nat left))
       ∧ ∀ r, (App.chunk_loop E key P left i0 imgs w).1.1 = World.Returned r →
              World.currentChunk
                <$> Observe.snapshots (App.chunk_loop E key P left i0 imgs w).2
              = concat ((λ i, [i; i + 1]) <$> seqZ i0 (Z.of_nat left))).
Proof.
  split.
  - intros i imgs w. apply process_chunk_events.
  - intros left i0 imgs w. apply chunk_loop_snapshots.
Qed.

Lemma snapshots_bracket_each_submission_witness :
  World.currentChunk
    <$> Observe.snapshots
          (App.chunk_loop Samples.env_accepting "epub-session-a.pdf-10" 12 3 0 []
             Samples.world0).2
  = [0; 1; 1; 2; 2; 3].
Proof.
  destruct (snapshots_bracket_each_submission Samples.env_accepting
              "epub-session-a.pdf-10" 12) as [_ Hloop].
  destruct (Hloop 3%nat 0 [] Samples.world0) as [_ Heq].
  apply (Heq []). vm_compute. reflexivity.
Defined.

(** C9. A conversion resumed from a session with [currentChunk = n]: the
    chat is created from the session's history; every message handed to the
    service is either the final prompt or the message of a chunk [i] with
    [n <= i < numChunks], whose text is extracted from the pages of chunk
    [i] alone, so nothing of chunks [0 .. n-1] is submitted again; and every
    snapshot written has [currentChunk >= n], an image sequence that starts
    with the session's and a history that starts with the session's. *)
Theorem resume_never_resubmits (E : World.Environment) (file : App.File)
    (session : App.resumable) (isRetriableError forceNew : bool)
    (w : World.world) (P : Z) :
  App.shouldResume E (Some session) isRetriableError forceNew = true →
  World.pdf_numPages E = inr P →
  let n := App.resume_currentChunk session in
  let t := (App.handleConvert_try E file (Some session)
              isRetriableError forceNew w).2 in
  (∃ rest, t = World.EvChatCreate (App.resume_chatHistory session) :: rest)
  ∧ (∀ m, m ∈ Observe.sends t →
       m = GeminiService.final_message E
       ∨ ∃ i ex imgs' w0,
           n ≤ i < Chunking.numChunks P
           ∧ App.process_pages E
               {| App.chunkText := EmptyString; App.chunkImages := [];
                  App.allImagesNow := imgs' |}
               (Chunking.chunk_pages P i) w0 = (World.Returned ex, w0, [])
           ∧ m = GeminiService.chunk_message (App.chunkText ex)
                   (App.chunkImages ex) (Chunking.startPage i)
                   (Chunking.endPage P i))
  ∧ (∀ s, s ∈ Observe.snapshots t →
       n ≤ World.currentChunk s
       ∧ default [] (App.resume_allImages session) `prefix_of` World.allImages s
       ∧ App.resume_chatHistory session `prefix_of` World.chatHistory s).
Proof.
  intros Hresume HP n t. subst t.
  rewrite (handleConvert_try_resumed E file session _ _ w P Hresume HP).
  fold n.
  set (w0 := {| World.w_store := World.w_store w;
                World.w_history := App.resume_chatHistory session;
                World.w_sent := World.w_sent w;
                World.w_random := World.w_random w |}).
  destruct (chunk_loop_from E (App.sessionKey file) P
              (Z.to_nat (Chunking.numChunks P - n)) n
              (default [] (App.resume_allImages session)) w0)
    as (Hsends & Hsnaps & _ & _).
  destruct (App.chunk_loop E (App.sessionKey file) P
              (Z.to_nat (Chunking.numChunks P - n)) n
              (default [] (App.resume_allImages session)) w0)
    as [[r w1] t1].
  cbn [fst snd] in Hsends, Hsnaps.
  assert (Hchunk : ∀ m, m ∈ Observe.sends t1 →
            ∃ i ex imgs' w0,
              n ≤ i < Chunking.numChunks P
              ∧ App.process_pages E
                  {| App.chunkText := EmptyString; App.chunkImages := [];
                     App.allImagesNow := imgs' |}
                  (Chunking.chunk_pages P i) w0 = (World.Returned ex, w0, [])
              ∧ m = GeminiService.chunk_message (App.chunkText ex)
                      (App.chunkImages ex) (Chunking.startPage i)
                      (Chunking.endPage P i)).
  { intros m Hm. destruct (Hsends m Hm) as (i & ex & imgs' & w' & Hi & Hp & ->).
    exists i, ex, imgs', w'. split; [lia|split; [exact Hp|reflexivity]]. }
  destruct r as [imgs|err].
  - destruct (finish_events E w1) as [ds Hfin].
    destruct (GeminiService.finishEpubConversionChat E w1) as [[r2 w2] t2].
    cbn [snd] in Hfin. subst t2.
    destruct r2 as [html|err]; cbn [snd];
      [destruct (App.generateEpub_promise E html _ w2).1.1 as [epub|err];
       cbn [snd]| ].
    + split; [eexists; reflexivity|]. split.
      * intros m Hm.
        change (World.EvChatCreate ?h :: ?x) with ([World.EvChatCreate h] ++ x) in Hm.
        rewrite !sends_app, sends_retry_trace in Hm.
        cbn in Hm. rewrite app_nil_r in Hm.
        apply elem_of_app in Hm as [Hm|Hm]; [right; now apply Hchunk|].
        left. apply elem_of_cons in Hm as [->|Hm]; [reflexivity|].
        now apply elem_of_replicate in Hm as [-> _].
      * intros s Hs.
        change (World.EvChatCreate ?h :: ?x) with ([World.EvChatCreate h] ++ x) in Hs.
        rewrite !snapshots_app, snapshots_retry_trace in Hs. cbn in Hs.
        rewrite app_nil_r in Hs. now apply Hsnaps.
    + split; [eexists; reflexivity|]. split.
      * intros m Hm.
        change (World.EvChatCreate ?h :: ?x) with ([World.EvChatCreate h] ++ x) in Hm.
        rewrite !sends_app, sends_retry_trace in Hm. cbn in Hm.
        apply elem_of_app in Hm as [Hm|Hm]; [right; now apply Hchunk|].
        left. apply elem_of_cons in Hm as [->|Hm]; [reflexivity|].
        now apply elem_of_replicate in Hm as [-> _].
      * intros s Hs.
        change (World.EvChatCreate ?h :: ?x) with ([World.EvChatCreate h] ++ x) in Hs.
        rewrite !snapshots_app, snapshots_retry_trace in Hs. cbn in Hs.
        rewrite ?app_nil_r in Hs. now apply Hsnaps.
    + split; [eexists; reflexivity|]. split.
      * intros m Hm.
        change (World.EvChatCreate ?h :: ?x) with ([World.EvChatCreate h] ++ x) in Hm.
        rewrite !sends_app, sends_retry_trace in Hm. cbn in Hm.
        apply elem_of_app in Hm as [Hm|Hm]; [right; now apply Hchunk|].
        left. apply elem_of_cons in Hm as [->|Hm]; [reflexivity|].
        now apply elem_of_replicate in Hm as [-> _].
      * intros s Hs.
        change (World.EvChatCreate ?h :: ?x) with ([World.EvChatCreate h] ++ x) in Hs.
        rewrite !snapshots_app, snapshots_retry_trace in Hs. cbn in Hs.
        rewrite app_nil_r in Hs. now apply Hsnaps.
  - cbn [snd]. split; [eexists; reflexivity|]. split.
    + intros m Hm. right. now apply Hchunk.
    + intros s Hs. now apply Hsnaps.
Qed.

Lemma resume_never_resubmits_witness :
  ∃ rest,
    (App.handleConvert_try Samples.env_accepting
       {| App.file_name := "a.pdf"; App.file_size := 10 |}
       (Some {| App.resume_currentChunk := 1;
                App.resume_chatHistory := [];
                App.resume_allImages := Some [] |})
       false false Samples.world0).2
    = World.EvChatCreate [] :: rest.
Proof.
  apply (resume_never_resubmits Samples.env_accepting
           {| App.file_name := "a.pdf"; App.file_size := 10 |}
           {| App.resume_currentChunk := 1;
              App.resume_chatHistory := [];
              App.resume_allImages := Some [] |}
           false false Samples.world0 12); reflexivity.
Defined.

(** ** Image normalization *)

Section Pixels.
Import World App Observe.

Lemma ToUint8Clamp_byte v : is_byte (ToUint8Clamp v).
Proof. unfold is_byte, ToUint8Clamp. destruct v; lia. Qed.

Lemma typed_store_length dst k v : length (typed_store dst k v) = length dst.
Proof. apply length_insert. Qed.

Lemma typed_store_bytes dst k v :
  Forall is_byte dst → Forall is_byte (typed_store dst k v).
Proof.
  intros H. unfold typed_store.
  destruct (decide (k < length dst)%nat) as [Hk|Hk].
  - apply Forall_insert; [exact H|apply ToUint8Clamp_byte].
  - rewrite list_insert_ge by lia. exact H.
Qed.

(** The four stores of one pixel starting at byte [k]. *)
Lemma pixel_store dst k a b c d :
  let dst' := typed_store (typed_store (typed_store (typed_store dst k a)
                (k + 1) b) (k + 2) c) (k + 3) d in
  length dst' = length dst
  ∧ (Forall is_byte dst → Forall is_byte dst')
  ∧ (∀ j, (j < k ∨ k + 4 ≤ j)%nat → dst' !! j = dst !! j)
  ∧ ((k + 3 < length dst)%nat →
       dst' !! k = Some (ToUint8Clamp a)
       ∧ dst' !! (k + 1)%nat = Some (ToUint8Clamp b)
       ∧ dst' !! (k + 2)%nat = Some (ToUint8Clamp c)
       ∧ dst' !! (k + 3)%nat = Some (ToUint8Clamp d)).
Proof.
  intros dst'. subst dst'. unfold typed_store.
  split; [now rewrite !length_insert|].
  split; [intros H; now repeat apply typed_store_bytes|].
  split.
  - intros j Hj. rewrite !list_lookup_insert_ne by lia. reflexivity.
  - intros Hk. repeat split.
    + rewrite !list_lookup_insert_ne by lia.
      apply list_lookup_insert_eq. lia.
    + rewrite !list_lookup_insert_ne by lia.
      apply list_lookup_insert_eq. rewrite !length_insert. lia.
    + rewrite !list_lookup_insert_ne by lia.
      apply list_lookup_insert_eq. rewrite !length_insert. lia.
    + apply list_lookup_insert_eq. rewrite !length_insert. lia.
Qed.

Lemma gray_loop_spec src : ∀ fuel l dst,
  (length src ≤ l + fuel)%nat →
  let out := gray_loop fuel src l (4 * l) dst in
  length out = length dst
  ∧ (Forall is_byte dst → Forall is_byte out)
  ∧ (∀ j, (j < 4 * l)%nat → out !! j = dst !! j)
  ∧ (∀ p g, (l ≤ p)%nat → src !! p = Some g → (4 * p + 3 < length dst)%nat →
       out !! (4 * p)%nat = Some (ToUint8Clamp (Some g))
       ∧ out !! (4 * p + 1)%nat = Some (ToUint8Clamp (Some g))
       ∧ out !! (4 * p + 2)%nat = Some (ToUint8Clamp (Some g))
       ∧ out !! (4 * p + 3)%nat = Some 255).
Proof.
  induction fuel as [|fuel IH]; intros l dst Hfuel out; subst out.
  - simpl. split; [reflexivity|]. split; [tauto|]. split; [reflexivity|].
    intros p g Hp Hg _. apply lookup_lt_Some in Hg. lia.
  - cbn [gray_loop]. destruct (l <? length src)%nat eqn:Hl.
    2:{ apply Nat.ltb_ge in Hl. split; [reflexivity|]. split; [tauto|].
        split; [reflexivity|].
        intros p g Hp Hg _. apply lookup_lt_Some in Hg. lia. }
    apply Nat.ltb_lt in Hl.
    destruct (pixel_store dst (4 * l) (src !! l) (src !! l) (src !! l) (Some 255))
      as (Hlen & Hbytes & Hout & Hin).
    set (dst' := typed_store _ _ _) in *.
    replace (4 * l + 4)%nat with (4 * (l + 1))%nat by lia.
    destruct (IH (l + 1)%nat dst' ltac:(lia)) as (Hlen' & Hbytes' & Hlow & Hpix).
    split; [now rewrite Hlen'|]. split; [tauto|]. split.
    + intros j Hj. rewrite Hlow by lia. apply Hout. lia.
    + intros p g Hp Hg Hroom.
      destruct (decide (p = l)) as [->|Hne].
      * rewrite !Hlow by lia. rewrite Hg in Hin. apply Hin. lia.
      * apply Hpix; [lia|exact Hg|lia].
Qed.

Lemma rgb_loop_spec src : ∀ fuel q dst,
  (length src ≤ 3 * q + fuel)%nat →
  let out := rgb_loop fuel src (3 * q) (4 * q) dst in
  length out = length dst
  ∧ (Forall is_byte dst → Forall is_byte out)
  ∧ (∀ j, (j < 4 * q)%nat → out !! j = dst !! j)
  ∧ (∀ p, (q ≤ p)%nat → (3 * p < length src)%nat →
       (4 * p + 3 < length dst)%nat →
       out !! (4 * p)%nat = Some (ToUint8Clamp (src !! (3 * p)%nat))
       ∧ out !! (4 * p + 1)%nat = Some (ToUint8Clamp (src !! (3 * p + 1)%nat))
       ∧ out !! (4 * p + 2)%nat = Some (ToUint8Clamp (src !! (3 * p + 2)%nat))
       ∧ out !! (4 * p + 3)%nat = Some 255).
Proof.
  induction fuel as [|fuel IH]; intros q dst Hfuel out; subst out.
  - simpl. split; [reflexivity|]. split; [tauto|]. split; [reflexivity|].
    intros p Hp Hsrc _. lia.
  - cbn [rgb_loop]. destruct (3 * q <? length src)%nat eqn:Hl.
    2:{ apply Nat.ltb_ge in Hl. split; [reflexivity|]. split; [tauto|].
        split; [reflexivity|]. intros p Hp Hsrc _. lia. }
    apply Nat.ltb_lt in Hl.
    destruct (pixel_store dst (4 * q) (src !! (3 * q)%nat)
                (src !! (3 * q + 1)%nat) (src !! (3 * q + 2)%nat) (Some 255))
      as (Hlen & Hbytes & Hout & Hin).
    set (dst' := typed_store _ _ _) in *.
    replace (3 * q + 3)%nat with (3 * (q + 1))%nat by lia.
    replace (4 * q + 4)%nat with (4 * (q + 1))%nat by lia.
    destruct (IH (q + 1)%nat dst' ltac:(lia)) as (Hlen' & Hbytes' & Hlow & Hpix).
    split; [now rewrite Hlen'|]. split; [tauto|]. split.
    + intros j Hj. rewrite Hlow by lia. apply Hout. lia.
    + intros p Hp Hsrc Hroom.
      destruct (decide (p = q)) as [->|Hne].
      * rewrite !Hlow by lia. apply Hin. lia.
      * apply Hpix; lia.
Qed.

End Pixels.

(** C8. Whatever the length of the pixel buffer of an extracted image, the
    normalization step fills the whole RGBA buffer of the canvas
    ([4 * width * height] bytes, each from 0 to 255) and no branch throws:
    a buffer of 3 bytes per pixel is copied with an opaque alpha, a buffer of
    4 bytes per pixel is copied as it is, and a buffer of any other length
    goes through the fallback, where every input byte that has a pixel in the
    buffer becomes an opaque gray pixel.  When the canvas cannot be created
    at all (a zero dimension), the exception is caught and the image is
    skipped; the conversion goes on. *)
Theorem image_normalization_never_fails (E : World.Environment)
    (img : World.pdf_image) :
  let w := World.img_width img in
  let h := World.img_height img in
  let src := World.img_data img in
  let len := Z.of_nat (length src) in
  match App.createImageData E w h with
  | inl _ =>
      ∀ st has_context,
        App.process_op E st
          (World.PaintImageXObject (World.LookupFound img) has_context) = st
  | inr imageData =>
      ∃ rgba,
        App.normalize_pixels img imageData = Some rgba
        ∧ length rgba = (4 * Observe.pixel_count img)%nat
        ∧ Forall Observe.is_byte rgba
        ∧ App.paint_image_try E (World.LookupFound img) true
          = inr (Some {| World.mimeType := "image/png";
                         World.data := World.canvas_png_base64 E w h rgba |})
        ∧ (len = w * h * 3 →
           ∀ p, (p < Observe.pixel_count img)%nat →
             rgba !! (4 * p)%nat = Some (App.ToUint8Clamp (src !! (3 * p)%nat))
             ∧ rgba !! (4 * p + 1)%nat
               = Some (App.ToUint8Clamp (src !! (3 * p + 1)%nat))
             ∧ rgba !! (4 * p + 2)%nat
               = Some (App.ToUint8Clamp (src !! (3 * p + 2)%nat))
             ∧ rgba !! (4 * p + 3)%nat = Some 255)
        ∧ (len ≠ w * h * 3 → len = w * h * 4 →
           rgba = (λ v, App.ToUint8Clamp (Some v)) <$> src)
        ∧ (len ≠ w * h * 3 → len ≠ w * h * 4 →
           ∀ p g, src !! p = Some g → (p < Observe.pixel_count img)%nat →
             rgba !! (4 * p)%nat = Some (App.ToUint8Clamp (Some g))
             ∧ rgba !! (4 * p + 1)%nat = Some (App.ToUint8Clamp (Some g))
             ∧ rgba !! (4 * p + 2)%nat = Some (App.ToUint8Clamp (Some g))
             ∧ rgba !! (4 * p + 3)%nat = Some 255)
  end.
Proof.
  intros w h src len.
  destruct (App.createImageData E w h) as [err|imageData] eqn:Hcreate.
  { intros st has_context. unfold App.process_op, App.paint_image_try.
    fold w h. rewrite Hcreate. now destruct has_context. }
  set (blank := replicate (Z.to_nat (Z.abs w * Z.abs h * 4)) 0).
  assert (imageData = blank) as ->.
  { unfold App.createImageData in Hcreate.
    destruct ((w =? 0) || (h =? 0)); [discriminate|].
    now injection Hcreate as <-. }
  assert (Hblank : length blank = (4 * Observe.pixel_count img)%nat).
  { unfold blank, Observe.pixel_count. fold w h. rewrite length_replicate. lia. }
  assert (Hbytes : Forall Observe.is_byte blank).
  { apply Forall_replicate. unfold Observe.is_byte. lia. }
  assert (Hpaint : ∀ rgba, App.normalize_pixels img blank = Some rgba →
            App.paint_image_try E (World.LookupFound img) true
            = inr (Some {| World.mimeType := "image/png";
                           World.data := World.canvas_png_base64 E w h rgba |})).
  { intros rgba Hn. unfold App.paint_image_try. fold w h.
    now rewrite Hcreate, Hn. }
  destruct (len =? w * h * 3) eqn:H3.
  { assert (Hnorm : App.normalize_pixels img blank
                    = Some (App.rgb_loop (length src) src 0 0 blank)).
    { unfold App.normalize_pixels. fold w h src len. now rewrite H3. }
    apply Z.eqb_eq in H3.
    destruct (rgb_loop_spec src (length src) 0 blank ltac:(lia))
      as (Hlen & Hb & _ & Hpix).
    simpl in Hlen, Hb, Hpix.
    eexists. split; [exact Hnorm|]. split; [now rewrite Hlen|].
    split; [now apply Hb|]. split; [now apply Hpaint|].
    split; [|split; intros; lia].
    intros _ p Hp. apply Hpix; [lia| |lia].
    unfold Observe.pixel_count in Hp. fold w h in Hp. subst len. nia. }
  destruct (len =? w * h * 4) eqn:H4.
  { assert (Hsame : length src = length blank).
    { apply Z.eqb_eq in H4. rewrite Hblank. unfold Observe.pixel_count.
      fold w h. subst len. nia. }
    assert (Hnorm : App.normalize_pixels img blank
                    = Some ((λ v, App.ToUint8Clamp (Some v)) <$> src)).
    { unfold App.normalize_pixels. fold w h src len. rewrite H3, H4.
      unfold App.typed_set. rewrite Hsame, Nat.leb_refl, drop_all, app_nil_r.
      reflexivity. }
    apply Z.eqb_neq in H3. apply Z.eqb_eq in H4.
    eexists. split; [exact Hnorm|].
    split; [now rewrite length_fmap, Hsame|].
    split.
    { apply Forall_fmap, Forall_forall. intros v _. apply ToUint8Clamp_byte. }
    split; [now apply Hpaint|].
    split; [intros; lia|]. split; [reflexivity|intros; lia]. }
  assert (Hnorm : App.normalize_pixels img blank
                  = Some (App.gray_loop (length src) src 0 0 blank)).
  { unfold App.normalize_pixels. fold w h src len. now rewrite H3, H4. }
  apply Z.eqb_neq in H3. apply Z.eqb_neq in H4.
  destruct (gray_loop_spec src (length src) 0 blank ltac:(lia))
    as (Hlen & Hb & _ & Hpix).
  simpl in Hlen, Hb, Hpix.
  eexists. split; [exact Hnorm|]. split; [now rewrite Hlen|].
  split; [now apply Hb|]. split; [now apply Hpaint|].
  split; [intros; lia|]. split; [intros; lia|].
  intros _ _ p g Hg Hp. apply Hpix; [lia|exact Hg|lia].
Qed.

Lemma image_normalization_never_fails_witness :
  ∃ rgba,
    App.normalize_pixels
      {| World.img_width := 1; World.img_height := 1; World.img_data := [7; 8] |}
      [0; 0; 0; 0] = Some rgba
    ∧ rgba !! 0%nat = Some 7 ∧ rgba !! 3%nat = Some 255
    ∧ length rgba = 4%nat.
Proof.
  pose proof (image_normalization_never_fails Samples.env_accepting
                {| World.img_width := 1; World.img_height := 1;
                   World.img_data := [7; 8] |}) as H.
  cbv zeta in H. unfold App.createImageData in H. simpl in H.
  destruct H as (rgba & Hnorm & Hlen & _ & _ & _ & _ & Hgray).
  exists rgba. split; [exact Hnorm|].
  destruct (Hgray ltac:(lia) ltac:(lia) 0%nat 7 eq_refl ltac:(vm_compute; lia))
    as (H0 & _ & _ & H3).
  split; [exact H0|]. split; [exact H3|exact Hlen].
Defined.

(** ** The session-load effect *)

Section SessionLoad.
Import Json World App.
Variable E : Environment.

(** When the offer is made: the record parses and both fields are truthy. *)
Lemma try_load_session_offers savedSession parsed :
  try_load_session E savedSession = Some parsed
  ↔ JSON_parse E savedSession = Parsed parsed
    ∧ ∃ currentChunk chatHistory,
        get_property parsed "currentChunk" = Some currentChunk
        ∧ truthy currentChunk = true
        ∧ get_property parsed "chatHistory" = Some chatHistory
        ∧ truthy chatHistory = true.
Proof.
  unfold try_load_session. split.
  - destruct (JSON_parse E savedSession) as [v|msg]; [|discriminate].
    destruct (get_property v "currentChunk") as [cc|] eqn:Hcc; [|discriminate].
    destruct (truthy cc) eqn:Htc; [|discriminate].
    destruct (get_property v "chatHistory") as [ch|] eqn:Hch; [|discriminate].
    destruct (truthy ch) eqn:Hth; [|discriminate].
    intros [= <-]. split; [reflexivity|]. exists cc, ch. now rewrite Hcc, Hch.
  - intros (-> & cc & ch & -> & -> & -> & ->). reflexivity.
Qed.

(** A stored record is either offered and kept, or removed. *)
Lemma session_load_effect_found file localStorage savedSession :
  localStorage !! sessionKey file = Some savedSession →
  savedSession ≠ EmptyString →
  session_load_effect E (Some file) localStorage
  = match try_load_session E savedSession with
    | Some parsed => (localStorage, Some parsed)
    | None => (delete (sessionKey file) localStorage, None)
    end.
Proof.
  intros Hget Hne. unfold session_load_effect. rewrite Hget.
  destruct (String.eqb_spec savedSession EmptyString); [contradiction|reflexivity].
Qed.

End SessionLoad.

(** C1, the code at the failing input.  A stored record that parses to an
    object whose [currentChunk] is the number 0 is never offered for resume:
    the effect removes it from the store and clears the resumable session,
    whatever its other fields are. *)
Theorem session_at_chunk_zero_is_discarded (E : World.Environment)
    (file : App.File) (localStorage : gmap string string)
    (savedSession : string) (props : list (string * Json.json)) :
  localStorage !! App.sessionKey file = Some savedSession →
  savedSession ≠ EmptyString →
  World.JSON_parse E savedSession = Json.Parsed (Json.JObj props) →
  Json.own_property props "currentChunk" = Json.Val (Json.JNum 0) →
  App.session_load_effect E (Some file) localStorage
  = (delete (App.sessionKey file) localStorage, None).
Proof.
  intros Hget Hne Hparse Hchunk.
  rewrite (session_load_effect_found E file localStorage savedSession Hget Hne).
  unfold App.try_load_session. rewrite Hparse. simpl. rewrite Hchunk.
  reflexivity.
Qed.

(** The record that a fresh conversion writes before it submits chunk 0 is
    such a record: after a first submission that fails, the store holds it,
    and the next load discards it. *)
Lemma session_at_chunk_zero_is_discarded_witness :
  let file := {| App.file_name := "a.pdf"; App.file_size := 10 |} in
  let store :=
    World.w_store
      (App.handleConvert_try Samples.env_always_503 file None false false
         Samples.world0).1.2 in
  store !! App.sessionKey file = Some "session@0"
  ∧ Observe.snapshots
      (App.handleConvert_try Samples.env_always_503 file None false false
         Samples.world0).2
    = [{| World.currentChunk := 0; World.numPages := 12;
          World.chatHistory := []; World.allImages := [] |}]
  ∧ App.session_load_effect Samples.env_always_503 (Some file) store
    = (delete (App.sessionKey file) store, None).
Proof.
  intros file store.
  assert (Hget : store !! App.sessionKey file = Some "session@0")
    by (vm_compute; reflexivity).
  split; [exact Hget|]. split; [vm_compute; reflexivity|].
  apply (session_at_chunk_zero_is_discarded Samples.env_always_503 file store
           "session@0"
           [("currentChunk", Json.JNum 0); ("numPages", Json.JNum 12);
            ("chatHistory", Json.JArr []); ("allImages", Json.JArr [])]).
  - exact Hget.
  - discriminate.
  - reflexivity.
  - reflexivity.
Defined.

(** ** The packager *)

Section Packager.
Import EpubService Observe.

(** Induction on document trees, with the children of an element covered. *)
Lemma node_children_ind (P : node → Prop) :
  (∀ text, P (TextNode text)) →
  (∀ tag attrs children, Forall P children → P (Element tag attrs children)) →
  ∀ n, P n.
Proof.
  intros Htext Helem. fix IH 1. intros [text|tag attrs children].
  - apply Htext.
  - apply Helem. induction children as [|c cs IHcs]; constructor.
    + apply IH.
    + exact IHcs.
Qed.

Lemma getAttribute_setAttribute attrs name value :
  getAttribute (setAttribute attrs name value) name = Some value.
Proof.
  induction attrs as [|[k v] rest IH]; simpl.
  - now rewrite String.eqb_refl.
  - destruct (String.eqb k name) eqn:Hk; simpl; rewrite Hk; [reflexivity|exact IH].
Qed.

Lemma getAttribute_setAttribute_ne attrs name value other :
  other ≠ name →
  getAttribute (setAttribute attrs name value) other = getAttribute attrs other.
Proof.
  intros Hne. induction attrs as [|[k v] rest IH]; simpl.
  - destruct (String.eqb_spec name other); [congruence|reflexivity].
  - destruct (String.eqb_spec k name) as [->|Hk]; simpl.
    + destruct (String.eqb_spec name other); [congruence|reflexivity].
    + destruct (String.eqb k other); [reflexivity|exact IH].
Qed.

(** An image that is not inline changes nothing. *)
Lemma data_uri_not_inline src : not_inline src → data_uri src = None.
Proof.
  unfold not_inline, data_uri, header_of, payload_of.
  destruct src as [s|]; [|reflexivity].
  intros [->|[H|[H|[H|H]]]]; [reflexivity|..].
  - rewrite H. now rewrite andb_false_r.
  - destruct (negb _ && _); [|reflexivity]. now rewrite H.
  - destruct (negb _ && _); [|reflexivity]. rewrite H.
    now destruct (JsString.match_colon_semicolon _).
  - destruct (negb _ && _); [|reflexivity]. rewrite H.
    now destruct (JsString.match_colon_semicolon _).
Qed.

Lemma data_uri_inline src mimeType base64Data :
  data_uri src = Some (mimeType, base64Data) → ¬ not_inline src.
Proof. intros H Hn. apply data_uri_not_inline in Hn. congruence. Qed.

Lemma image_step_skip src st : data_uri src = None → image_step src st = (None, st).
Proof. unfold image_step. now intros ->. Qed.

Lemma length_image_loop srcs : ∀ st, length (image_loop srcs st).1 = length srcs.
Proof.
  induction srcs as [|src rest IH]; intros st; simpl; [reflexivity|].
  destruct (image_step src st) as [new st1]. specialize (IH st1).
  destruct (image_loop rest st1) as [news st2]. simpl in *. now rewrite IH.
Qed.

Lemma image_loop_app a : ∀ b st,
  image_loop (a ++ b) st
  = ((image_loop a st).1 ++ (image_loop b (image_loop a st).2).1,
     (image_loop b (image_loop a st).2).2).
Proof.
  induction a as [|src a IH]; intros b st; simpl.
  - now destruct (image_loop b st).
  - destruct (image_step src st) as [new st1]. rewrite IH.
    destruct (image_loop a st1) as [news st2]. simpl.
    now destruct (image_loop b st2).
Qed.

(** The loop in terms of the inline images alone. *)
Lemma image_loop_state srcs : ∀ st,
  (image_loop srcs st).2
  = {| imageCounter := imageCounter st + Z.of_nat (length (omap data_uri srcs));
       imageManifestItems :=
         imageManifestItems st
         ++ manifest_items (imageCounter st) (omap data_uri srcs);
       zip := add_image_files (imageCounter st) (omap data_uri srcs) (zip st) |}.
Proof.
  induction srcs as [|src rest IH]; intros st.
  - simpl. rewrite Z.add_0_r, app_nil_r. now destruct st.
  - simpl. unfold image_step.
    destruct (data_uri src) as [[mimeType base64Data]|] eqn:Huri.
    + specialize (IH {| imageCounter := imageCounter st + 1;
                        imageManifestItems :=
                          imageManifestItems st
                          ++ [manifest_item (imageCounter st)
                                (image_filename (imageCounter st) mimeType)
                                mimeType];
                        zip := zip_file "OEBPS/images/"
                                 (image_filename (imageCounter st) mimeType)
                                 base64Data None true (zip st) |}).
      destruct (image_loop rest _) as [news st2]. simpl in *. rewrite IH.
      rewrite <- app_assoc. f_equal. unfold omap. lia.
    + specialize (IH st). destruct (image_loop rest st) as [news st2].
      simpl in *. exact IH.
Qed.

Lemma rewrite_images_Element t attrs cs st :
  rewrite_images (Element t attrs cs) st
  = let '(attrs1, st1) :=
      if String.eqb t "img" then
        match image_step (getAttribute attrs "src") st with
        | (Some new_src, st') => (setAttribute attrs "src" new_src, st')
        | (None, st') => (attrs, st')
        end
      else (attrs, st) in
    let '(cs1, st2) := rewrite_children cs st1 in
    (Element t attrs1 cs1, st2).
Proof. reflexivity. Qed.

Lemma append_to_head_Element link t attrs cs :
  append_to_head link (Element t attrs cs)
  = if String.eqb t "head" then (Element t attrs (cs ++ [link]), true)
    else let '(cs1, found) := append_in_children link cs in
         (Element t attrs cs1, found).
Proof. reflexivity. Qed.

Lemma srcs_of_Element t attrs cs :
  srcs_of (Element t attrs cs)
  = (if String.eqb t "img" then [getAttribute attrs "src"] else [])
    ++ srcs_of_list cs.
Proof.
  unfold srcs_of, srcs_of_list. cbn [querySelectorAll_img].
  rewrite fmap_app. f_equal; [now destruct (String.eqb t "img")|].
  induction cs as [|c cs IH]; [reflexivity|].
  cbn [List.map List.concat]. rewrite fmap_app, IH. reflexivity.
Qed.

Lemma select_toc_links_Element seen t attrs cs :
  select_toc_links seen (Element t attrs cs)
  = (if (seen =? 3)%nat && String.eqb t "a" then [Element t attrs cs] else [])
    ++ toc_links_of_list (descend seen t) cs.
Proof.
  unfold toc_links_of_list. cbn [select_toc_links]. reflexivity.
Qed.

(** The tree walk and the loop over the selected images agree: same final
    variables, and each image ends with the [src] the loop gave it. *)
Lemma rewrite_images_agree : ∀ n st,
  (rewrite_images n st).2 = (image_loop (srcs_of n) st).2
  ∧ srcs_of (rewrite_images n st).1
    = zip_with src_after (srcs_of n) (image_loop (srcs_of n) st).1.
Proof.
  induction n as [text|t attrs cs IH] using node_children_ind; intros st.
  - now split.
  - assert (Hcs : ∀ st,
      (rewrite_children cs st).2 = (image_loop (srcs_of_list cs) st).2
      ∧ srcs_of_list (rewrite_children cs st).1
        = zip_with src_after (srcs_of_list cs)
            (image_loop (srcs_of_list cs) st).1).
    { clear st. induction IH as [|c cs Hc _ IHcs]; intros st; [now split|].
      unfold srcs_of_list in *. cbn [rewrite_children].
      rewrite fmap_cons, concat_cons, image_loop_app.
      destruct (Hc st) as [Hc1 Hc2].
      destruct (rewrite_images c st) as [c1 st1]. cbn [fst snd] in *.
      rewrite <- Hc1. destruct (IHcs st1) as [Hr1 Hr2].
      destruct (rewrite_children cs st1) as [cs1 st2]. cbn [fst snd] in *.
      split; [exact Hr1|].
      rewrite fmap_cons, concat_cons, Hc2, Hr2.
      rewrite zip_with_app; [reflexivity|].
      now rewrite length_image_loop. }
    rewrite rewrite_images_Element, srcs_of_Element.
    destruct (String.eqb t "img") eqn:Himg.
    + cbn [app image_loop].
      destruct (image_step (getAttribute attrs "src") st) as [new st1].
      destruct (Hcs st1) as [H1 H2].
      destruct (image_loop (srcs_of_list cs) st1) as [news st2] eqn:Hloop.
      cbn [fst snd] in *.
      destruct new as [new_src|];
        destruct (rewrite_children cs st1) as [cs1 st2'];
        cbn [fst snd] in *; (split; [exact H1|]);
        rewrite srcs_of_Element, Himg, H2; cbn [app zip_with src_after];
        [now rewrite getAttribute_setAttribute|reflexivity].
    + cbn [app]. destruct (Hcs st) as [H1 H2].
      destruct (rewrite_children cs st) as [cs1 st2]. cbn [fst snd] in *.
      split; [exact H1|]. now rewrite srcs_of_Element, Himg, H2.
Qed.

Lemma tag_a_not_img t : String.eqb t "a" = true → String.eqb t "img" = false.
Proof. intros H. apply String.eqb_eq in H. now subst t. Qed.

(** Rewriting image sources changes no text. *)
Lemma textContent_rewrite : ∀ n st,
  textContent (rewrite_images n st).1 = textContent n.
Proof.
  induction n as [text|t attrs cs IH] using node_children_ind; intros st;
    [reflexivity|].
  rewrite rewrite_images_Element.
  match goal with |- context [let '(_, _) := ?x in _] =>
    destruct x as [attrs1 st1] end.
  assert (Hcs : ∀ st, List.map textContent (rewrite_children cs st).1
                      = List.map textContent cs).
  { clear st st1. induction IH as [|c cs Hc _ IHcs]; intros st; [reflexivity|].
    cbn [rewrite_children]. specialize (Hc st).
    destruct (rewrite_images c st) as [c1 st1]. specialize (IHcs st1).
    destruct (rewrite_children cs st1) as [cs1 st2]. cbn [fst snd List.map] in *.
    now rewrite Hc, IHcs. }
  specialize (Hcs st1). destruct (rewrite_children cs st1) as [cs1 st2].
  cbn [fst snd textContent] in *. now rewrite Hcs.
Qed.

(** ... and shows the same TOC links to the navigation builder. *)
Lemma toc_links_rewrite : ∀ n seen st,
  link_view <$> select_toc_links seen (rewrite_images n st).1
  = link_view <$> select_toc_links seen n.
Proof.
  induction n as [text|t attrs cs IH] using node_children_ind; intros seen st;
    [reflexivity|].
  pose proof (textContent_rewrite (Element t attrs cs) st) as Htext.
  rewrite rewrite_images_Element in Htext |- *.
  assert (Hattrs : String.eqb t "a" = true →
            (if String.eqb t "img" then
               match image_step (getAttribute attrs "src") st with
               | (Some new_src, st') => (setAttribute attrs "src" new_src, st')
               | (None, st') => (attrs, st')
               end
             else (attrs, st)) = (attrs, st)).
  { intros Ha. now rewrite (tag_a_not_img t Ha). }
  match type of Hattrs with _ → ?x = _ => destruct x as [attrs1 st1] end.
  assert (Hcs : ∀ seen st,
            link_view <$> toc_links_of_list seen (rewrite_children cs st).1
            = link_view <$> toc_links_of_list seen cs).
  { clear -IH.
    induction IH as [|c cs Hc _ IHcs]; intros seen st; [reflexivity|].
    cbn [rewrite_children]. specialize (Hc seen st).
    destruct (rewrite_images c st) as [c1 st1]. specialize (IHcs seen st1).
    destruct (rewrite_children cs st1) as [cs1 st2].
    unfold toc_links_of_list in *. cbn [fst snd] in *.
    rewrite !fmap_cons, !concat_cons, !fmap_app. now rewrite Hc, IHcs. }
  specialize (Hcs (descend seen t) st1).
  destruct (rewrite_children cs st1) as [cs1 st2]. cbn [fst snd] in *.
  rewrite !select_toc_links_Element, !fmap_app, Hcs. f_equal.
  destruct ((seen =? 3)%nat && String.eqb t "a") eqn:Ha; [|reflexivity].
  apply andb_true_iff in Ha as [_ Ha]. injection (Hattrs Ha) as -> _.
  cbn [fmap list_fmap]. unfold link_view. now rewrite Htext.
Qed.

Lemma string_app_empty_r x : x +:+ EmptyString = x.
Proof.
  induction x as [|c x IH]; [reflexivity|].
  change (String c x +:+ EmptyString) with (String c (x +:+ EmptyString)).
  now rewrite IH.
Qed.

Lemma concat_text_end l :
  String.concat EmptyString (l ++ [EmptyString]) = String.concat EmptyString l.
Proof.
  induction l as [|x l IH]; [reflexivity|].
  destruct l as [|y l].
  - cbn. apply string_app_empty_r.
  - change ((x :: y :: l) ++ [EmptyString])
      with (x :: (y :: l) ++ [EmptyString]).
    change (String.concat EmptyString (x :: (y :: l) ++ [EmptyString]))
      with (x +:+ EmptyString
            +:+ String.concat EmptyString ((y :: l) ++ [EmptyString])).
    now rewrite IH.
Qed.

(** Appending the stylesheet link changes no text. *)
Lemma textContent_append : ∀ n,
  textContent (append_to_head stylesheet_link n).1 = textContent n.
Proof.
  induction n as [text|t attrs cs IH] using node_children_ind; [reflexivity|].
  rewrite append_to_head_Element.
  destruct (String.eqb t "head").
  - cbn [fst textContent]. rewrite List.map_app. cbn [List.map].
    change (textContent stylesheet_link) with EmptyString.
    apply concat_text_end.
  - assert (Hcs : List.map textContent (append_in_children stylesheet_link cs).1
                  = List.map textContent cs).
    { induction IH as [|c cs Hc _ IHcs]; [reflexivity|].
      cbn [append_in_children].
      destruct (append_to_head stylesheet_link c) as [c1 [|]];
        cbn [fst List.map] in *; [now rewrite Hc|].
      destruct (append_in_children stylesheet_link cs) as [cs1 found].
      cbn [fst List.map] in *. now rewrite IHcs. }
    destruct (append_in_children stylesheet_link cs) as [cs1 found].
    cbn [fst textContent] in *. now rewrite Hcs.
Qed.

Lemma select_stylesheet_link seen : select_toc_links seen stylesheet_link = [].
Proof.
  unfold stylesheet_link. rewrite select_toc_links_Element.
  change (String.eqb "link" "a") with false. now rewrite andb_false_r.
Qed.

Lemma toc_links_append : ∀ n seen,
  link_view <$> select_toc_links seen (append_to_head stylesheet_link n).1
  = link_view <$> select_toc_links seen n.
Proof.
  induction n as [text|t attrs cs IH] using node_children_ind; intros seen;
    [reflexivity|].
  pose proof (textContent_append (Element t attrs cs)) as Htext.
  rewrite append_to_head_Element in Htext |- *.
  destruct (String.eqb t "head") eqn:Hhead.
  - cbn [fst] in *. apply String.eqb_eq in Hhead. subst t.
    rewrite !select_toc_links_Element. rewrite andb_false_r.
    unfold toc_links_of_list. cbn [app]. f_equal.
    rewrite (fmap_app _ cs), concat_app.
    cbn [fmap list_fmap concat]. rewrite select_stylesheet_link.
    now rewrite !app_nil_r.
  - assert (Hcs : ∀ seen,
              link_view <$> toc_links_of_list seen
                              (append_in_children stylesheet_link cs).1
              = link_view <$> toc_links_of_list seen cs).
    { clear -IH. induction IH as [|c cs Hc _ IHcs]; intros seen; [reflexivity|].
      cbn [append_in_children]. specialize (Hc seen).
      unfold toc_links_of_list in *.
      destruct (append_to_head stylesheet_link c) as [c1 [|]]; cbn [fst] in *.
      - rewrite !fmap_cons, !concat_cons, !fmap_app. now rewrite Hc.
      - specialize (IHcs seen).
        destruct (append_in_children stylesheet_link cs) as [cs1 found].
        cbn [fst] in *.
        rewrite !fmap_cons, !concat_cons, !fmap_app. now rewrite IHcs. }
    specialize (Hcs (descend seen t)).
    destruct (append_in_children stylesheet_link cs) as [cs1 found].
    cbn [fst] in *.
    rewrite !select_toc_links_Element, !fmap_app, Hcs. f_equal.
    destruct ((seen =? 3)%nat && String.eqb t "a"); [|reflexivity].
    cbn [fmap list_fmap]. unfold link_view. now rewrite Htext.
Qed.

Lemma navPoint_link_view index a b :
  link_view a = link_view b → navPoint index a = navPoint index b.
Proof.
  unfold link_view, navPoint. intros [= Htext Hhref]. now rewrite Htext, Hhref.
Qed.

Lemma imap_navPoint_view : ∀ l1 l2 k,
  link_view <$> l1 = link_view <$> l2 →
  imap (λ i, navPoint (k + i)) l1 = imap (λ i, navPoint (k + i)) l2.
Proof.
  induction l1 as [|a l1 IH]; intros [|b l2] k H; try discriminate; [reflexivity|].
  rewrite !fmap_cons in H.
  assert (Hab : link_view a = link_view b) by congruence.
  assert (Hrest : link_view <$> l1 = link_view <$> l2) by congruence.
  cbn [imap]. rewrite (navPoint_link_view _ a b Hab). f_equal.
  specialize (IH l2 (S k) Hrest).
  erewrite imap_ext; [erewrite IH; apply imap_ext|]; intros; simpl; f_equal; lia.
Qed.

(** The navigation entries are those of the TOC links of the input. *)
Lemma navPoints_of_input doc :
  navPoints doc = imap navPoint (querySelectorAll_toc doc).
Proof.
  unfold navPoints, final_document, querySelectorAll_toc.
  apply (imap_navPoint_view _ _ 0%nat).
  rewrite toc_links_append. apply toc_links_rewrite.
Qed.


(** What the loop hands back for the image at position [j]. *)
Lemma image_loop_lookup srcs : ∀ j src st,
  srcs !! j = Some src →
  (image_loop srcs st).1 !! j
  = Some (match data_uri src with
          | Some (mimeType, _) =>
              Some ("images/" +:+
                    image_filename
                      (imageCounter st
                       + Z.of_nat (length (omap data_uri (take j srcs))))
                      mimeType)
          | None => None
          end).
Proof.
  induction srcs as [|src0 rest IH]; intros j src st Hj; [discriminate|].
  cbn [image_loop]. destruct j as [|j].
  - injection Hj as ->. unfold image_step.
    destruct (data_uri src) as [[mimeType base64Data]|];
      destruct (image_loop rest _) as [news st2]; cbn;
      rewrite ?Z.add_0_r; reflexivity.
  - cbn [lookup list_lookup] in Hj. unfold image_step.
    destruct (data_uri src0) as [[mimeType0 base64Data0]|] eqn:H0.
    + match goal with |- context [image_loop rest ?st1] =>
        specialize (IH j src st1 Hj); destruct (image_loop rest st1) as [news st2]
      end.
      cbn [fst lookup list_lookup take omap list_omap] in *.
      etransitivity; [exact IH|].
      unfold omap in *. rewrite H0. cbn [imageCounter length].
      destruct (data_uri src) as [[mimeType _]|]; [|reflexivity].
      do 4 f_equal. lia.
    + specialize (IH j src st Hj). destruct (image_loop rest st) as [news st2].
      cbn [fst lookup list_lookup take omap list_omap] in *.
      etransitivity; [exact IH|]. unfold omap in *. now rewrite H0.
Qed.

Lemma includes_comma_cons c s :
  JsString.includes (String c s) "," = false →
  Ascii.eqb c "," = false ∧ JsString.includes s "," = false.
Proof.
  cbn [JsString.includes JsString.startsWith]. intros H.
  apply orb_false_iff in H as [H1 H2]. split; [|exact H2].
  rewrite Ascii.eqb_sym. now destruct (Ascii.eqb "," c).
Qed.

Lemma split_no_comma s :
  JsString.includes s "," = false → JsString.split "," s = [s].
Proof.
  induction s as [|c s IH]; intros H; [reflexivity|].
  apply includes_comma_cons in H as [Hc Hs].
  cbn [JsString.split]. now rewrite Hc, (IH Hs).
Qed.

Lemma split_at_comma pre s :
  JsString.includes pre "," = false →
  JsString.split "," (pre +:+ String "," s) = pre :: JsString.split "," s.
Proof.
  induction pre as [|c pre IH]; intros H; [reflexivity|].
  apply includes_comma_cons in H as [Hc Hs].
  change (String c pre +:+ String "," s) with (String c (pre +:+ String "," s)).
  cbn [JsString.split]. now rewrite Hc, (IH Hs).
Qed.

(** An inline PNG with a payload is accepted with that payload. *)
Lemma data_uri_png payload :
  payload ≠ EmptyString → JsString.includes payload "," = false →
  data_uri (Some ("data:image/png;base64," +:+ payload))
  = Some ("image/png", payload).
Proof.
  intros Hne Hcomma. unfold data_uri.
  change ("data:image/png;base64," +:+ payload)
    with ("data:image/png;base64" +:+ String "," payload).
  rewrite split_at_comma by reflexivity.
  rewrite (split_no_comma payload Hcomma).
  change (String.eqb ("data:image/png;base64" +:+ String "," payload) EmptyString)
    with false.
  change (JsString.startsWith ("data:image/png;base64" +:+ String "," payload)
            "data:") with true.
  cbn [negb andb lookup list_lookup default].
  change (JsString.match_colon_semicolon "data:image/png;base64")
    with (Some "image/png").
  destruct (String.eqb_spec payload EmptyString); [contradiction|reflexivity].
Qed.

(** The variables of the image loop when it ends, from the images that
    pass the test. *)
Lemma images_result_state doc :
  imageManifestItems (images_result doc).2
  = manifest_items 0 (omap data_uri (srcs_of doc))
  ∧ zip (images_result doc).2
    = add_image_files 0 (omap data_uri (srcs_of doc)) zip_skeleton.
Proof.
  unfold images_result.
  rewrite (proj1 (rewrite_images_agree doc _)), image_loop_state.
  now split.
Qed.

End Packager.




(** C7 (as the code has it).  For a document in which exactly two images
    pass the packager's test, both of type image/png, and whose TOC has three
    links: the archive has the eleven entries listed, [mimetype] first,
    stored with compression STORE and content [application/epub+zip]; under
    [OEBPS/images/] there are exactly two files, [image0.png] and
    [image1.png], holding the two payloads; the manifest lists exactly these
    two after its three fixed items; and [toc.ncx] holds three [navPoint]s,
    one per TOC link in TOC order, numbered 1, 2, 3. *)
Theorem epub_archive_two_images_three_links (innerHTML : EpubService.node → string)
    (doc : EpubService.node) (title payload1 payload2 : string)
    (a1 a2 a3 : EpubService.node) :
  omap EpubService.data_uri (Observe.srcs_of doc)
  = [("image/png", payload1); ("image/png", payload2)] →
  EpubService.querySelectorAll_toc doc = [a1; a2; a3] →
  let archive := EpubService.generateEpub innerHTML doc title in
  let bookTitle := EpubService.bookTitle doc title in
  let item0 := EpubService.manifest_item 0 "image0.png" "image/png" in
  let item1 := EpubService.manifest_item 1 "image1.png" "image/png" in
  let file name data compression base64 :=
    {| EpubService.entry_name := name; EpubService.entry_data := data;
       EpubService.entry_dir := false;
       EpubService.entry_compression := compression;
       EpubService.entry_base64 := base64 |} in
  EpubService.entry_name <$> archive
  = ["mimetype"; "META-INF/"; "META-INF/container.xml"; "OEBPS/";
     "OEBPS/images/"; "OEBPS/images/image0.png"; "OEBPS/images/image1.png";
     "OEBPS/style.css"; "OEBPS/toc.ncx"; "OEBPS/content.xhtml";
     "OEBPS/content.opf"]
  ∧ archive !! 0%nat
    = Some (file "mimetype" "application/epub+zip" (Some "STORE") false)
  ∧ Observe.image_files archive
    = [file "OEBPS/images/image0.png" payload1 None true;
       file "OEBPS/images/image1.png" payload2 None true]
  ∧ EpubService.imageManifestItems (EpubService.images_result doc).2
    = [item0; item1]
  ∧ archive !! 10%nat
    = Some (file "OEBPS/content.opf"
              (EpubService.createContentOpf bookTitle
                 (item0 +:+ EpubService.nl +:+ item1)) None false)
  ∧ EpubService.navPoints doc
    = [EpubService.navPoint 0 a1; EpubService.navPoint 1 a2;
       EpubService.navPoint 2 a3]
  ∧ archive !! 8%nat
    = Some (file "OEBPS/toc.ncx"
              (EpubService.createTocNcx bookTitle
                 (EpubService.navPoint 0 a1 +:+ EpubService.nl
                  +:+ EpubService.navPoint 1 a2 +:+ EpubService.nl
                  +:+ EpubService.navPoint 2 a3)) None false).
Proof.
  intros Hinline Htoc archive bookTitle item0 item1 file.
  destruct (images_result_state doc) as (Hitems & Hzip).
  rewrite Hinline in Hitems, Hzip.
  assert (Hnav : EpubService.navPoints doc
                 = [EpubService.navPoint 0 a1; EpubService.navPoint 1 a2;
                    EpubService.navPoint 2 a3]).
  { now rewrite navPoints_of_input, Htoc. }
  subst archive. unfold EpubService.generateEpub.
  rewrite Hnav, Hitems, Hzip. fold bookTitle.
  repeat split; vm_compute; reflexivity.
Qed.

Lemma epub_archive_two_images_three_links_witness :
  length (Observe.image_files
            (EpubService.generateEpub (λ _, "<head/><body/>")
               Samples.sample_book "fallback")) = 2%nat
  ∧ length (EpubService.navPoints Samples.sample_book) = 3%nat.
Proof.
  destruct (epub_archive_two_images_three_links (λ _, "<head/><body/>")
              Samples.sample_book "fallback" "AAAA" "BBBB"
              (Samples.toc_link "#one" "One") (Samples.toc_link "#two" "Two")
              (Samples.toc_link "#three" "Three"))
    as (_ & _ & Hfiles & _ & _ & Hnav & _).
  - vm_compute. reflexivity.
  - vm_compute. reflexivity.
  - rewrite Hfiles, Hnav. split; reflexivity.
Defined.

(** C7, counterexample to the claim as stated: a document with exactly two
    inline PNG images and three TOC links yields two image files under
    [OEBPS/images/], not three, and two image items in the manifest. *)
Lemma epub_two_inline_images_give_two_files :
  Observe.srcs_of Samples.sample_book
  = [Some "data:image/png;base64,AAAA"; Some "data:image/png;base64,BBBB"]
  ∧ length (EpubService.querySelectorAll_toc Samples.sample_book) = 3%nat
  ∧ EpubService.entry_name
      <$> Observe.image_files
            (EpubService.generateEpub (λ _, "<head/><body/>")
               Samples.sample_book "fallback")
    = ["OEBPS/images/image0.png"; "OEBPS/images/image1.png"]
  ∧ length (Observe.image_files
              (EpubService.generateEpub (λ _, "<head/><body/>")
                 Samples.sample_book "fallback")) ≠ 3%nat
  ∧ length (EpubService.imageManifestItems
              (EpubService.images_result Samples.sample_book).2) ≠ 3%nat.
Proof. repeat split; vm_compute; (reflexivity || discriminate). Qed.

(** ** Further properties of the retrying send *)

Section RetryRuns.
Import Json World GeminiService Observe.
Variable E : Environment.
Variable m : SendMessageParameters.

Ltac stop_here Hs :=
  eexists _, _, 0%nat; split; [lia|]; split; [reflexivity|];
  cbn [w_store w_history w_sent w_random]; rewrite ?Nat.add_0_r;
  repeat split; try solve [reflexivity | lia | exact Hs | intros; lia]; auto.

(** Anatomy of a run of the loop: [n] retriable failures, each followed by
    its wait, then the attempt whose answer is the outcome. *)
Lemma retry_loop_run : ∀ left attempt delay w,
  MAX_RETRIES - 1 ≤ attempt + Z.of_nat left →
  ∃ r w' n,
    (n ≤ left)%nat
    ∧ retry_loop E m (S left) attempt delay w
      = (r, w', retry_trace m (backoff E (w_random w) n delay))
    ∧ w_store w' = w_store w
    ∧ w_sent w' = (w_sent w + S n)%nat
    ∧ w_random w' = (w_random w + n)%nat
    ∧ (∀ k, (k < n)%nat → retriable_failure E (w_sent w + k))
    ∧ match r with
      | Returned response =>
          service E (w_sent w + n) = Replied response
          ∧ w_history w' = w_history w ++ [UserContent (message m);
                                           ModelContent response]
      | Thrown err =>
          service E (w_sent w + n) = Rejected err
          ∧ w_history w' = w_history w
          ∧ (is_quota_error err = true ∨ isRetriableError err = false
             ∨ MAX_RETRIES - 1 ≤ attempt + Z.of_nat n)
      end.
Proof.
  induction left as [|left IH]; intros attempt delay w Hatt.
  - simpl. unfold try_catch, chat_sendMessage.
    destruct (service E (w_sent w)) as [r|err] eqn:Hs.
    { stop_here Hs. }
    replace (attempt <? MAX_RETRIES - 1) with false
      by (symmetry; apply Z.ltb_ge; lia).
    rewrite andb_false_r.
    destruct (is_quota_error err) eqn:Hq; stop_here Hs.
  - change (retry_loop E m (S (S left)) attempt delay w)
      with (try_catch (chat_sendMessage E m) (λ err,
              if is_quota_error err then throw err
              else if isRetriableError err && (attempt <? MAX_RETRIES - 1) then
                bind (sleep delay) (λ _,
                  bind (random_below_1000 E) (λ jitter,
                    retry_loop E m (S left) (attempt + 1) (delay * 2 + jitter)))
              else throw err) w).
    unfold try_catch, chat_sendMessage.
    destruct (service E (w_sent w)) as [r|err] eqn:Hs.
    { stop_here Hs. }
    destruct (is_quota_error err) eqn:Hq.
    { stop_here Hs. }
    destruct (isRetriableError err) eqn:Hr; cbn [andb].
    2:{ stop_here Hs. }
    destruct (attempt <? MAX_RETRIES - 1) eqn:Hlt.
    2:{ apply Z.ltb_ge in Hlt. stop_here Hs. }
    unfold bind, sleep, emit, random_below_1000.
    cbn [w_store w_history w_sent w_random].
    match goal with |- context [retry_loop E m (S left) ?a ?d ?w1] =>
      destruct (IH a d w1 ltac:(lia))
        as (r & w' & n & Hn & -> & Hstore & Hsent & Hrand & Hfail & Hout)
    end.
    cbn [w_store w_history w_sent w_random] in *.
    exists r, w', (S n).
    split; [lia|]. split; [reflexivity|]. split; [exact Hstore|].
    split; [lia|]. split; [lia|]. split.
    { intros [|k] Hk.
      - rewrite Nat.add_0_r. exists err. auto.
      - replace (w_sent w + S k)%nat with (S (w_sent w) + k)%nat by lia.
        apply Hfail. lia. }
    replace (w_sent w + S n)%nat with (S (w_sent w) + n)%nat by lia.
    destruct r as [response|err']; [exact Hout|].
    destruct Hout as (H1 & H2 & H3). split; [exact H1|]. split; [exact H2|].
    destruct H3 as [H3|[H3|H3]]; auto. right. right. lia.
Qed.

(** The sum of the waits of a back-off sequence of at most six delays that
    starts at three seconds. *)
Lemma backoff_total : ∀ r n,
  (n ≤ 6)%nat →
  0 ≤ foldr Z.add 0 (backoff E r n INITIAL_DELAY_MS) ≤ 245943
  ∧ (n = 6%nat → 189000 ≤ foldr Z.add 0 (backoff E r n INITIAL_DELAY_MS)).
Proof.
  intros r n Hn. unfold INITIAL_DELAY_MS.
  pose proof (Z.mod_pos_bound (random_source E r) 1000 ltac:(lia)).
  pose proof (Z.mod_pos_bound (random_source E (S r)) 1000 ltac:(lia)).
  pose proof (Z.mod_pos_bound (random_source E (S (S r))) 1000 ltac:(lia)).
  pose proof (Z.mod_pos_bound (random_source E (S (S (S r)))) 1000 ltac:(lia)).
  pose proof (Z.mod_pos_bound (random_source E (S (S (S (S r))))) 1000 ltac:(lia)).
  do 7 (destruct n as [|n]; [cbn [backoff foldr]; lia|]). lia.
Qed.

End RetryRuns.

(** X1. Every call of [sendMessageWithRetry] makes between one and seven
    attempts with the same message; each attempt but the last is followed by
    one wait, and the waits are the first [n] delays of the back-off sequence
    that starts at 3000 ms and doubles with a jitter below one second.  The
    call leaves the store alone, and draws one random number per wait. *)
Theorem retry_run_follows_backoff (E : World.Environment)
    (m : World.SendMessageParameters) (w : World.world) :
  ∃ r w' n,
    (n ≤ 6)%nat
    ∧ GeminiService.sendMessageWithRetry E m w
      = (r, w', Observe.retry_trace m
                  (Observe.backoff E (World.w_random w) n
                     GeminiService.INITIAL_DELAY_MS))
    ∧ World.w_store w' = World.w_store w
    ∧ World.w_sent w' = (World.w_sent w + S n)%nat
    ∧ World.w_random w' = (World.w_random w + n)%nat.
Proof.
  destruct (retry_loop_run E m 6 0 GeminiService.INITIAL_DELAY_MS w)
    as (r & w' & n & Hn & Hrun & Hstore & Hsent & Hrand & _).
  { unfold GeminiService.MAX_RETRIES. lia. }
  exists r, w', n. repeat split; assumption.
Qed.

(** X2. The outcome of [sendMessageWithRetry] is always the answer of the
    service to its last attempt, reached after [n <= 6] failures that were
    all retriable: a reply is returned and recorded once in the history; an
    error is rethrown unchanged, with the history as it was, and only if it
    is a quota error, is not retriable, or ended the seventh attempt.  The
    loop never falls through to its own [Exceeded maximum retries] error. *)
Theorem retry_outcome_is_the_last_answer (E : World.Environment)
    (m : World.SendMessageParameters) (w : World.world) :
  ∃ n,
    (n ≤ 6)%nat
    ∧ (∀ k, (k < n)%nat → Observe.retriable_failure E (World.w_sent w + k))
    ∧ match GeminiService.sendMessageWithRetry E m w with
      | (World.Returned response, w', _) =>
          World.service E (World.w_sent w + n) = World.Replied response
          ∧ World.w_history w'
            = World.w_history w ++ [World.UserContent (World.message m);
                                    World.ModelContent response]
      | (World.Thrown err, w', _) =>
          World.service E (World.w_sent w + n) = World.Rejected err
          ∧ World.w_history w' = World.w_history w
          ∧ (GeminiService.is_quota_error err = true
             ∨ GeminiService.isRetriableError err = false
             ∨ n = 6%nat)
      end.
Proof.
  destruct (retry_loop_run E m 6 0 GeminiService.INITIAL_DELAY_MS w)
    as (r & w' & n & Hn & Hrun & _ & _ & _ & Hfail & Hout).
  { unfold GeminiService.MAX_RETRIES. lia. }
  exists n. split; [exact Hn|]. split; [exact Hfail|].
  unfold GeminiService.sendMessageWithRetry.
  change (Z.to_nat GeminiService.MAX_RETRIES) with 7%nat. rewrite Hrun.
  destruct r as [response|err]; [exact Hout|].
  destruct Hout as (H1 & H2 & H3). split; [exact H1|]. split; [exact H2|].
  destruct H3 as [H3|[H3|H3]]; auto.
  right. right. unfold GeminiService.MAX_RETRIES in H3. lia.
Qed.

(** X3. Recovery: when the service fails [n <= 6] times with retriable
    errors and then replies, [sendMessageWithRetry] returns that reply after
    exactly [n] waits, and the history gains the message and the reply
    once, whatever the failed attempts were. *)
Theorem retry_recovers_after_failures (E : World.Environment)
    (m : World.SendMessageParameters) (w : World.world) (n : nat)
    (response : World.GenerateContentResponse) :
  (n ≤ 6)%nat →
  (∀ k, (k < n)%nat → Observe.retriable_failure E (World.w_sent w + k)) →
  World.service E (World.w_sent w + n) = World.Replied response →
  GeminiService.sendMessageWithRetry E m w
  = (World.Returned response,
     {| World.w_store := World.w_store w;
        World.w_history :=
          World.w_history w ++ [World.UserContent (World.message m);
                                World.ModelContent response];
        World.w_sent := (World.w_sent w + S n)%nat;
        World.w_random := (World.w_random w + n)%nat |},
     Observe.retry_trace m
       (Observe.backoff E (World.w_random w) n GeminiService.INITIAL_DELAY_MS)).
Proof.
  intros Hn Hfail Hreply.
  destruct (retry_loop_run E m 6 0 GeminiService.INITIAL_DELAY_MS w)
    as (r & w' & n' & Hn' & Hrun & Hstore & Hsent & Hrand & Hfail' & Hout).
  { unfold GeminiService.MAX_RETRIES. lia. }
  unfold GeminiService.sendMessageWithRetry.
  change (Z.to_nat GeminiService.MAX_RETRIES) with 7%nat. rewrite Hrun.
  assert (n' = n) as ->.
  { destruct (lt_eq_lt_dec n' n) as [[Hlt|Heq]|Hgt]; [|exact Heq|].
    - destruct (Hfail n' Hlt) as (err & Hs & Hq & Hr).
      destruct r as [response'|err'].
      + destruct Hout as [Hout _]. congruence.
      + destruct Hout as (Hout & _ & Hwhy).
        assert (err' = err) as -> by congruence.
        unfold GeminiService.MAX_RETRIES in Hwhy.
        destruct Hwhy as [Hwhy|[Hwhy|Hwhy]]; [congruence|congruence|lia].
    - destruct (Hfail' n Hgt) as (err & Hs & _). congruence. }
  destruct r as [response'|err'].
  - destruct Hout as [Hout Hhist].
    assert (response' = response) as -> by congruence.
    destruct w'; simpl in *. subst. reflexivity.
  - destruct Hout as [Hout _]. congruence.
Qed.

Lemma retry_recovers_after_failures_witness :
  GeminiService.sendMessageWithRetry
    (Samples.env_with (λ k, if (k <? 2)%nat then World.Rejected Samples.error_503
                            else World.Replied {| World.response_text := Some "ok" |}))
    Samples.hello Samples.world0
  = (World.Returned {| World.response_text := Some "ok" |},
     {| World.w_store := World.w_store Samples.world0;
        World.w_history :=
          World.w_history Samples.world0
          ++ [World.UserContent (World.message Samples.hello);
              World.ModelContent {| World.response_text := Some "ok" |}];
        World.w_sent := (World.w_sent Samples.world0 + 3)%nat;
        World.w_random := (World.w_random Samples.world0 + 2)%nat |},
     Observe.retry_trace Samples.hello
       (Observe.backoff
          (Samples.env_with (λ k, if (k <? 2)%nat then World.Rejected Samples.error_503
                            else World.Replied {| World.response_text := Some "ok" |}))
          (World.w_random Samples.world0) 2 GeminiService.INITIAL_DELAY_MS)).
Proof.
  apply (retry_recovers_after_failures _ Samples.hello Samples.world0 2).
  - lia.
  - intros k Hk. exists Samples.error_503.
    destruct k as [|[|k]]; [| |lia]; vm_compute; repeat split; reflexivity.
  - reflexivity.
Defined.

(** X4. The waits of one call of [sendMessageWithRetry] add up to at most
    245943 ms, whatever the service and the random numbers do; a call that
    uses all seven attempts has waited at least 189000 ms. *)
Theorem retry_total_wait_is_bounded (E : World.Environment)
    (m : World.SendMessageParameters) (w : World.world) :
  let waits :=
    Observe.timeouts (GeminiService.sendMessageWithRetry E m w).2 in
  0 ≤ foldr Z.add 0 waits ≤ 245943
  ∧ (length waits ≤ 6)%nat
  ∧ (length waits = 6%nat → 189000 ≤ foldr Z.add 0 waits).
Proof.
  destruct (retry_loop_run E m 6 0 GeminiService.INITIAL_DELAY_MS w)
    as (r & w' & n & Hn & Hrun & _).
  { unfold GeminiService.MAX_RETRIES. lia. }
  unfold GeminiService.sendMessageWithRetry.
  change (Z.to_nat GeminiService.MAX_RETRIES) with 7%nat. rewrite Hrun.
  cbn [snd]. rewrite timeouts_retry_trace, length_backoff.
  destruct (backoff_total E (World.w_random w) n Hn) as [Hsum Hfull].
  split; [exact Hsum|]. split; [exact Hn|exact Hfull].
Qed.

(** ** Further properties of texts *)

Section Texts.
Import JsString Text.

Lemma string_app_cons c x y : String c x +:+ y = String c (x +:+ y).
Proof. reflexivity. Qed.

Lemma string_app_assoc x y z : (x +:+ y) +:+ z = x +:+ (y +:+ z).
Proof.
  induction x as [|c x IH]; [reflexivity|].
  rewrite !string_app_cons. now rewrite IH.
Qed.

Lemma length_string_app x y :
  String.length (x +:+ y) = (String.length x + String.length y)%nat.
Proof.
  induction x as [|c x IH]; [reflexivity|].
  rewrite string_app_cons. simpl. now rewrite IH.
Qed.

Lemma trimStart_spaces ws x :
  all_space ws = true → trimStart (ws +:+ x) = trimStart x.
Proof.
  induction ws as [|c ws IH]; [reflexivity|].
  rewrite string_app_cons. simpl.
  intros [Hc Hws]%andb_true_iff. rewrite Hc. auto.
Qed.

Lemma trimEnd_only_spaces ws : all_space ws = true → trimEnd ws = EmptyString.
Proof.
  induction ws as [|c ws IH]; [reflexivity|]. simpl.
  intros [Hc Hws]%andb_true_iff. rewrite (IH Hws), Hc. reflexivity.
Qed.

Lemma trimEnd_spaces x ws :
  all_space ws = true → trimEnd (x +:+ ws) = trimEnd x.
Proof.
  intros Hws. induction x as [|c x IH].
  - now apply trimEnd_only_spaces.
  - rewrite string_app_cons. simpl. now rewrite IH.
Qed.

Lemma trimEnd_app_keep x y :
  trimEnd y ≠ EmptyString → trimEnd (x +:+ y) = x +:+ trimEnd y.
Proof.
  intros Hy. induction x as [|c x IH]; [reflexivity|].
  rewrite !string_app_cons. simpl. rewrite IH.
  destruct (x +:+ trimEnd y) eqn:Hxy; [|reflexivity].
  destruct x; [|discriminate]. now destruct Hy.
Qed.

Lemma length_trimStart s : (String.length (trimStart s) ≤ String.length s)%nat.
Proof.
  induction s as [|c s IH]; simpl; [lia|].
  destruct (is_space c); simpl; lia.
Qed.

Lemma trimStart_fixed_app x y :
  x ≠ EmptyString → trimStart x = x → trimStart (x +:+ y) = x +:+ y.
Proof.
  destruct x as [|c x]; [congruence|]. intros _ Hfix.
  rewrite string_app_cons. simpl in *.
  destruct (is_space c); [|reflexivity].
  pose proof (length_trimStart x) as Hlen. rewrite Hfix in Hlen.
  simpl in Hlen. lia.
Qed.

Lemma before_closing_fence_app x : before_closing_fence (x +:+ "```") = Some x.
Proof.
  induction x as [|c x IH]; [reflexivity|].
  rewrite string_app_cons.
  change (before_closing_fence (String c (x +:+ "```")))
    with (if String.eqb (String c (x +:+ "```")) "```" then Some EmptyString
          else String c <$> before_closing_fence (x +:+ "```")).
  rewrite IH.
  destruct (String.eqb_spec (String c (x +:+ "```")) "```") as [Heq|]; [|reflexivity].
  apply (f_equal String.length) in Heq.
  simpl in Heq. rewrite length_string_app in Heq. simpl in Heq. lia.
Qed.

Lemma all_digits_app x y :
  all_digits (x +:+ y) = all_digits x && all_digits y.
Proof.
  induction x as [|c x IH]; [reflexivity|].
  rewrite string_app_cons. simpl. rewrite IH. now rewrite andb_assoc.
Qed.

Lemma has_char_app c x y : has_char c (x +:+ y) = has_char c x || has_char c y.
Proof.
  induction x as [|c' x IH]; [reflexivity|].
  rewrite string_app_cons. simpl. rewrite IH. now rewrite orb_assoc.
Qed.

Lemma all_digits_no_char c s :
  is_digit c = false → all_digits s = true → has_char c s = false.
Proof.
  intros Hc. induction s as [|c' s IH]; [reflexivity|]. simpl.
  intros [Hc' Hs]%andb_true_iff. rewrite (IH Hs), orb_false_r.
  destruct (Ascii.eqb_spec c' c) as [->|]; [congruence|reflexivity].
Qed.

(** A text is cut in one way only at the first occurrence of a character. *)
Lemma cut_at_first c : ∀ a a' b b',
  has_char c a = false → has_char c a' = false →
  a +:+ String c b = a' +:+ String c b' → a = a' ∧ b = b'.
Proof.
  induction a as [|x a IH]; intros [|x' a'] b b'; simpl;
    rewrite ?string_app_cons.
  - intros _ _ [= ->]. auto.
  - intros _ [Hx _]%orb_false_iff [= <- _]. now rewrite Ascii.eqb_refl in Hx.
  - intros [Hx _]%orb_false_iff _ [= -> _]. now rewrite Ascii.eqb_refl in Hx.
  - intros [_ Ha]%orb_false_iff [_ Ha']%orb_false_iff [= -> Heq].
    destruct (IH _ _ _ Ha Ha' Heq) as [-> ->]. auto.
Qed.

(** A text is cut in one way only at the last occurrence of a character. *)
Lemma cut_at_last c : ∀ a a' d d',
  has_char c d = false → has_char c d' = false →
  a +:+ String c d = a' +:+ String c d' → a = a' ∧ d = d'.
Proof.
  induction a as [|x a IH]; intros [|x' a'] d d' Hd Hd'; simpl;
    rewrite ?string_app_cons.
  - intros [= ->]. auto.
  - intros [= <- ->]. rewrite has_char_app in Hd. simpl in Hd.
    rewrite Ascii.eqb_refl in Hd. simpl in Hd.
    now rewrite orb_true_r in Hd.
  - intros [= -> <-]. rewrite has_char_app in Hd'. simpl in Hd'.
    rewrite Ascii.eqb_refl in Hd'. simpl in Hd'.
    now rewrite orb_true_r in Hd'.
  - intros [= -> Heq]. destruct (IH _ _ _ Hd Hd' Heq) as [-> ->]. auto.
Qed.

Lemma pretty_N_char_digit x : is_digit (pretty_N_char x) = true.
Proof. unfold pretty_N_char. repeat case_match; reflexivity. Qed.

Lemma pretty_N_go_digits x : ∀ s,
  ∃ d, pretty_N_go x s = d +:+ s ∧ all_digits d = true.
Proof.
  induction (N.lt_wf_0 x) as [x _ IH]; intros s.
  destruct (decide (x = 0%N)) as [->|Hx].
  - exists EmptyString. now rewrite pretty_N_go_0.
  - rewrite pretty_N_go_step by lia.
    destruct (IH (x `div` 10)%N) with (s := String (pretty_N_char (x `mod` 10)) s)
      as (d & -> & Hd).
    { apply N.div_lt; lia. }
    exists (d +:+ String (pretty_N_char (x `mod` 10)) EmptyString). split.
    + now rewrite string_app_assoc.
    + rewrite all_digits_app, Hd. simpl. now rewrite pretty_N_char_digit.
Qed.

(** The decimal text of a number that is not negative has digits only. *)
Lemma pretty_Z_digits (z : Z) : 0 ≤ z → all_digits (pretty z) = true.
Proof.
  destruct z as [|p|p]; [reflexivity| |lia]. intros _.
  change (pretty (Z.pos p)) with (pretty (N.pos p)).
  unfold pretty, pretty_N. destruct (decide (N.pos p = 0%N)); [reflexivity|].
  destruct (pretty_N_go_digits (N.pos p) EmptyString) as (d & -> & Hd).
  now rewrite string_app_empty_r.
Qed.

Lemma pretty_N_go_head x : ∀ s,
  (0 < x)%N →
  ∃ c rest, pretty_N_go x s = String c rest ∧ c ≠ "0"%char.
Proof.
  induction (N.lt_wf_0 x) as [x _ IH]; intros s Hx.
  rewrite pretty_N_go_step by lia.
  destruct (decide (x `div` 10 = 0)%N) as [Hdiv|Hdiv].
  - rewrite Hdiv, pretty_N_go_0. eexists _, _. split; [reflexivity|].
    assert (x < 10)%N by (apply N.div_small_iff in Hdiv; lia).
    rewrite N.mod_small by lia.
    change "0"%char with (pretty_N_char 0).
    intros Heq%pretty_N_char_inj; lia.
  - apply IH; [apply N.div_lt; lia|now apply N.neq_0_lt_0].
Qed.

(** The decimal text of a positive number does not start with a zero. *)
Lemma pretty_Z_head (z : Z) :
  0 < z → ∃ c rest, pretty z = String c rest ∧ c ≠ "0"%char.
Proof.
  destruct z as [|p|p]; [lia| |lia]. intros _.
  change (pretty (Z.pos p)) with (pretty (N.pos p)).
  unfold pretty, pretty_N. destruct (decide (N.pos p = 0%N)); [lia|].
  apply pretty_N_go_head. lia.
Qed.

End Texts.

(** ** Further properties of the final step *)

(** X5. [finishEpubConversionChat] unwraps a fenced answer: white space
    around the response, the opening fence with the white space after it and
    the closing fence with the white space before it are all removed, and
    the text given to [JSON.parse] is exactly the text between them. *)
Theorem fenced_response_is_unwrapped (before inner1 body inner2 after : string) :
  Text.all_space before = true → Text.all_space inner1 = true →
  Text.all_space inner2 = true → Text.all_space after = true →
  body ≠ EmptyString →
  JsString.trimStart body = body → JsString.trimEnd body = body →
  JsString.strip_closing_fence
    (JsString.strip_opening_fence
       (JsString.trim
          (before +:+ "```json" +:+ inner1 +:+ body +:+ inner2 +:+ "```"
           +:+ after)))
  = body.
Proof.
  intros Hb H1 H2 Ha Hne Hstart Hend.
  assert (Htrim : JsString.trim
            (before +:+ "```json" +:+ inner1 +:+ body +:+ inner2 +:+ "```"
             +:+ after)
          = "```json" +:+ inner1 +:+ body +:+ inner2 +:+ "```").
  { unfold JsString.trim. rewrite (trimStart_spaces _ _ Hb).
    change (JsString.trimStart ("```json" +:+ ?x)) with ("```json" +:+ x).
    replace ("```json" +:+ inner1 +:+ body +:+ inner2 +:+ "```" +:+ after)
      with ((("```json" +:+ inner1 +:+ body +:+ inner2) +:+ "```") +:+ after)
      by (now rewrite !string_app_assoc).
    rewrite (trimEnd_spaces _ _ Ha).
    rewrite trimEnd_app_keep by discriminate.
    now rewrite !string_app_assoc. }
  rewrite Htrim. unfold JsString.strip_opening_fence.
  rewrite startsWith_app.
  change (JsString.drop_chars 7 ("```json" +:+ ?x)) with x.
  rewrite (trimStart_spaces _ _ H1).
  rewrite (trimStart_fixed_app _ _ Hne Hstart).
  unfold JsString.strip_closing_fence.
  replace (body +:+ inner2 +:+ "```") with ((body +:+ inner2) +:+ "```")
    by (now rewrite !string_app_assoc).
  rewrite before_closing_fence_app.
  now rewrite (trimEnd_spaces _ _ H2).
Qed.

Lemma fenced_response_is_unwrapped_witness :
  JsString.strip_closing_fence
    (JsString.strip_opening_fence
       (JsString.trim
          (" " +:+ "```json" +:+ String "010" EmptyString
           +:+ "{}" +:+ String "010" EmptyString +:+ "```"
           +:+ String "010" EmptyString)))
  = "{}".
Proof.
  apply (fenced_response_is_unwrapped " " (String "010" EmptyString) "{}"
           (String "010" EmptyString) (String "010" EmptyString));
    solve [reflexivity | discriminate].
Defined.

Section Banner.
Import Json World GeminiService Handlers.

(** The banner for an [Error] made by [new Error(message)]: its JSON text
    is [{}], which none of the patterns occurs in. *)
Lemma error_banner_new_Error message :
  error_banner (new_Error message)
  = ("An error occurred: "
     +:+ (if String.eqb message EmptyString then "Unknown error" else message),
     false).
Proof. reflexivity. Qed.

(** The final step fails only through its own [catch]. *)
Lemma finish_thrown E w err w' t :
  finishEpubConversionChat E w = (Thrown err, w', t) →
  ∃ reason, err = new_Error ("Failed to convert PDF to HTML. " +:+ reason).
Proof.
  unfold finishEpubConversionChat, try_catch.
  destruct (bind _ _ w) as [[[v|e] w1] t1]; [discriminate|].
  unfold throw. intros [= <- _ _]. eexists. reflexivity.
Qed.

End Banner.

(** X6. Every failure of [finishEpubConversionChat] is a fresh [Error]
    whose message starts with "Failed to convert PDF to HTML. ", whatever
    was thrown underneath.  The handler therefore never recognises it as a
    quota, rate-limit or server failure: it shows "An error occurred: " with
    that message, and offers no Retry. *)
Theorem finalize_failure_is_unclassified (E : World.Environment)
    (w w' : World.world) (err : World.js_error) (t : list World.event) :
  GeminiService.finishEpubConversionChat E w = (World.Thrown err, w', t) →
  ∃ reason,
    err = World.new_Error ("Failed to convert PDF to HTML. " +:+ reason)
    ∧ GeminiService.is_quota_error err = false
    ∧ GeminiService.isRetriableError err = false
    ∧ Handlers.error_banner err
      = ("An error occurred: Failed to convert PDF to HTML. " +:+ reason,
         false).
Proof.
  intros Hrun. destruct (finish_thrown E w err w' t Hrun) as [reason ->].
  exists reason. repeat split.
Qed.

Lemma finalize_failure_is_unclassified_witness :
  ∃ reason,
    (GeminiService.finishEpubConversionChat Samples.env_quota
       Samples.world0).1.1
    = World.Thrown
        (World.new_Error ("Failed to convert PDF to HTML. " +:+ reason))
    ∧ Handlers.error_banner
        (World.new_Error ("Failed to convert PDF to HTML. " +:+ reason))
      = ("An error occurred: Failed to convert PDF to HTML. " +:+ reason,
         false).
Proof.
  destruct (finalize_failure_is_unclassified Samples.env_quota Samples.world0
              (GeminiService.finishEpubConversionChat Samples.env_quota
                 Samples.world0).1.2
              (World.new_Error
                 "Failed to convert PDF to HTML. An unknown error occurred.")
              (GeminiService.finishEpubConversionChat Samples.env_quota
                 Samples.world0).2)
    as (reason & Herr & _ & _ & Hbanner).
  - vm_compute. reflexivity.
  - exists reason. rewrite <- Herr. split; [vm_compute; reflexivity|exact Hbanner].
Defined.

(** X7. The banner of the handler agrees with the classification of the
    client: a quota error gets the quota banner; an error the client would
    retry gets the rate-limit or the server banner; any other error gets
    "An error occurred: ".  Retry is offered only for errors that the client
    itself retries, and never for a quota or rate-limit error. *)
Theorem banner_agrees_with_client (err : World.js_error) :
  (GeminiService.is_quota_error err = true →
   Handlers.error_banner err
   = ("Daily API quota exceeded. Your progress has been saved. Please try resuming the conversion again tomorrow.",
      false))
  ∧ (GeminiService.is_quota_error err = false →
     GeminiService.isRetriableError err = true →
     Handlers.error_banner err
     = ("API Rate Limit Exceeded. Your progress has been saved. Please wait a few minutes before resuming the conversion.",
        false)
     ∨ Handlers.error_banner err
       = ("A temporary network or server error occurred. Your progress has been saved. Please try resuming the conversion in a moment.",
          true))
  ∧ (GeminiService.is_quota_error err = false →
     GeminiService.isRetriableError err = false →
     Handlers.error_banner err
     = ("An error occurred: "
        +:+ (if String.eqb (World.err_message err) EmptyString
             then "Unknown error" else World.err_message err),
        false))
  ∧ ((Handlers.error_banner err).2 = true →
     GeminiService.is_quota_error err = false
     ∧ GeminiService.isRetriableError err = true
     ∧ JsString.includes (GeminiService.errorString err) "429" = false
     ∧ JsString.includes (GeminiService.errorString err) "resource_exhausted"
       = false).
Proof.
  unfold Handlers.error_banner, GeminiService.is_quota_error,
    GeminiService.isRetriableError.
  generalize (JsString.includes (GeminiService.errorString err) "daily limit")
             (JsString.includes (GeminiService.errorString err) "quota exceeded")
             (JsString.includes (GeminiService.errorString err) "429")
             (JsString.includes (GeminiService.errorString err) "resource_exhausted")
             (JsString.includes (GeminiService.errorString err) "500")
             (JsString.includes (GeminiService.errorString err) "503")
             (JsString.includes (GeminiService.errorString err) "unknown")
             (JsString.includes (GeminiService.errorString err) "rpc failed").
  generalize ("An error occurred: "
              +:+ (if String.eqb (World.err_message err) EmptyString
                   then "Unknown error" else World.err_message err)).
  generalize "Daily API quota exceeded. Your progress has been saved. Please try resuming the conversion again tomorrow.".
  generalize "API Rate Limit Exceeded. Your progress has been saved. Please wait a few minutes before resuming the conversion.".
  generalize "A temporary network or server error occurred. Your progress has been saved. Please try resuming the conversion in a moment.".
  intros server rate quota other b1 b2 b3 b4 b5 b6 b7 b8.
  destruct b1, b2, b3, b4, b5, b6, b7, b8;
    cbn [orb fst snd]; repeat split; intros; try discriminate;
    solve [reflexivity | left; reflexivity | right; reflexivity].
Qed.

(** ** Further properties of the chunk loop and of the store *)

Section Coverage.


End Coverage.



Section Store.
Import Json World GeminiService App Observe.
Variable E : Environment.

Lemma snapshots_cons_set key s t :
  snapshots (EvSetItem key s :: t) = s :: snapshots t.
Proof. reflexivity. Qed.

(** One iteration changes the store at the session key only, and leaves
    there the last snapshot it wrote. *)
Lemma process_chunk_store key P i imgs w :
  match process_chunk E key P i imgs w with
  | (_, w', t) =>
      (∀ k, k ≠ key → w_store w' !! k = w_store w !! k)
      ∧ match last (snapshots t) with
        | Some s => w_store w' !! key = Some (JSON_stringify E s)
        | None => w_store w' = w_store w
        end
  end.
Proof.
  destruct (process_chunk_shape E key P i imgs w)
    as [[err ->]|(ex & ds & w1 & _ & _ & [(err & -> & _ & Hstore)
                                         |(response & -> & _ & Hstore)])].
  - split; [reflexivity|reflexivity].
  - rewrite snapshots_cons_set, snapshots_retry_trace. cbn [last].
    rewrite Hstore. split.
    + intros k Hk. now rewrite lookup_insert_ne.
    + now rewrite lookup_insert_eq.
  - rewrite snapshots_cons_set, snapshots_app, snapshots_retry_trace.
    cbn [app snapshots omap list_omap last]. rewrite Hstore. split.
    + intros k Hk. now rewrite !lookup_insert_ne.
    + now rewrite lookup_insert_eq.
Qed.

Lemma chunk_loop_store key P : ∀ left i0 imgs w,
  match chunk_loop E key P left i0 imgs w with
  | (_, w', t) =>
      (∀ k, k ≠ key → w_store w' !! k = w_store w !! k)
      ∧ match last (snapshots t) with
        | Some s => w_store w' !! key = Some (JSON_stringify E s)
        | None => w_store w' = w_store w
        end
  end.
Proof.
  induction left as [|left IH]; intros i0 imgs w.
  - simpl. split; reflexivity.
  - change (chunk_loop E key P (S left) i0 imgs w)
      with (bind (process_chunk E key P i0 imgs)
              (λ imgs', chunk_loop E key P left (i0 + 1) imgs') w).
    unfold bind.
    pose proof (process_chunk_store key P i0 imgs w) as Hchunk.
    destruct (process_chunk E key P i0 imgs w) as [[[imgs1|err] w1] t1];
      [|exact Hchunk].
    specialize (IH (i0 + 1) imgs1 w1).
    destruct (chunk_loop E key P left (i0 + 1) imgs1 w1) as [[r2 w2] t2].
    destruct Hchunk as [Hframe1 Hlast1], IH as [Hframe2 Hlast2].
    split.
    + intros k Hk. now rewrite Hframe2, Hframe1.
    + rewrite snapshots_app, last_app.
      destruct (last (snapshots t2)) as [s|]; [exact Hlast2|].
      rewrite Hlast2. exact Hlast1.
Qed.

(** The final step leaves the store alone and writes no snapshot. *)
Lemma finish_store w :
  w_store (finishEpubConversionChat E w).1.2 = w_store w
  ∧ snapshots (finishEpubConversionChat E w).2 = []
  ∧ removals (finishEpubConversionChat E w).2 = [].
Proof.
  unfold finishEpubConversionChat, try_catch, bind.
  destruct (sendMessageWithRetry_shape E (final_message E) w)
    as (r & w1 & ds & -> & _ & Hstore & _).
  destruct r as [response|err]; cbn [fst snd].
  - destruct (read_htmlContent_pure E response w1) as [r ->].
    destruct r; cbn [fst snd throw]; rewrite ?app_nil_r;
      now rewrite snapshots_retry_trace, removals_retry_trace.
  - cbn [fst snd throw]. rewrite ?app_nil_r.
    now rewrite snapshots_retry_trace, removals_retry_trace.
Qed.

(** [handleConvert] when the document cannot be loaded. *)
Lemma handleConvert_try_load_failed file session isRetriable forceNew w err :
  pdf_numPages E = inl err →
  handleConvert_try E file session isRetriable forceNew w = (Thrown err, w, []).
Proof. intros HP. unfold handleConvert_try. rewrite HP. reflexivity. Qed.

(** A run that does not resume is the run without a session. *)
Lemma handleConvert_try_not_resumed file session isRetriable forceNew w :
  shouldResume E session isRetriable forceNew = false →
  handleConvert_try E file session isRetriable forceNew w
  = handleConvert_try E file None false false w.
Proof.
  intros Hno. unfold handleConvert_try.
  destruct session as [s|]; [rewrite Hno|]; reflexivity.
Qed.

(** [handleConvert] on the fresh path, step by step. *)
Lemma handleConvert_try_fresh file w P :
  pdf_numPages E = inr P →
  handleConvert_try E file None false false w
  = match chunk_loop E (sessionKey file) P
            (Z.to_nat (Chunking.numChunks P - 0)) 0 []
            {| w_store := delete (sessionKey file) (w_store w);
               w_history := [];
               w_sent := w_sent w;
               w_random := w_random w |} with
    | (Returned imgs, w1, t1) =>
        match finishEpubConversionChat E w1 with
        | (Returned html, w2, t2) =>
            match (generateEpub_promise E html
                     (remove_pdf_suffix (file_name file)) w2).1.1 with
            | Returned epub =>
                (Returned epub,
                 {| w_store := delete (sessionKey file) (w_store w2);
                    w_history := w_history w2;
                    w_sent := w_sent w2;
                    w_random := w_random w2 |},
                 EvRemoveItem (sessionKey file) :: EvChatCreate []
                 :: t1 ++ t2 ++ [EvRemoveItem (sessionKey file)])
            | Thrown err =>
                (Thrown err, w2,
                 EvRemoveItem (sessionKey file) :: EvChatCreate []
                 :: t1 ++ t2)
            end
        | (Thrown err, w2, t2) =>
            (Thrown err, w2,
             EvRemoveItem (sessionKey file) :: EvChatCreate [] :: t1 ++ t2)
        end
    | (Thrown err, w1, t1) =>
        (Thrown err, w1,
         EvRemoveItem (sessionKey file) :: EvChatCreate [] :: t1)
    end.
Proof.
  intros HP. unfold handleConvert_try. rewrite HP.
  unfold lift, bind, startEpubConversionChat, ret, localStorage_removeItem.
  cbn [default fst snd w_store w_history w_sent w_random].
  unfold Chunking.numChunks.
  change CHUNK_SIZE with Chunking.CHUNK_SIZE.
  destruct (chunk_loop _ _ _ _ _ _ _) as [[[imgs|err] w1] t1]; [|reflexivity].
  destruct (finishEpubConversionChat E w1) as [[[html|err] w2] t2];
    [|cbn; rewrite ?app_nil_r; reflexivity].
  rewrite (generateEpub_promise_pure E html _ w2).
  destruct (generateEpub_promise E html _ w2).1.1 as [epub|err];
    cbn; rewrite ?app_nil_r; reflexivity.
Qed.

(** Packaging returns only an archive that [generateAsync] accepted. *)
Lemma generateEpub_promise_returned html title w epub :
  (generateEpub_promise E html title w).1.1 = Returned epub →
  jszip_generateAsync E epub = None.
Proof.
  unfold generateEpub_promise.
  destruct (negb (jszip_folder E "OEBPS")); [discriminate|].
  destruct (negb (jszip_folder E "images")); [discriminate|].
  destruct (jszip_generateAsync E _) eqn:Hgen; [discriminate|].
  intros [= <-]. exact Hgen.
Qed.

(** The store after the loop and the final step, entered with a world [w0]
    whose store is [store0]. *)
Lemma loop_then_finish_store key P left i0 imgs w0 :
  match chunk_loop E key P left i0 imgs w0 with
  | (Returned _, w1, t1) =>
      match finishEpubConversionChat E w1 with
      | (_, w2, t2) =>
          (∀ k, k ≠ key → w_store w2 !! k = w_store w0 !! k)
          ∧ match last (snapshots (t1 ++ t2)) with
            | Some s => w_store w2 !! key = Some (JSON_stringify E s)
            | None => w_store w2 = w_store w0
            end
      end
  | (Thrown _, w1, t1) =>
      (∀ k, k ≠ key → w_store w1 !! k = w_store w0 !! k)
      ∧ match last (snapshots t1) with
        | Some s => w_store w1 !! key = Some (JSON_stringify E s)
        | None => w_store w1 = w_store w0
        end
  end.
Proof.
  pose proof (chunk_loop_store key P left i0 imgs w0) as Hloop.
  destruct (chunk_loop E key P left i0 imgs w0) as [[[r|err] w1] t1];
    [|exact Hloop].
  destruct (finish_store w1) as (Hstore & Hsnap & _).
  destruct (finishEpubConversionChat E w1) as [[r2 w2] t2].
  cbn [fst snd] in *. rewrite snapshots_app, Hsnap, app_nil_r, Hstore.
  exact Hloop.
Qed.

End Store.

(** X9. What [handleConvert] leaves in [localStorage]: every key other
    than the session key of the file is untouched; the conversion succeeds
    only with an archive that [generateAsync] accepted, and then the session
    is gone; after a failure, be it of the extraction, of a submission, of
    the final step or of the packaging, the store holds the last snapshot
    that was written, and when none was written a resumed run has left the
    store as it found it, while a fresh run has at most removed the old
    session.  A failure never removes a snapshot it wrote. *)
Theorem stored_session_after_conversion (E : World.Environment)
    (file : App.File) (session : option App.resumable)
    (isRetriableError forceNew : bool) (w : World.world) :
  match App.handleConvert_try E file session isRetriableError forceNew w with
  | (res, w', t) =>
      (∀ k, k ≠ App.sessionKey file →
            World.w_store w' !! k = World.w_store w !! k)
      ∧ match res with
        | World.Returned epub =>
            World.w_store w' = delete (App.sessionKey file) (World.w_store w)
            ∧ World.jszip_generateAsync E epub = None
        | World.Thrown _ =>
            match last (Observe.snapshots t) with
            | Some s =>
                World.w_store w' !! App.sessionKey file
                = Some (World.JSON_stringify E s)
            | None =>
                if App.shouldResume E session isRetriableError forceNew
                then World.w_store w' = World.w_store w
                else World.w_store w' = World.w_store w
                     ∨ World.w_store w'
                       = delete (App.sessionKey file) (World.w_store w)
            end
        end
  end.
Proof.
  destruct (World.pdf_numPages E) as [err|P] eqn:HP.
  { rewrite (handleConvert_try_load_failed E file session _ _ w err HP).
    split; [reflexivity|]. cbn [Observe.snapshots omap list_omap last].
    destruct (App.shouldResume E session isRetriableError forceNew); auto. }
  destruct (App.shouldResume E session isRetriableError forceNew) eqn:Hres.
  - destruct session as [s|]; [|discriminate].
    rewrite (handleConvert_try_resumed E file s _ _ w P Hres HP).
    match goal with |- context [App.chunk_loop E ?key P ?left ?i0 ?imgs ?w0] =>
      pose proof (loop_then_finish_store E key P left i0 imgs w0) as Hrun;
      destruct (App.chunk_loop E key P left i0 imgs w0) as [[[r|err] w1] t1]
    end.
    + destruct (GeminiService.finishEpubConversionChat E w1)
        as [[[html|err] w2] t2]; destruct Hrun as [Hframe Hlast];
        [destruct (App.generateEpub_promise E html _ w2).1.1 as [epub|err]
           eqn:Hpack| ];
        cbn [World.w_store] in *.
      * split.
        { intros k Hk. rewrite lookup_delete_ne by congruence. now apply Hframe. }
        split; [|exact (generateEpub_promise_returned E _ _ _ _ Hpack)].
        apply map_eq. intros k.
        destruct (decide (k = App.sessionKey file)) as [->|Hk].
        { now rewrite !lookup_delete_eq. }
        rewrite !lookup_delete_ne by congruence. now apply Hframe.
      * split; [exact Hframe|exact Hlast].
      * split; [exact Hframe|exact Hlast].
    + destruct Hrun as [Hframe Hlast]. cbn [World.w_store] in *.
      split; [exact Hframe|exact Hlast].
  - rewrite (handleConvert_try_not_resumed E file session _ _ w Hres).
    rewrite (handleConvert_try_fresh E file w P HP).
    match goal with |- context [App.chunk_loop E ?key P ?left ?i0 ?imgs ?w0] =>
      pose proof (loop_then_finish_store E key P left i0 imgs w0) as Hrun;
      destruct (App.chunk_loop E key P left i0 imgs w0) as [[[r|err] w1] t1]
    end.
    + destruct (GeminiService.finishEpubConversionChat E w1)
        as [[[html|err] w2] t2]; destruct Hrun as [Hframe Hlast];
        [destruct (App.generateEpub_promise E html _ w2).1.1 as [epub|err]
           eqn:Hpack| ];
        cbn [World.w_store] in *.
      * split.
        { intros k Hk. rewrite lookup_delete_ne by congruence.
          rewrite Hframe by exact Hk. now rewrite lookup_delete_ne by congruence. }
        split; [|exact (generateEpub_promise_returned E _ _ _ _ Hpack)].
        apply map_eq. intros k.
        destruct (decide (k = App.sessionKey file)) as [->|Hk].
        { now rewrite !lookup_delete_eq. }
        rewrite !lookup_delete_ne by congruence.
        rewrite Hframe by exact Hk. now rewrite lookup_delete_ne by congruence.
      * split.
        { intros k Hk. rewrite Hframe by exact Hk.
          now rewrite lookup_delete_ne by congruence. }
        change (Observe.snapshots
                  (World.EvRemoveItem (App.sessionKey file)
                   :: World.EvChatCreate [] :: t1 ++ t2))
          with (Observe.snapshots (t1 ++ t2)).
        destruct (last (Observe.snapshots (t1 ++ t2))); [exact Hlast|].
        right. exact Hlast.
      * split.
        { intros k Hk. rewrite Hframe by exact Hk.
          now rewrite lookup_delete_ne by congruence. }
        change (Observe.snapshots
                  (World.EvRemoveItem (App.sessionKey file)
                   :: World.EvChatCreate [] :: t1 ++ t2))
          with (Observe.snapshots (t1 ++ t2)).
        destruct (last (Observe.snapshots (t1 ++ t2))); [exact Hlast|].
        right. exact Hlast.
    + destruct Hrun as [Hframe Hlast]. cbn [World.w_store] in *. split.
      { intros k Hk. rewrite Hframe by exact Hk.
        now rewrite lookup_delete_ne by congruence. }
      change (Observe.snapshots
                (World.EvRemoveItem (App.sessionKey file)
                 :: World.EvChatCreate [] :: t1))
        with (Observe.snapshots t1).
      destruct (last (Observe.snapshots t1)); [exact Hlast|].
      right. exact Hlast.
Qed.

(** X10. A conversion that does not resume (there is no session, the user
    declined to resume, or a new conversion is forced) runs exactly as if no
    session had been kept: nothing of the kept session is used.  Once the
    document is loaded it first removes the stored session, then creates the
    chat with an empty history, and the chunk values it writes are
    [0, 1, 1, 2, ...], cut short where it fails.  When the document cannot
    be loaded, nothing happens at all: no event, and the world is as it
    was. *)
Theorem fresh_conversion_ignores_kept_session (E : World.Environment)
    (file : App.File) (session : option App.resumable)
    (isRetriableError forceNew : bool) (w : World.world) :
  App.shouldResume E session isRetriableError forceNew = false →
  let run := App.handleConvert_try E file session isRetriableError forceNew w in
  run = App.handleConvert_try E file None false false w
  ∧ (∀ P, World.pdf_numPages E = inr P →
       (∃ rest, run.2 = World.EvRemoveItem (App.sessionKey file)
                        :: World.EvChatCreate [] :: rest)
       ∧ World.currentChunk <$> Observe.snapshots run.2
         `prefix_of` concat ((λ i, [i; i + 1])
                             <$> seqZ 0 (Chunking.numChunks P)))
  ∧ (∀ err, World.pdf_numPages E = inl err → run = (World.Thrown err, w, [])).
Proof.
  intros Hno run. subst run.
  rewrite (handleConvert_try_not_resumed E file session _ _ w Hno).
  split; [reflexivity|]. split.
  - intros P HP. rewrite (handleConvert_try_fresh E file w P HP).
    match goal with |- context [App.chunk_loop E ?key P ?left ?i0 ?imgs ?w0] =>
      destruct (chunk_loop_snapshots E key P left i0 imgs w0) as [Hpre _];
      destruct (App.chunk_loop E key P left i0 imgs w0) as [[[r|err] w1] t1]
    end.
    + destruct (finish_store E w1) as (_ & Hsnap & _).
      assert (Hseq : seqZ 0 (Z.of_nat (Z.to_nat (Chunking.numChunks P - 0)))
                     = seqZ 0 (Chunking.numChunks P)).
      { destruct (decide (0 ≤ Chunking.numChunks P)).
        - f_equal. lia.
        - rewrite !seqZ_nil by lia. reflexivity. }
      rewrite Hseq in Hpre. cbn [snd] in Hpre.
      destruct (GeminiService.finishEpubConversionChat E w1)
        as [[[html|err] w2] t2];
        [destruct (App.generateEpub_promise E html _ w2).1.1 as [epub|err]| ];
        cbn [fst snd] in *.
      * split; [eexists; reflexivity|].
        change (Observe.snapshots
                  (World.EvRemoveItem (App.sessionKey file)
                   :: World.EvChatCreate []
                   :: t1 ++ t2 ++ [World.EvRemoveItem (App.sessionKey file)]))
          with (Observe.snapshots
                  (t1 ++ t2 ++ [World.EvRemoveItem (App.sessionKey file)])).
        rewrite !snapshots_app, Hsnap. cbn. now rewrite app_nil_r.
      * split; [eexists; reflexivity|].
        change (Observe.snapshots
                  (World.EvRemoveItem (App.sessionKey file)
                   :: World.EvChatCreate [] :: t1 ++ t2))
          with (Observe.snapshots (t1 ++ t2)).
        rewrite snapshots_app, Hsnap. now rewrite app_nil_r.
      * split; [eexists; reflexivity|].
        change (Observe.snapshots
                  (World.EvRemoveItem (App.sessionKey file)
                   :: World.EvChatCreate [] :: t1 ++ t2))
          with (Observe.snapshots (t1 ++ t2)).
        rewrite snapshots_app, Hsnap. now rewrite app_nil_r.
    + assert (Hseq : seqZ 0 (Z.of_nat (Z.to_nat (Chunking.numChunks P - 0)))
                     = seqZ 0 (Chunking.numChunks P)).
      { destruct (decide (0 ≤ Chunking.numChunks P)).
        - f_equal. lia.
        - rewrite !seqZ_nil by lia. reflexivity. }
      rewrite Hseq in Hpre. cbn [fst snd] in *.
      split; [eexists; reflexivity|exact Hpre].
  - intros err HP. now apply handleConvert_try_load_failed.
Qed.

Lemma fresh_conversion_ignores_kept_session_witness :
  let file := {| App.file_name := "a.pdf"; App.file_size := 10 |} in
  let kept := {| App.resume_currentChunk := 2;
                 App.resume_chatHistory :=
                   [World.UserContent [World.TextPart "earlier"]];
                 App.resume_allImages := Some [MoreSamples.earlier_image] |} in
  App.handleConvert_try Samples.env_accepting file (Some kept) false true
    Samples.world0
  = App.handleConvert_try Samples.env_accepting file None false false
      Samples.world0.
Proof.
  intros file kept.
  destruct (fresh_conversion_ignores_kept_session Samples.env_accepting file
              (Some kept) false true Samples.world0) as [Hsame _].
  - reflexivity.
  - exact Hsame.
Defined.

(** X11. Start Over never resumes.  The handler it calls still sees the
    session and the retry flag of the current render, yet they have no
    influence: the run is the one without any session.  The stored session
    is removed before anything else, also when the document then fails to
    load, and that failure is reported in the banner instead of being
    thrown. *)
Theorem start_over_never_resumes (E : World.Environment) (file : App.File)
    (session : option App.resumable) (ui ui' : Handlers.ui_state)
    (w : World.world) :
  Handlers.handleStartOver E (Some file) session ui w
  = Handlers.handleStartOver E (Some file) None ui' w
  ∧ (∃ after w' rest,
       Handlers.handleStartOver E (Some file) session ui w
       = (Some after, w', World.EvRemoveItem (App.sessionKey file) :: rest))
  ∧ (∀ err, World.pdf_numPages E = inl err →
       Handlers.handleStartOver E (Some file) session ui w
       = (Some {| Handlers.ui_error := (Handlers.error_banner err).1;
                  Handlers.ui_isRetriableError := (Handlers.error_banner err).2;
                  Handlers.ui_epub := None |},
          {| World.w_store := delete (App.sessionKey file) (World.w_store w);
             World.w_history := World.w_history w;
             World.w_sent := World.w_sent w;
             World.w_random := World.w_random w |},
          [World.EvRemoveItem (App.sessionKey file)])).
Proof.
  assert (Hno : ∀ s r, App.shouldResume E s r true = false).
  { intros s r. unfold App.shouldResume. rewrite andb_false_r. reflexivity. }
  unfold Handlers.handleStartOver, Handlers.handleConvert,
    App.localStorage_removeItem.
  rewrite (handleConvert_try_not_resumed E file session _ true _ (Hno _ _)).
  rewrite (handleConvert_try_not_resumed E file None _ true _ (Hno _ _)).
  split; [reflexivity|]. split.
  - destruct (App.handleConvert_try E file None false false _)
      as [[[epub|err] w1] t1]; eexists _, _, _; reflexivity.
  - intros err HP.
    rewrite (handleConvert_try_load_failed E file None false false _ err HP).
    reflexivity.
Qed.

Section PageExtraction.
Import JsString Json World App Text Alignment.
Variable E : Environment.

Lemma includes_app_r s n x :
  includes s n = true → includes (s +:+ x) n = true.
Proof.
  intros H. destruct (includes_inv _ _ H) as (a & b & ->).
  rewrite !string_app_assoc. apply includes_intro.
Qed.

Lemma includes_end s n : includes (s +:+ n) n = true.
Proof.
  rewrite <- (string_app_empty_r n) at 1. apply includes_intro.
Qed.

Lemma aligned_refl st : aligned st st.
Proof.
  exists []. rewrite !app_nil_r. repeat split. intros k Hk. lia.
Qed.

Lemma aligned_text st0 st x :
  aligned st0 st →
  aligned st0 {| chunkText := chunkText st +:+ x;
                 chunkImages := chunkImages st;
                 allImagesNow := allImagesNow st |}.
Proof.
  intros (new & Hall & Hchunk & Htok). exists new. cbn.
  split; [exact Hall|]. split; [exact Hchunk|].
  intros k Hk. apply includes_app_r. now apply Htok.
Qed.

Lemma aligned_op st0 st op : aligned st0 st → aligned st0 (process_op E st op).
Proof.
  intros Hst. destruct op as [|lookup ctx]; [exact Hst|]. simpl.
  destruct (paint_image_try E lookup ctx) as [err|[img|]];
    [exact Hst| |exact Hst].
  destruct Hst as (new & Hall & Hchunk & Htok). exists (new ++ [img]). cbn.
  split; [now rewrite Hall, app_assoc|].
  split; [now rewrite Hchunk, app_assoc|].
  intros k Hk. rewrite length_app in Hk. cbn in Hk.
  destruct (decide (k = length (allImagesNow st))) as [->|Hne].
  - rewrite length_app. cbn [length].
    replace (Z.of_nat (length (allImagesNow st) + 1) - 1)
      with (Z.of_nat (length (allImagesNow st))) by lia.
    apply includes_end.
  - apply includes_app_r. apply Htok. lia.
Qed.

Lemma aligned_ops st0 ops : ∀ st,
  aligned st0 st → aligned st0 (foldl (process_op E) st ops).
Proof.
  induction ops as [|op ops IH]; intros st Hst; [exact Hst|].
  simpl. apply IH. now apply aligned_op.
Qed.

Lemma aligned_pages st0 pages : ∀ st w ex w' t,
  aligned st0 st →
  process_pages E st pages w = (Returned ex, w', t) →
  aligned st0 ex.
Proof.
  induction pages as [|p pages IH]; intros st w ex w' t Hst; simpl.
  - intros [= <- _ _]. exact Hst.
  - unfold bind, process_page, lift.
    destruct (pdf_getPage E p) as [err|page]; simpl; [discriminate|].
    match goal with |- context [process_pages E ?st1 pages w] =>
      destruct (process_pages E st1 pages w) as [[r w2] t2] eqn:Hrest
    end.
    destruct r as [ex'|err]; intros [= <- _ _].
    eapply IH; [|exact Hrest].
    apply aligned_ops. now apply (aligned_text st0 st).
Qed.

End PageExtraction.

(** X12. The extraction of a chunk keeps the image sequence and the chunk
    text aligned: the global sequence afterwards is the sequence before
    followed by exactly the images attached to this chunk's message, and
    for every image added the chunk text contains the placeholder
    [IMAGE_k] with [k] the index of that image in the global sequence. *)
Theorem images_and_placeholders_stay_aligned (E : World.Environment)
    (imgs : list World.image) (pages : list Z) (w w' : World.world)
    (ex : App.extraction) (t : list World.event) :
  App.process_pages E
    {| App.chunkText := EmptyString; App.chunkImages := [];
       App.allImagesNow := imgs |} pages w
  = (World.Returned ex, w', t) →
  App.allImagesNow ex = imgs ++ App.chunkImages ex
  ∧ ∀ k, (length imgs ≤ k < length (App.allImagesNow ex))%nat →
         JsString.includes (App.chunkText ex) (Text.image_placeholder k) = true.
Proof.
  intros Hrun.
  destruct (aligned_pages E _ pages _ w ex w' t (aligned_refl _) Hrun)
    as (new & Hall & Hchunk & Htok).
  cbn in Hall, Hchunk, Htok. subst. split; [exact Hall|exact Htok].
Qed.

Lemma images_and_placeholders_stay_aligned_witness :
  let ex :=
    match App.process_pages MoreSamples.env_painting
            {| App.chunkText := EmptyString; App.chunkImages := [];
               App.allImagesNow := [MoreSamples.earlier_image] |}
            [1; 2] Samples.world0 with
    | (World.Returned ex, _, _) => ex
    | _ => {| App.chunkText := EmptyString; App.chunkImages := [];
              App.allImagesNow := [] |}
    end in
  length (App.chunkImages ex) = 2%nat
  ∧ App.allImagesNow ex = [MoreSamples.earlier_image] ++ App.chunkImages ex
  ∧ JsString.includes (App.chunkText ex) (Text.image_placeholder 1) = true
  ∧ JsString.includes (App.chunkText ex) (Text.image_placeholder 2) = true.
Proof.
  intros ex.
  destruct (images_and_placeholders_stay_aligned MoreSamples.env_painting
              [MoreSamples.earlier_image] [1; 2] Samples.world0
              Samples.world0 ex []) as [Hall Htok].
  - vm_compute. reflexivity.
  - split; [vm_compute; reflexivity|]. split; [exact Hall|].
    split; apply Htok; vm_compute; lia.
Defined.

Section Calls.
Import Json World GeminiService App Observe.
Variable E : Environment.

Lemma sends_cons_set key s t : sends (EvSetItem key s :: t) = sends t.
Proof. reflexivity. Qed.

Lemma process_chunk_sends key P i imgs w :
  (length (sends (process_chunk E key P i imgs w).2) ≤ 7)%nat.
Proof.
  destruct (process_chunk_shape E key P i imgs w)
    as [[err ->]|(ex & ds & w1 & _ & Hds & [(err & -> & _)
                                          |(response & -> & _)])];
    cbn [snd].
  - simpl. lia.
  - rewrite sends_cons_set, sends_retry_trace, length_replicate. lia.
  - rewrite sends_cons_set, sends_app, sends_retry_trace, length_app,
      length_replicate. simpl. lia.
Qed.

Lemma chunk_loop_sends key P : ∀ left i0 imgs w,
  (length (sends (chunk_loop E key P left i0 imgs w).2) ≤ 7 * left)%nat.
Proof.
  induction left as [|left IH]; intros i0 imgs w.
  - simpl. lia.
  - change (chunk_loop E key P (S left) i0 imgs w)
      with (bind (process_chunk E key P i0 imgs)
              (λ imgs', chunk_loop E key P left (i0 + 1) imgs') w).
    unfold bind.
    pose proof (process_chunk_sends key P i0 imgs w) as Hchunk.
    destruct (process_chunk E key P i0 imgs w) as [[[imgs1|err] w1] t1];
      cbn [snd] in *; [|lia].
    specialize (IH (i0 + 1) imgs1 w1).
    destruct (chunk_loop E key P left (i0 + 1) imgs1 w1) as [[r2 w2] t2].
    cbn [snd] in *. rewrite sends_app, length_app. lia.
Qed.

Lemma finish_sends w :
  (length (sends (finishEpubConversionChat E w).2) ≤ 7)%nat.
Proof.
  unfold finishEpubConversionChat, try_catch, bind.
  destruct (sendMessageWithRetry_shape E (final_message E) w)
    as (r & w1 & ds & -> & Hds & _).
  destruct r as [response|err]; cbn [fst snd].
  - destruct (read_htmlContent_pure E response w1) as [r ->].
    destruct r; cbn [fst snd throw]; rewrite ?app_nil_r;
      rewrite sends_retry_trace, length_replicate; lia.
  - cbn [fst snd throw]. rewrite ?app_nil_r.
    rewrite sends_retry_trace, length_replicate. lia.
Qed.

Lemma loop_then_finish_sends key P left i0 imgs w0 :
  match chunk_loop E key P left i0 imgs w0 with
  | (Returned _, w1, t1) =>
      (length (sends (t1 ++ (finishEpubConversionChat E w1).2))
       ≤ 7 * (left + 1))%nat
  | (Thrown _, _, t1) => (length (sends t1) ≤ 7 * (left + 1))%nat
  end.
Proof.
  pose proof (chunk_loop_sends key P left i0 imgs w0) as Hloop.
  destruct (chunk_loop E key P left i0 imgs w0) as [[[r|err] w1] t1];
    cbn [snd] in Hloop; [|lia].
  pose proof (finish_sends w1). rewrite sends_app, length_app. lia.
Qed.

End Calls.

(** X13. The service calls of one conversion are bounded: when the
    document cannot be loaded none is made; otherwise at most seven per
    chunk still to be processed and seven for the final request, that is
    [7 * (numChunks - start + 1)] in all, where [start] is the chunk the
    run resumes from, or 0 for a fresh run. *)
Theorem conversion_service_calls_are_bounded (E : World.Environment)
    (file : App.File) (session : option App.resumable)
    (isRetriableError forceNew : bool) (w : World.world) :
  let t := (App.handleConvert_try E file session isRetriableError forceNew w).2 in
  let start :=
    match session with
    | Some s =>
        if App.shouldResume E session isRetriableError forceNew
        then App.resume_currentChunk s else 0
    | None => 0
    end in
  match World.pdf_numPages E with
  | inl _ => Observe.sends t = []
  | inr P =>
      (length (Observe.sends t)
       ≤ 7 * (Z.to_nat (Chunking.numChunks P - start) + 1))%nat
  end.
Proof.
  intros t start. subst t start.
  destruct (World.pdf_numPages E) as [err|P] eqn:HP.
  { now rewrite (handleConvert_try_load_failed E file session _ _ w err HP). }
  destruct (App.shouldResume E session isRetriableError forceNew) eqn:Hres.
  - destruct session as [s|]; [|discriminate].
    rewrite (handleConvert_try_resumed E file s _ _ w P Hres HP).
    match goal with |- context [App.chunk_loop E ?key P ?left ?i0 ?imgs ?w0] =>
      pose proof (loop_then_finish_sends E key P left i0 imgs w0) as Hrun;
      destruct (App.chunk_loop E key P left i0 imgs w0) as [[[r|err] w1] t1]
    end; [|exact Hrun].
    destruct (GeminiService.finishEpubConversionChat E w1)
      as [[[html|err] w2] t2];
      [destruct (App.generateEpub_promise E html _ w2).1.1 as [epub|err]| ];
      cbn [snd] in *.
    + change (Observe.sends (World.EvChatCreate _ :: ?x))
        with (Observe.sends x).
      rewrite app_assoc, sends_app, length_app. simpl. lia.
    + exact Hrun.
    + exact Hrun.
  - rewrite (handleConvert_try_not_resumed E file session _ _ w Hres).
    rewrite (handleConvert_try_fresh E file w P HP).
    assert (Hstart : match session with
                     | Some _ => 0
                     | None => 0
                     end = 0) by (now destruct session).
    rewrite Hstart.
    match goal with |- context [App.chunk_loop E ?key P ?left ?i0 ?imgs ?w0] =>
      pose proof (loop_then_finish_sends E key P left i0 imgs w0) as Hrun;
      destruct (App.chunk_loop E key P left i0 imgs w0) as [[[r|err] w1] t1]
    end; [|exact Hrun].
    destruct (GeminiService.finishEpubConversionChat E w1)
      as [[[html|err] w2] t2];
      [destruct (App.generateEpub_promise E html _ w2).1.1 as [epub|err]| ];
      cbn [snd] in *.
    + change (Observe.sends (World.EvRemoveItem _ :: World.EvChatCreate _ :: ?x))
        with (Observe.sends x).
      rewrite app_assoc, sends_app, length_app. simpl. lia.
    + exact Hrun.
    + exact Hrun.
Qed.

(** ** Further properties of the session key and of the session-load effect *)

(** X14. Files that differ in name or in size have different session
    keys (sizes are not negative): the size is read back after the last
    hyphen of the key, whatever hyphens and digits the name contains.  So no
    file ever loads, overwrites or removes the session of a file with another
    name or size. *)
Theorem sessionKey_is_injective (f1 f2 : App.File) :
  0 ≤ App.file_size f1 → 0 ≤ App.file_size f2 →
  App.file_name f1 ≠ App.file_name f2 ∨ App.file_size f1 ≠ App.file_size f2 →
  App.sessionKey f1 ≠ App.sessionKey f2.
Proof.
  intros H1 H2 Hne. unfold App.sessionKey. intros Heq.
  apply (String.app_inj "epub-session-") in Heq.
  apply cut_at_last in Heq as [Hname Hsize].
  - apply (inj pretty) in Hsize. destruct Hne; contradiction.
  - now apply all_digits_no_char, pretty_Z_digits.
  - now apply all_digits_no_char, pretty_Z_digits.
Qed.

Lemma sessionKey_is_injective_witness :
  App.sessionKey {| App.file_name := "a-1"; App.file_size := 0 |}
  ≠ App.sessionKey {| App.file_name := "a"; App.file_size := 10 |}.
Proof.
  apply (sessionKey_is_injective
           {| App.file_name := "a-1"; App.file_size := 0 |}
           {| App.file_name := "a"; App.file_size := 10 |});
    [simpl; lia|simpl; lia|right; simpl; lia].
Defined.

Section SessionLoadMore.
Import Json World App.
Variable E : Environment.

(** The effect for a selected file: local to the key, idempotent, and it
    either offers a usable record or leaves no record behind. *)
Lemma session_load_effect_cases file localStorage :
  match session_load_effect E (Some file) localStorage with
  | (store', offer) =>
      (∀ k, k ≠ sessionKey file → store' !! k = localStorage !! k)
      ∧ session_load_effect E (Some file) store' = (store', offer)
      ∧ match offer with
        | Some parsed =>
            store' = localStorage
            ∧ ∃ savedSession,
                localStorage !! sessionKey file = Some savedSession
                ∧ savedSession ≠ EmptyString
                ∧ try_load_session E savedSession = Some parsed
        | None =>
            store' !! sessionKey file = None
            ∨ store' !! sessionKey file = Some EmptyString
        end
  end.
Proof.
  unfold session_load_effect.
  destruct (localStorage !! sessionKey file) as [saved|] eqn:Hget.
  2:{ rewrite Hget. repeat split; auto. }
  destruct (String.eqb_spec saved EmptyString) as [->|Hne].
  { rewrite Hget. simpl. repeat split; auto. }
  destruct (try_load_session E saved) as [parsed|] eqn:Hload.
  - rewrite Hget. destruct (String.eqb_spec saved EmptyString); [contradiction|].
    rewrite Hload. repeat split. exists saved. auto.
  - rewrite lookup_delete_eq. split; [|split; [reflexivity|now left]].
    intros k Hk. now rewrite lookup_delete_ne.
Qed.

End SessionLoadMore.

(** X15. The session-load effect for a selected file touches no key but
    the session key of that file, and running it a second time changes
    nothing and gives the same answer.  When it offers a session, the store
    is unchanged and holds a non-empty record that parses with truthy
    [currentChunk] and [chatHistory]; when it offers none, the store holds
    no record under the key any more (or the empty text it already held):
    an unusable record is removed, never kept. *)
Theorem session_load_is_local_and_idempotent (E : World.Environment)
    (file : App.File) (localStorage : gmap string string) :
  match App.session_load_effect E (Some file) localStorage with
  | (store', offer) =>
      (∀ k, k ≠ App.sessionKey file → store' !! k = localStorage !! k)
      ∧ App.session_load_effect E (Some file) store' = (store', offer)
      ∧ match offer with
        | Some parsed =>
            store' = localStorage
            ∧ ∃ savedSession currentChunk chatHistory,
                localStorage !! App.sessionKey file = Some savedSession
                ∧ savedSession ≠ EmptyString
                ∧ World.JSON_parse E savedSession = Json.Parsed parsed
                ∧ Json.get_property parsed "currentChunk" = Some currentChunk
                ∧ Json.truthy currentChunk = true
                ∧ Json.get_property parsed "chatHistory" = Some chatHistory
                ∧ Json.truthy chatHistory = true
        | None =>
            store' !! App.sessionKey file = None
            ∨ store' !! App.sessionKey file = Some EmptyString
        end
  end.
Proof.
  pose proof (session_load_effect_cases E file localStorage) as H.
  destruct (App.session_load_effect E (Some file) localStorage)
    as [store' [parsed|]]; [|exact H].
  destruct H as (Hframe & Hidem & Hstore & saved & Hget & Hne & Hload).
  split; [exact Hframe|]. split; [exact Hidem|]. split; [exact Hstore|].
  apply try_load_session_offers in Hload
    as (Hparse & cc & ch & Hcc & Htc & Hch & Hth).
  exists saved, cc, ch. auto 10.
Qed.

(** ** Further properties of the elapsed-time display *)

Section Elapsed.
Import Text Display.

Lemma padStart2_digits s : all_digits s = true → all_digits (padStart2 s) = true.
Proof. destruct s as [|c [|c' s]]; simpl; auto. Qed.

Lemma length_padStart2 s : (2 ≤ String.length (padStart2 s))%nat.
Proof. destruct s as [|c [|c' s]]; simpl; lia. Qed.

Lemma length_padStart2_below_100 n :
  0 ≤ n < 100 → String.length (padStart2 (pretty n)) = 2%nat.
Proof.
  intros Hn.
  assert (Hall : forallb (λ k, Nat.eqb (String.length
                                          (padStart2 (pretty (Z.of_nat k)))) 2)
                   (seq 0 100) = true) by (vm_compute; reflexivity).
  rewrite forallb_forall in Hall.
  specialize (Hall (Z.to_nat n)). rewrite Z2Nat.id in Hall by lia.
  apply Nat.eqb_eq, Hall, in_seq. lia.
Qed.

Lemma padStart2_pretty_inj a b :
  0 ≤ a → 0 ≤ b → padStart2 (pretty a) = padStart2 (pretty b) → a = b.
Proof.
  assert (Hzero : ∀ x, 0 < x → padStart2 (pretty x) ≠ "00").
  { intros x Hx. destruct (pretty_Z_head x Hx) as (c & rest & -> & Hc).
    destruct rest; simpl; congruence. }
  intros Ha Hb Heq.
  destruct (decide (a = 0)) as [->|Ha0], (decide (b = 0)) as [->|Hb0].
  - reflexivity.
  - exfalso. apply (Hzero b); [lia|]. now rewrite <- Heq.
  - exfalso. apply (Hzero a); [lia|]. now rewrite Heq.
  - destruct (pretty_Z_head a ltac:(lia)) as (c & r & Hpa & Hc).
    destruct (pretty_Z_head b ltac:(lia)) as (c' & r' & Hpb & Hc').
    apply (inj pretty). rewrite Hpa, Hpb in *.
    destruct r, r'; simpl in Heq; congruence.
Qed.

Lemma formatElapsedTime_parts ms :
  0 ≤ ms →
  formatElapsedTime ms
  = padStart2 (pretty (ms / 1000 / 60)) +:+ ":"
    +:+ padStart2 (pretty ((ms / 1000) `mod` 60)).
Proof.
  intros Hms. unfold formatElapsedTime.
  rewrite Z.rem_mod_nonneg by (try apply Z.div_pos; lia). reflexivity.
Qed.

End Elapsed.

(** X16. For an elapsed time that is not negative, [formatElapsedTime]
    shows the whole minutes, a colon, and the seconds within the minute:
    both parts are decimal digits only, the seconds are always two digits
    for a value from 0 to 59, the minutes have at least two digits and are
    never wrapped into hours, and below one hundred minutes the display has
    exactly five characters. *)
Theorem elapsed_time_has_clock_shape (ms : Z) :
  0 ≤ ms →
  let minutes := Display.padStart2 (pretty (ms / 60000)) in
  let seconds := Display.padStart2 (pretty ((ms / 1000) `mod` 60)) in
  Display.formatElapsedTime ms = minutes +:+ ":" +:+ seconds
  ∧ Text.all_digits minutes = true
  ∧ Text.all_digits seconds = true
  ∧ 0 ≤ (ms / 1000) `mod` 60 < 60
  ∧ String.length seconds = 2%nat
  ∧ (2 ≤ String.length minutes)%nat
  ∧ (ms < 6000000 → String.length (Display.formatElapsedTime ms) = 5%nat).
Proof.
  intros Hms minutes seconds. subst minutes seconds.
  pose proof (Z.mod_pos_bound (ms / 1000) 60 ltac:(lia)) as Hmod.
  assert (Hdiv : ms / 1000 / 60 = ms / 60000)
    by (rewrite Z.div_div by lia; reflexivity).
  rewrite formatElapsedTime_parts, Hdiv by exact Hms.
  assert (0 ≤ ms / 60000) by (apply Z.div_pos; lia).
  split; [reflexivity|].
  split; [apply padStart2_digits, pretty_Z_digits; lia|].
  split; [apply padStart2_digits, pretty_Z_digits; lia|].
  split; [exact Hmod|].
  split; [apply length_padStart2_below_100; lia|].
  split; [apply length_padStart2|].
  intros Hsmall. rewrite !length_string_app.
  rewrite !length_padStart2_below_100; [reflexivity|lia|].
  split; [lia|]. apply Z.div_lt_upper_bound; lia.
Qed.

Lemma elapsed_time_has_clock_shape_witness :
  Display.formatElapsedTime 754321 = "12:34"
  ∧ String.length (Display.formatElapsedTime 754321) = 5%nat.
Proof.
  destruct (elapsed_time_has_clock_shape 754321 ltac:(lia))
    as (Hshape & _ & _ & _ & _ & _ & Hlen).
  split; [rewrite Hshape; vm_compute; reflexivity|apply Hlen; lia].
Defined.

(** X17. The elapsed-time display is faithful: two elapsed times that are
    not negative are shown alike exactly when they have the same number of
    whole seconds.  No two different second counts ever produce the same
    text, however long the conversion runs. *)
Theorem elapsed_time_display_is_faithful (a b : Z) :
  0 ≤ a → 0 ≤ b →
  Display.formatElapsedTime a = Display.formatElapsedTime b
  ↔ a / 1000 = b / 1000.
Proof.
  intros Ha Hb. split.
  - rewrite !formatElapsedTime_parts by assumption. intros Heq.
    assert (0 ≤ a / 1000) by (apply Z.div_pos; lia).
    assert (0 ≤ b / 1000) by (apply Z.div_pos; lia).
    assert (0 ≤ a / 1000 / 60) by (apply Z.div_pos; lia).
    assert (0 ≤ b / 1000 / 60) by (apply Z.div_pos; lia).
    pose proof (Z.mod_pos_bound (a / 1000) 60 ltac:(lia)).
    pose proof (Z.mod_pos_bound (b / 1000) 60 ltac:(lia)).
    apply cut_at_first in Heq as [Hmin Hsec].
    + apply padStart2_pretty_inj in Hmin; [|lia|lia].
      apply padStart2_pretty_inj in Hsec; [|lia|lia].
      rewrite (Z.div_mod (a / 1000) 60), (Z.div_mod (b / 1000) 60) by lia.
      now rewrite Hmin, Hsec.
    + apply all_digits_no_char; [reflexivity|].
      apply padStart2_digits, pretty_Z_digits. lia.
    + apply all_digits_no_char; [reflexivity|].
      apply padStart2_digits, pretty_Z_digits. lia.
  - unfold Display.formatElapsedTime. now intros ->.
Qed.

Lemma elapsed_time_display_is_faithful_witness :
  Display.formatElapsedTime 61000 = Display.formatElapsedTime 61999
  ∧ Display.formatElapsedTime 61000 = "01:01".
Proof.
  split; [|reflexivity].
  apply (elapsed_time_display_is_faithful 61000 61999); [lia|lia|reflexivity].
Defined.

(** ** Further properties of the packager *)

Section PackagerLayout.
Import EpubService Observe Archive Text.

Lemma has_entry_app n a b : has_entry n (a ++ b) = has_entry n a || has_entry n b.
Proof. apply existsb_app. Qed.

Lemma has_entry_false n z : has_entry n z = false → n ∉ entry_name <$> z.
Proof.
  induction z as [|e z IH]; cbn [has_entry existsb].
  - intros _. apply not_elem_of_nil.
  - intros [He Hz]%orb_false_iff. rewrite fmap_cons. apply not_elem_of_cons.
    split; [|now apply IH].
    intros ->. now rewrite String.eqb_refl in He.
Qed.

Lemma NoDup_names_snoc z e :
  NoDup (entry_name <$> z) → has_entry (entry_name e) z = false →
  NoDup (entry_name <$> (z ++ [e])).
Proof.
  intros Hz He. rewrite fmap_app. apply NoDup_app. split; [exact Hz|].
  split; [|apply NoDup_singleton].
  intros x Hx [->|[]%elem_of_nil]%elem_of_cons.
  now apply has_entry_false in He.
Qed.

(** A file with a new name in an existing folder goes to the end. *)
Lemma zip_file_new folder name data compression base64 z :
  folder ≠ EmptyString → has_entry folder z = true →
  has_entry (folder +:+ name) z = false →
  zip_file folder name data compression base64 z
  = z ++ [{| entry_name := folder +:+ name; entry_data := data;
             entry_dir := false; entry_compression := compression;
             entry_base64 := base64 |}].
Proof.
  intros Hne Hfolder Hnew. unfold zip_file, zip_folder, zip_put.
  destruct (String.eqb_spec folder EmptyString); [contradiction|].
  rewrite Hfolder. cbn [entry_name]. now rewrite Hnew.
Qed.

Lemma image_entries_app a : ∀ b k,
  image_entries k (a ++ b)
  = image_entries k a ++ image_entries (k + Z.of_nat (length a)) b.
Proof.
  induction a as [|[m d] a IH]; intros b k; simpl.
  - now rewrite Z.add_0_r.
  - rewrite IH. do 3 f_equal. lia.
Qed.

Lemma length_image_entries inline : ∀ k,
  length (image_entries k inline) = length inline.
Proof.
  induction inline as [|[m d] inline IH]; intros k; simpl; [|rewrite IH];
    reflexivity.
Qed.

(** The number of an image file can be read back from its name. *)
Lemma image_name_inj j k m m' :
  0 ≤ j → 0 ≤ k →
  "OEBPS/images/" +:+ image_filename j m = "OEBPS/images/" +:+ image_filename k m' →
  j = k.
Proof.
  intros Hj Hk. unfold image_filename. intros Heq.
  apply (String.app_inj "OEBPS/images/") in Heq.
  apply (String.app_inj "image") in Heq.
  apply (cut_at_first ".") in Heq as [Heq _].
  - now apply (inj pretty) in Heq.
  - apply all_digits_no_char; [reflexivity|now apply pretty_Z_digits].
  - apply all_digits_no_char; [reflexivity|now apply pretty_Z_digits].
Qed.

Lemma image_name_not_in_skeleton k m :
  has_entry ("OEBPS/images/" +:+ image_filename k m) zip_skeleton = false.
Proof. reflexivity. Qed.

Lemma has_entry_image_entries_later inline : ∀ k j m,
  0 ≤ k → k + Z.of_nat (length inline) ≤ j →
  has_entry ("OEBPS/images/" +:+ image_filename j m) (image_entries k inline)
  = false.
Proof.
  induction inline as [|[m' d] inline IH]; intros k j m Hk Hj; [reflexivity|].
  cbn [image_entries has_entry existsb image_entry entry_name length] in *.
  apply orb_false_iff. split.
  - apply String.eqb_neq. intros Heq. apply image_name_inj in Heq; lia.
  - apply IH; lia.
Qed.

Lemma has_entry_image_entries_other n :
  JsString.startsWith n "OEBPS/images/image" = false →
  ∀ inline k, has_entry n (image_entries k inline) = false.
Proof.
  intros Hn. induction inline as [|[m d] inline IH]; intros k; [reflexivity|].
  cbn [image_entries has_entry existsb image_entry entry_name].
  apply orb_false_iff. split; [|apply IH].
  apply String.eqb_neq. intros <-. unfold image_filename in Hn.
  change ("OEBPS/images/" +:+ "image" +:+ ?x)
    with ("OEBPS/images/image" +:+ x) in Hn.
  now rewrite startsWith_app in Hn.
Qed.

(** The image loop appends one file per inline image, after what is there,
    and never meets a name that is taken. *)
Lemma add_image_files_layout inline : ∀ pre,
  NoDup (entry_name <$> (zip_skeleton ++ image_entries 0 pre)) →
  add_image_files (Z.of_nat (length pre)) inline
    (zip_skeleton ++ image_entries 0 pre)
  = zip_skeleton ++ image_entries 0 (pre ++ inline)
  ∧ NoDup (entry_name <$> (zip_skeleton ++ image_entries 0 (pre ++ inline))).
Proof.
  induction inline as [|[m d] inline IH]; intros pre Hdup.
  - rewrite app_nil_r. split; [reflexivity|exact Hdup].
  - cbn [add_image_files].
    assert (Hnew : has_entry ("OEBPS/images/" +:+ image_filename
                                                  (Z.of_nat (length pre)) m)
                     (zip_skeleton ++ image_entries 0 pre) = false).
    { rewrite has_entry_app, image_name_not_in_skeleton.
      rewrite has_entry_image_entries_later by lia. reflexivity. }
    rewrite zip_file_new;
      [|discriminate|rewrite has_entry_app; reflexivity|exact Hnew].
    replace (pre ++ (m, d) :: inline) with ((pre ++ [(m, d)]) ++ inline)
      by (now rewrite <- app_assoc).
    assert (Hstep : (zip_skeleton ++ image_entries 0 pre)
                    ++ [{| entry_name :=
                             "OEBPS/images/" +:+ image_filename
                                                   (Z.of_nat (length pre)) m;
                           entry_data := d; entry_dir := false;
                           entry_compression := None; entry_base64 := true |}]
                    = zip_skeleton ++ image_entries 0 (pre ++ [(m, d)])).
    { rewrite image_entries_app, <- app_assoc. reflexivity. }
    rewrite Hstep.
    specialize (IH (pre ++ [(m, d)])).
    replace (Z.of_nat (length (pre ++ [(m, d)])))
      with (Z.of_nat (length pre) + 1) in IH
      by (rewrite length_app; cbn [length]; lia).
    apply IH. rewrite <- Hstep.
    apply NoDup_names_snoc; [exact Hdup|exact Hnew].
Qed.

End PackagerLayout.

Section PackagerArchive.
Import EpubService Observe Archive Text.

Lemma zip_skeleton_entries :
  zip_skeleton
  = [mimetype_entry; dir_entry "META-INF/";
     text_entry "META-INF/container.xml" createContainerXml;
     dir_entry "OEBPS/"; dir_entry "OEBPS/images/"].
Proof. reflexivity. Qed.

Lemma NoDup_skeleton : NoDup (entry_name <$> zip_skeleton).
Proof.
  rewrite zip_skeleton_entries. cbn [fmap list_fmap entry_name mimetype_entry
                                    dir_entry text_entry].
  repeat (apply NoDup_cons; split;
          [rewrite ?elem_of_cons, elem_of_nil; intuition discriminate|]).
  apply NoDup_nil_2.
Qed.

Ltac fresh_name :=
  rewrite ?has_entry_app, ?has_entry_image_entries_other by reflexivity;
  reflexivity.

(** The archive, file by file. *)
Lemma generateEpub_layout innerHTML doc title :
  generateEpub innerHTML doc title
  = zip_skeleton
    ++ image_entries 0 (omap data_uri (srcs_of doc))
    ++ [text_entry "OEBPS/style.css" createCss;
        text_entry "OEBPS/toc.ncx"
          (createTocNcx (bookTitle doc title)
             (String.concat nl (imap navPoint (querySelectorAll_toc doc))));
        text_entry "OEBPS/content.xhtml"
          (finalHtmlString innerHTML (final_document doc));
        text_entry "OEBPS/content.opf"
          (createContentOpf (bookTitle doc title)
             (String.concat nl
                (manifest_items 0 (omap data_uri (srcs_of doc)))))]
  ∧ NoDup (entry_name <$> generateEpub innerHTML doc title).
Proof.
  unfold generateEpub.
  destruct (images_result_state doc) as (Hitems & Hzip).
  rewrite Hitems, Hzip, navPoints_of_input.
  destruct (add_image_files_layout (omap data_uri (srcs_of doc)) [])
    as [Hlayout Hdup].
  { cbn [image_entries]. rewrite app_nil_r. apply NoDup_skeleton. }
  cbn [length app image_entries] in Hlayout, Hdup.
  rewrite app_nil_r in Hlayout. change (Z.of_nat 0) with 0 in Hlayout.
  rewrite Hlayout.
  generalize createCss
    (createTocNcx (bookTitle doc title)
       (String.concat nl (imap navPoint (querySelectorAll_toc doc))))
    (finalHtmlString innerHTML (final_document doc))
    (createContentOpf (bookTitle doc title)
       (String.concat nl (manifest_items 0 (omap data_uri (srcs_of doc))))).
  intros css toc xhtml opf.
  rewrite (zip_file_new "OEBPS/" "style.css"); [|discriminate|fresh_name..].
  rewrite (zip_file_new "OEBPS/" "toc.ncx"); [|discriminate|fresh_name..].
  rewrite (zip_file_new "OEBPS/" "content.xhtml"); [|discriminate|fresh_name..].
  rewrite (zip_file_new "OEBPS/" "content.opf"); [|discriminate|fresh_name..].
  split.
  - rewrite <- !app_assoc. reflexivity.
  - repeat (apply NoDup_names_snoc; [|fresh_name]). exact Hdup.
Qed.

(** Text with a separator taken out has no separator left. *)
Lemma split_pieces sep s :
  Forall (λ p, has_char sep p = false) (JsString.split sep s).
Proof.
  induction s as [|c s IH]; simpl.
  - repeat constructor.
  - destruct (Ascii.eqb_spec c sep) as [->|Hne].
    + constructor; [reflexivity|exact IH].
    + destruct (JsString.split sep s) as [|p ps].
      * repeat constructor. simpl.
        destruct (Ascii.eqb_spec c sep); [contradiction|reflexivity].
      * inversion IH as [|? ? Hp Hps]; subst. constructor; [|exact Hps].
        simpl. rewrite Hp.
        destruct (Ascii.eqb_spec c sep); [contradiction|reflexivity].
Qed.

Lemma extension_of_no_slash m : has_char "/" (extension_of m) = false.
Proof.
  unfold extension_of.
  destruct (JsString.split "/" m !! 1%nat) as [ext|] eqn:Hext; [|reflexivity].
  destruct (String.eqb ext EmptyString); [reflexivity|].
  pose proof (split_pieces "/" m) as Hall.
  rewrite Forall_lookup in Hall. exact (Hall _ _ Hext).
Qed.

Lemma image_filename_no_slash k m :
  0 ≤ k → has_char "/" (image_filename k m) = false.
Proof.
  intros Hk. unfold image_filename.
  rewrite !has_char_app, extension_of_no_slash.
  rewrite (all_digits_no_char "/" (pretty k)); [reflexivity|reflexivity|].
  now apply pretty_Z_digits.
Qed.

Lemma image_files_image_entries inline : ∀ k,
  image_files (image_entries k inline) = image_entries k inline.
Proof.
  induction inline as [|[m d] inline IH]; intros k; [reflexivity|].
  cbn [image_entries]. unfold image_files in *.
  rewrite filter_cons_True.
  - now rewrite IH.
  - cbn [image_entry entry_name entry_dir]. now rewrite startsWith_app.
Qed.

Lemma image_entries_names inline : ∀ k e,
  0 ≤ k → e ∈ image_entries k inline →
  ∃ j m, k ≤ j < k + Z.of_nat (length inline)
         ∧ entry_name e = "OEBPS/images/" +:+ image_filename j m
         ∧ entry_dir e = false ∧ entry_base64 e = true.
Proof.
  induction inline as [|[m d] inline IH]; intros k e Hk;
    cbn [image_entries length].
  - intros []%elem_of_nil.
  - intros [->|Hin]%elem_of_cons.
    + exists k, m. repeat split; lia.
    + destruct (IH (k + 1) e ltac:(lia) Hin) as (j & m' & Hj & Hrest).
      exists j, m'. split; [lia|exact Hrest].
Qed.

(** After the loop, no image holds a source that the loop would accept. *)
Lemma data_uri_images_path x : data_uri (Some ("images/" +:+ x)) = None.
Proof.
  unfold data_uri.
  change (JsString.startsWith ("images/" +:+ x) "data:") with false.
  now rewrite andb_false_r.
Qed.

Lemma image_loop_skip_all srcs : ∀ st,
  Forall (λ src, data_uri src = None) srcs → (image_loop srcs st).2 = st.
Proof.
  induction srcs as [|src srcs IH]; intros st Hall; [reflexivity|].
  inversion Hall as [|? ? Hsrc Hrest]; subst.
  cbn [image_loop]. rewrite (image_step_skip src st Hsrc).
  specialize (IH st Hrest).
  destruct (image_loop srcs st) as [new st2]. exact IH.
Qed.

Lemma images_result_srcs doc :
  Forall (λ src, data_uri src = None) (srcs_of (images_result doc).1).
Proof.
  destruct (rewrite_images_agree doc
              {| imageCounter := 0; imageManifestItems := [];
                 zip := zip_skeleton |}) as [_ Hsrcs].
  fold (images_result doc) in Hsrcs. rewrite Hsrcs.
  apply Forall_lookup. intros j s Hj.
  apply (proj1 (lookup_zip_with_Some _ _ _ _ _)) in Hj
    as (src & new & -> & Hsrc & Hnew).
  rewrite (image_loop_lookup _ j src _ Hsrc) in Hnew.
  injection Hnew as <-.
  destruct (data_uri src) as [[m d]|] eqn:Huri; cbn [src_after].
  - apply data_uri_images_path.
  - exact Huri.
Qed.

End PackagerArchive.

(** X18. What [generateEpub] returns, for every markup.  The files put
    into the JSZip object are: [mimetype] first, stored uncompressed, then
    the directory [META-INF/], the container file, and the directories
    [OEBPS/] and [OEBPS/images/]; then one image file per inline image, in
    document order, numbered from 0; then the style sheet, [toc.ncx],
    [content.xhtml] and [content.opf], whose manifest lists exactly these
    images.  That is nine entries and one per inline image, all with
    different names, so no file overwrites another, and the files under the
    images folder are exactly the inline images.  The call resolves with
    the archive of exactly these files when [generateAsync] accepts them;
    it fails, with no archive, when [folder] gives no folder or
    [generateAsync] rejects them. *)
Theorem epub_archive_layout (E : World.Environment) (htmlContent : Json.json)
    (title : string) (w : World.world) :
  let doc := World.DOMParser_parseFromString E htmlContent in
  let inline := omap EpubService.data_uri (Observe.srcs_of doc) in
  let bookTitle := EpubService.bookTitle doc title in
  let files :=
    [Archive.mimetype_entry; Archive.dir_entry "META-INF/";
     Archive.text_entry "META-INF/container.xml" EpubService.createContainerXml;
     Archive.dir_entry "OEBPS/"; Archive.dir_entry "OEBPS/images/"]
    ++ Archive.image_entries 0 inline
    ++ [Archive.text_entry "OEBPS/style.css" EpubService.createCss;
        Archive.text_entry "OEBPS/toc.ncx"
          (EpubService.createTocNcx bookTitle
             (String.concat EpubService.nl
                (imap EpubService.navPoint
                   (EpubService.querySelectorAll_toc doc))));
        Archive.text_entry "OEBPS/content.xhtml"
          (EpubService.finalHtmlString (World.innerHTML E)
             (EpubService.final_document doc));
        Archive.text_entry "OEBPS/content.opf"
          (EpubService.createContentOpf bookTitle
             (String.concat EpubService.nl
                (Observe.manifest_items 0 inline)))] in
  App.generateEpub_promise E htmlContent title w
  = (if negb (World.jszip_folder E "OEBPS") then
       World.Thrown (World.new_Error "Could not create OEBPS folder.")
     else if negb (World.jszip_folder E "images") then
       World.Thrown (World.new_Error "Could not create images folder.")
     else match World.jszip_generateAsync E files with
          | Some err => World.Thrown err
          | None => World.Returned files
          end, w, [])
  ∧ EpubService.generateEpub (World.innerHTML E) doc title = files
  ∧ length files = (9 + length inline)%nat
  ∧ NoDup (EpubService.entry_name <$> files)
  ∧ Observe.image_files files = Archive.image_entries 0 inline.
Proof.
  intros doc inline bookTitle files.
  destruct (generateEpub_layout (World.innerHTML E) doc title)
    as [Hlayout Hdup].
  fold inline bookTitle in Hlayout.
  rewrite zip_skeleton_entries in Hlayout. fold files in Hlayout.
  rewrite Hlayout in Hdup.
  split.
  { unfold App.generateEpub_promise. fold doc. rewrite Hlayout.
    destruct (negb (World.jszip_folder E "OEBPS")); [reflexivity|].
    destruct (negb (World.jszip_folder E "images")); [reflexivity|].
    destruct (World.jszip_generateAsync E files); reflexivity. }
  split; [exact Hlayout|]. split; [|split; [exact Hdup|]].
  - subst files. rewrite !length_app, length_image_entries.
    cbn [length]. lia.
  - subst files. unfold Observe.image_files.
    rewrite !filter_app.
    change (filter _ [Archive.mimetype_entry; _; _; _; _])
      with (@nil EpubService.zip_entry).
    change (filter _ [Archive.text_entry "OEBPS/style.css" _; _; _; _])
      with (@nil EpubService.zip_entry).
    rewrite app_nil_r. cbn [app].
    apply image_files_image_entries.
Qed.

(** X19. The navigation of [toc.ncx] follows the TOC links of the input
    document: one entry per link selected by [nav ol li a], in document
    order, the [j]-th with number [j + 1], the text of the link and its
    [href].  Rewriting the image sources and appending the style sheet
    link, which happen before, never add, drop, reorder or alter an entry. *)
Theorem navigation_follows_toc_links (doc : EpubService.node) :
  let links := EpubService.querySelectorAll_toc doc in
  EpubService.navPoints doc = imap EpubService.navPoint links
  ∧ length (EpubService.navPoints doc) = length links
  ∧ ∀ j link, links !! j = Some link →
      EpubService.navPoints doc !! j
      = Some (EpubService.navPoint_template j
                (EpubService.textContent link) (EpubService.link_href link)).
Proof.
  intros links. subst links. rewrite navPoints_of_input.
  split; [reflexivity|]. split; [apply length_imap|].
  intros j link Hj. rewrite list_lookup_imap, Hj. reflexivity.
Qed.

(** X20. The image loop is complete: in the document it leaves behind, no
    [img] has a source that the loop would accept, so no inline image
    stays in [content.xhtml], and a second pass over that document would
    add no file, no manifest item and no count. *)
Theorem inline_images_are_all_rewritten (doc : EpubService.node) :
  let doc' := (EpubService.images_result doc).1 in
  Forall (λ src, EpubService.data_uri src = None) (Observe.srcs_of doc')
  ∧ ∀ st, (EpubService.rewrite_images doc' st).2 = st.
Proof.
  intros doc'. subst doc'.
  pose proof (images_result_srcs doc) as Hall. split; [exact Hall|].
  intros st.
  destruct (rewrite_images_agree (EpubService.images_result doc).1 st)
    as [-> _].
  now apply image_loop_skip_all.
Qed.

(** X21. Every file under the images folder of the archive lies directly
    in it: its name is [OEBPS/images/] followed by a file name without any
    slash, whatever the mime type written in the data URI, and it is stored
    from base64.  No image can be written outside the images folder. *)
Theorem image_files_stay_in_images_folder (innerHTML : EpubService.node → string)
    (doc : EpubService.node) (title : string) (e : EpubService.zip_entry) :
  e ∈ Observe.image_files (EpubService.generateEpub innerHTML doc title) →
  ∃ filename,
    EpubService.entry_name e = "OEBPS/images/" +:+ filename
    ∧ Text.has_char "/" filename = false
    ∧ EpubService.entry_base64 e = true.
Proof.
  destruct (generateEpub_layout innerHTML doc title) as [Hlayout _].
  rewrite Hlayout. unfold Observe.image_files.
  rewrite !filter_app.
  change (filter _ EpubService.zip_skeleton) with (@nil EpubService.zip_entry).
  change (filter _ [Archive.text_entry "OEBPS/style.css" _; _; _; _])
    with (@nil EpubService.zip_entry).
  rewrite app_nil_r. cbn [app].
  intros Hin%list_elem_of_filter. destruct Hin as [_ Hin].
  destruct (image_entries_names _ 0 e ltac:(lia) Hin)
    as (j & m & Hj & Hname & _ & Hb64).
  exists (EpubService.image_filename j m).
  split; [exact Hname|]. split; [|exact Hb64].
  apply image_filename_no_slash. lia.
Qed.

Lemma image_files_stay_in_images_folder_witness :
  ∃ filename,
    "OEBPS/images/image0.png" = "OEBPS/images/" +:+ filename
    ∧ Text.has_char "/" filename = false.
Proof.
  destruct (image_files_stay_in_images_folder (λ _, "<head/><body/>")
              Samples.sample_book "fallback"
              (Archive.image_entry 0 "image/png" "AAAA"))
    as (filename & Hname & Hslash & _).
  - vm_compute. apply list_elem_of_here.
  - exists filename. split; [exact Hname|exact Hslash].
Defined.
